(** * Table flattening of the document and presentation converters

    A shallow embedding of the table-to-Markdown code of [new.py] (the
    word-document converter) and of [test.py] (the presentation converter),
    and the properties of the specification stated over it.

    Python strings are sequences of Unicode code points; they are modelled as
    lists of code points ([N]).  The classes of characters that the code
    tests through [str.strip], [re]'s [\s] and [\d] and [str.lower] are
    written out as CPython defines them.

    The second part embeds the code around the tables: the pages of
    [word_to_markdown_pages] and the loop of the script in [new.py], and the
    titles, text shapes, slides and pictures of [test.py], with their
    properties at the end of the file. *)

From stdpp Require Import base list strings gmap.
From Stdlib Require Import NArith ZArith Lia.

(** ** Python strings *)

Module Py.
Local Open Scope N_scope.

Definition char := N.
Definition str := list char.

(** Decoder of the UTF-8 bytes of a literal of this file into code points,
    so that the tables and examples below can be written as text. *)
Fixpoint utf8_go (bs : list Ascii.ascii) (need : nat) (acc : N) : str :=
  match bs with
  | [] => []
  | b :: bs' =>
      let v := Ascii.N_of_ascii b in
      match need with
      | O =>
          if v <? 0x80 then v :: utf8_go bs' 0%nat 0
          else if v <? 0xE0 then utf8_go bs' 1%nat (N.land v 0x1F)
          else if v <? 0xF0 then utf8_go bs' 2%nat (N.land v 0x0F)
          else utf8_go bs' 3%nat (N.land v 0x07)
      | S O => (acc * 64 + N.land v 0x3F) :: utf8_go bs' 0%nat 0
      | S n => utf8_go bs' n (acc * 64 + N.land v 0x3F)
      end
  end.

Definition lit (s : string) : str :=
  utf8_go (String.list_ascii_of_string s) 0%nat 0.

(** The characters the code names. *)
Definition PIPE : char := 0x7C.
Definition NL : char := 0x0A.
Definition CR : char := 0x0D.
Definition TAB : char := 0x09.
Definition SP : char := 0x20.
Definition PERCENT : char := 0x25.
Definition BACKSLASH : char := 0x5C.

(** [Py_UNICODE_ISSPACE]: the class used by [str.strip()] without argument
    and by [\s] in a [str] pattern. *)
Definition isspace (c : char) : bool :=
  ((0x09 <=? c) && (c <=? 0x0D)) || ((0x1C <=? c) && (c <=? 0x20))
  || (c =? 0x85) || (c =? 0xA0) || (c =? 0x1680)
  || ((0x2000 <=? c) && (c <=? 0x200A))
  || (c =? 0x2028) || (c =? 0x2029) || (c =? 0x202F) || (c =? 0x205F)
  || (c =? 0x3000).

(** [Py_UNICODE_ISDECIMAL]: the class of [\d] in a [str] pattern, the
    decimal digits (general category Nd) of Unicode 15, the table of
    CPython 3.12; older interpreters lack the blocks added last (U+11F50,
    U+1E4F0).  Each entry is the zero of a block of ten digits; the
    mathematical digits U+1D7CE..U+1D7FF are five such blocks in a row.
    The proofs use of this table only that no digit is white space or the
    percent sign, and that no letter of [total] is a digit. *)
Definition decimal_zeros : list char :=
  [ 0x0030; 0x0660; 0x06F0; 0x07C0; 0x0966; 0x09E6; 0x0A66; 0x0AE6; 0x0B66;
    0x0BE6; 0x0C66; 0x0CE6; 0x0D66; 0x0DE6; 0x0E50; 0x0ED0; 0x0F20; 0x1040;
    0x1090; 0x17E0; 0x1810; 0x1946; 0x19D0; 0x1A80; 0x1A90; 0x1B50; 0x1BB0;
    0x1C40; 0x1C50; 0xA620; 0xA8D0; 0xA900; 0xA9D0; 0xA9F0; 0xAA50; 0xABF0;
    0xFF10; 0x104A0; 0x10D30; 0x11066; 0x110F0; 0x11136; 0x111D0; 0x112F0;
    0x11450; 0x114D0; 0x11650; 0x116C0; 0x11730; 0x118E0; 0x11950; 0x11C50;
    0x11D50; 0x11DA0; 0x11F50; 0x16A60; 0x16AC0; 0x16B50; 0x1D7CE; 0x1D7D8;
    0x1D7E2; 0x1D7EC; 0x1D7F6; 0x1E140; 0x1E2F0; 0x1E4F0; 0x1E950; 0x1FBF0 ].

Definition isdecimal (c : char) : bool :=
  existsb (fun z => (z <=? c) && (c <? z + 10)) decimal_zeros.

(** [str.lower()], on the code points whose lower case is an ASCII letter
    or contains one: the ASCII capitals, U+212A KELVIN SIGN (to [k]) and
    U+0130 (to [i] and U+0307).  Every other code point is sent by
    [str.lower] to code points outside ASCII or to itself, and is left as it
    is here; the code only asks whether the lowered text contains the ASCII
    word [total], which these code points cannot change. *)
Definition lower_char (c : char) : str :=
  if (0x41 <=? c) && (c <=? 0x5A) then [c + 0x20]
  else if c =? 0x212A then [0x6B]
  else if c =? 0x0130 then [0x69; 0x0307]
  else [c].

Definition lower (s : str) : str := flat_map lower_char s.

(** [s.replace(old, new)] for a one-character [old]. *)
Definition replace (old : char) (new : str) (s : str) : str :=
  flat_map (fun c => if c =? old then new else [c]) s.

(** [s.lstrip()], [s.rstrip()] and [s.strip()]. *)
Fixpoint lstrip (s : str) : str :=
  match s with
  | [] => []
  | c :: t => if isspace c then lstrip t else s
  end.

Definition rstrip (s : str) : str := reverse (lstrip (reverse s)).

Definition strip (s : str) : str := rstrip (lstrip s).

(** [sep.join(parts)]; also used with lines in place of characters. *)
Fixpoint join {A} (sep : list A) (parts : list (list A)) : list A :=
  match parts with
  | [] => []
  | [p] => p
  | p :: rest => p ++ sep ++ join sep rest
  end.

(** [s.startswith(p)] and [p in s]. *)
Fixpoint startswith (p s : str) : bool :=
  match p, s with
  | [], _ => true
  | _ :: _, [] => false
  | a :: p', b :: s' => (a =? b) && startswith p' s'
  end.

Fixpoint contains (p s : str) : bool :=
  startswith p s ||
  match s with
  | [] => false
  | _ :: t => contains p t
  end.

(** Whether a text starts, or ends, with a character of a class. *)
Definition starts (p : char -> bool) (s : str) : bool :=
  match s with [] => false | c :: _ => p c end.

Definition ends (p : char -> bool) (s : str) : bool :=
  match last s with None => false | Some c => p c end.

(** A text whose white space is single spaces, each followed by another
    character; and a text that neither starts nor ends with white space. *)
Fixpoint spaced (s : str) : bool :=
  match s with
  | [] => true
  | c :: t =>
      (negb (isspace c) || ((c =? SP) && negb (starts isspace t))) && spaced t
  end.

Definition trimmed (s : str) : bool :=
  negb (starts isspace s) && negb (ends isspace s).

(** A character that no step of the cleaning acts on: neither white space
    nor a digit, a percent sign or a pipe. *)
Definition plain (c : char) : bool :=
  negb (isspace c) && negb (isdecimal c) && negb (c =? PERCENT)
  && negb (c =? PIPE).

(** The text [s] has the word [w] in it. *)
Definition mentions (w s : str) : Prop := exists a b, s = a ++ w ++ b.

(** Truth value of a sequence: [bool(x)] is [len(x) != 0]. *)
Definition truthy {A} (l : list A) : bool :=
  match l with [] => false | _ :: _ => true end.

(** [str(n)] for a non-negative integer. *)
Definition digit_char (d : N) : char := 0x30 + d.

Fixpoint str_of_pos_fuel (fuel : nat) (n : N) (acc : str) : str :=
  match fuel with
  | O => acc
  | S f =>
      let acc' := digit_char (n mod 10) :: acc in
      if n / 10 =? 0 then acc' else str_of_pos_fuel f (n / 10) acc'
  end.

Definition str_of_int (n : N) : str :=
  str_of_pos_fuel (S (N.to_nat (N.log2 n))) n [].

End Py.

(** ** Regular-expression substitution *)

Module Re.
Import Py.
Local Open Scope N_scope.

(** [span p s] is the longest prefix of [s] whose characters satisfy [p],
    and the rest: what a greedy [c+] or [c*] over a character class takes. *)
Fixpoint span (p : char -> bool) (s : str) : str * str :=
  match s with
  | [] => ([], [])
  | c :: t =>
      if p c then let '(a, b) := span p t in (c :: a, b) else ([], s)
  end.

(** A matcher tries the pattern at the start of the text and gives the
    replacement of the match and the text after it. *)
Definition matcher := str -> option (str * str).

(** A matcher that consumes at least one character. *)
Definition shrinking (m : matcher) : Prop :=
  forall s repl rest, m s = Some (repl, rest) -> (length rest < length s)%nat.

(** [re.sub(pattern, repl, s)]: the text is scanned from the left; where
    the pattern matches, the match is replaced and the scan goes on after
    it; elsewhere the character is copied.  Neither pattern of the code
    matches the empty string.  The recursion is on the number of characters
    still to scan. *)
Fixpoint sub_fuel (m : matcher) (fuel : nat) (s : str) : str :=
  match fuel with
  | O => []
  | S f =>
      match s with
      | [] => []
      | c :: t =>
          match m s with
          | Some (repl, rest) => repl ++ sub_fuel m f rest
          | None => c :: sub_fuel m f t
          end
      end
  end.

Definition sub (m : matcher) (s : str) : str := sub_fuel m (length s) s.

(** The pattern [\s+], replaced by one space. *)
Definition match_ws : matcher := fun s =>
  match span isspace s with
  | ([], _) => None
  | (_ :: _, rest) => Some ([SP], rest)
  end.

(** The pattern [(\d+)\s*%], replaced by [\1%].  The greedy [\d+] takes the
    whole run of digits and the greedy [\s*] the whole run of white space;
    no shorter choice can match, since the character that would have to be
    [%] is then a digit or white space. *)
Definition match_pct : matcher := fun s =>
  match span isdecimal s with
  | ([], _) => None
  | (d, r1) =>
      match snd (span isspace r1) with
      | c :: rest => if c =? PERCENT then Some (d ++ [PERCENT], rest) else None
      | [] => None
      end
  end.

(** The text after the digits at the start of [s] and the white space that
    follows them. *)
Definition after_digits (s : str) : str := (span isspace (span isdecimal s).2).2.

(** The two substitutions of the code: [re.sub(r'\s+', ' ', text)] and
    [re.sub(r'(\d+)\s*%', r'\1%', text)]. *)
Definition squeeze (text : str) : str := sub match_ws text.
Definition tighten (text : str) : str := sub match_pct text.

End Re.

(** ** The word-document converter ([new.py]) *)

(** The functions of [new.py] as functions of the table they are given.
    The lists that the code builds are values here; the module after this
    one follows the list objects that the code changes in place, and the two
    are shown to give the same lines. *)

Module Docx.
Import Py Re.

(** The object tree that python-docx hands to the code: a table has rows, a
    row has cells, a cell has paragraphs (their [text]) and the tables
    nested in it. *)
Inductive Table : Type :=
| mkTable (rows : list Row)
with Row : Type :=
| mkRow (cells : list Cell)
with Cell : Type :=
| mkCell (paragraphs : list str) (tables : list Table).

Definition rows (t : Table) : list Row := let '(mkTable r) := t in r.
Definition cells (r : Row) : list Cell := let '(mkRow c) := r in c.
Definition paragraphs (c : Cell) : list str := let '(mkCell p _) := c in p.
Definition tables (c : Cell) : list Table := let '(mkCell _ t) := c in t.

(** The placeholder glyph, an en dash (U+2013). *)
Definition DASH : str := lit "–".

(** [a or b] on strings. *)
Definition py_or (a b : str) : str := if truthy a then a else b.

Definition format_percentages (text : str) : str :=
  let text := tighten text in
  if contains (lit "total") (lower text) then lit "Total" else text.

Definition clean_cell_text (text : str) : str :=
  if negb (truthy text) then []
  else
    let text :=
      replace TAB [SP]
        (replace CR [SP] (replace NL [SP] (replace PIPE (lit "&#124;") text))) in
    let text := strip (squeeze text) in
    let text := format_percentages text in
    text.

(** The body of the loop over [row.cells] in [extract_table_data]. *)
Definition cell_text (cell : Cell) : str :=
  let cell_text_parts :=
    map strip (List.filter (fun para => truthy (strip para)) (paragraphs cell)) in
  py_or (clean_cell_text (join [SP] cell_text_parts)) DASH.

Definition row_data (row : Row) : list str :=
  fold_left (fun row_data cell => row_data ++ [cell_text cell]) (cells row) [].

(** [any(cell != '–' for cell in row_data)]. *)
Definition any_not_dash (row_data : list str) : bool :=
  existsb (fun cell => bool_decide (cell <> DASH)) row_data.

Definition extract_table_data (table : Table) : list (list str) :=
  if negb (truthy (rows table)) then []
  else
    fold_left
      (fun table_data row =>
         let rd := row_data row in
         if any_not_dash rd then table_data ++ [rd] else table_data)
      (rows table) [].

(** ['| ' + ' | '.join(row) + ' |']. *)
Definition table_line (row : list str) : str :=
  lit "| " ++ join (lit " | ") row ++ lit " |".

(** [while len(row) < len(header_row): row.append('–')], on the list that
    [row] names; the loop runs at most [w] times. *)
Fixpoint pad_loop (fuel : nat) (row : list str) (w : nat) : list str :=
  match fuel with
  | O => row
  | S f => if (length row <? w)%nat then pad_loop f (row ++ [DASH]) w else row
  end.

Definition pad (row : list str) (w : nat) : list str := pad_loop w row w.

(** The body of the loop over [table_data[1:]]: the row is padded, cut to
    the header's length ([row[:len(header_row)]]) and written as a line.
    Both [process_regular_table] and [process_nested_table_content] hold a
    copy of this loop. *)
Definition body_line (header_row row : list str) : str :=
  let row := pad row (length header_row) in
  let row := take (length header_row) row in
  table_line row.

Definition process_regular_table (table : Table) : list str :=
  let table_data := extract_table_data table in
  match table_data with
  | [] => []
  | header_row :: body =>
      let result_lines := [] in
      let result_lines := result_lines ++ [table_line header_row] in
      let result_lines :=
        result_lines ++ [table_line (replicate (length header_row) (lit "---"))] in
      fold_left
        (fun result_lines row => result_lines ++ [body_line header_row row])
        body result_lines
  end.

(** [main_content], the stripped paragraphs of the cell, is computed in the
    first loop and never used; it does not appear here. *)
Definition process_nested_table_content (table : Table) : list str :=
  let all_tables :=
    fold_left
      (fun all_tables row =>
         fold_left
           (fun all_tables cell =>
              fold_left
                (fun all_tables nested_table =>
                   let table_data := extract_table_data nested_table in
                   if truthy table_data then all_tables ++ [table_data]
                   else all_tables)
                (tables cell) all_tables)
           (cells row) all_tables)
      (rows table) [] in
  fold_left
    (fun result_lines '(idx, table_data) =>
       let result_lines :=
         if (0 <? idx)%nat then result_lines ++ [[]] else result_lines in
       match table_data with
       | [] => result_lines
       | header_row :: body =>
           let result_lines := result_lines ++ [table_line header_row] in
           let result_lines :=
             result_lines
               ++ [table_line (replicate (length header_row) (lit "---"))] in
           fold_left
             (fun result_lines row => result_lines ++ [body_line header_row row])
             body result_lines
       end)
    (zip (seq 0 (length all_tables)) all_tables) [].

Definition has_nested_tables (table : Table) : bool :=
  existsb (fun cell => truthy (tables cell)) (concat (map cells (rows table))).

Definition process_table_proper_format (table : Table) : list str :=
  if negb (truthy (rows table)) then []
  else if has_nested_tables table then process_nested_table_content table
  else process_regular_table table.

(** The branch of [word_to_markdown_pages] for a table element: the lines
    of the table are added to the page, and one empty line after them. *)
Definition word_to_markdown_pages_tbl (current_lines : list str) (table : Table)
  : list str :=
  let markdown_table := process_table_proper_format table in
  if truthy markdown_table then (current_lines ++ markdown_table) ++ [[]]
  else current_lines.

(** *** Views used to state the properties *)

(** The text of a cell before the test for [total]: the replacements, the
    squeezing and stripping of white space, and the tightening of
    percentages. *)
Definition tightened (text : str) : str :=
  tighten
    (strip
       (squeeze
          (replace TAB [SP]
             (replace CR [SP]
                (replace NL [SP] (replace PIPE (lit "&#124;") text)))))).

(** The text of a cell as [extract_table_data] stores it. *)
Definition normalize (text : str) : str := py_or (clean_cell_text text) DASH.

(** The lines of one table, from its surviving rows: what the rendering
    loop of [process_regular_table] and of [process_nested_table_content]
    produces. *)
Definition render (table_data : list (list str)) : list str :=
  match table_data with
  | [] => []
  | header_row :: body =>
      table_line header_row
        :: table_line (replicate (length header_row) (lit "---"))
        :: map (body_line header_row) body
  end.

(** All tables nested in the cells of a table, row by row. *)
Definition nested_tables (table : Table) : list Table :=
  concat (map tables (concat (map cells (rows table)))).

(** The same table with the paragraphs of its own cells removed. *)
Definition without_paragraphs (table : Table) : Table :=
  mkTable
    (map (fun row => mkRow (map (fun cell => mkCell [] (tables cell)) (cells row)))
       (rows table)).

(** A table without nesting, from the paragraphs of its cells. *)
Definition plain_cell (paras : list str) : Cell := mkCell paras [].
Definition plain_table (rs : list (list str)) : Table :=
  mkTable (map (fun r => mkRow (map (fun c => plain_cell [c]) r)) rs).

(** A table of one cell, which holds a paragraph and a nested table with a
    short second row. *)
Definition sample_nested : Table :=
  mkTable
    [mkRow
       [mkCell [lit "outer text"] [plain_table [[lit "A"; lit "B"]; [lit "x"]]]]].

End Docx.

(** ** The word-document converter, with its list objects *)

(** The [row_data] lists are changed after they have been stored: the
    rendering loops reach them through [table_data] and [row.append] the
    placeholder to them.  To say what a call changes, the functions are
    written once more over a store of list objects, addressed by position:
    a new list is put at the end of the store, and [append] changes the
    list at an address in place.  The lists that never leave their function
    before it returns ([table_data], [all_tables], [result_lines]) hold
    values, or addresses of rows. *)

Module DocxStore.
Import Py Re Docx.

Abbreviation loc := nat.
Abbreviation store := (list (list str)).

Definition M (A : Type) : Type := store -> A * store.

Definition ret {A} (a : A) : M A := fun st => (a, st).

Definition bind {A B} (c : M A) (k : A -> M B) : M B :=
  fun st => let '(a, st') := c st in k a st'.

Notation "x <- c ;; k" := (bind c (fun x => k))
  (at level 100, c at next level, right associativity, only parsing).

(** [[]], a new list object. *)
Definition new_list : M loc := fun st => (length st, st ++ [[]]).

(** [l.append(x)]. *)
Definition append (l : loc) (x : str) : M unit :=
  fun st => (tt, alter (fun v => v ++ [x]) l st).

(** The elements of the list at an address. *)
Definition read (l : loc) : M (list str) :=
  fun st => (match st !! l with Some v => v | None => [] end, st).

(** A [for] loop that carries a value. *)
Fixpoint for_each {A B} (xs : list A) (acc : B) (body : B -> A -> M B) : M B :=
  match xs with
  | [] => ret acc
  | x :: xs' => acc' <- body acc x ;; for_each xs' acc' body
  end.

(** The body of the loop over [table.rows] in [extract_table_data]. *)
Definition extract_row (table_data : list loc) (row : Row) : M (list loc) :=
  row_data <- new_list ;;
  _ <- for_each (cells row) tt (fun _ cell =>
         append row_data (cell_text cell)) ;;
  cell_texts <- read row_data ;;
  if any_not_dash cell_texts then ret (table_data ++ [row_data])
  else ret table_data.

Definition extract_table_data (table : Table) : M (list loc) :=
  if negb (truthy (rows table)) then ret []
  else for_each (rows table) [] extract_row.

(** [while len(row) < len(header_row): row.append('–')]; both lengths are
    read again at every turn. *)
Fixpoint pad_loop (fuel : nat) (row header_row : loc) : M unit :=
  match fuel with
  | O => ret tt
  | S f =>
      r <- read row ;;
      h <- read header_row ;;
      if (length r <? length h)%nat
      then _ <- append row DASH ;; pad_loop f row header_row
      else ret tt
  end.

Definition pad (row header_row : loc) : M unit :=
  h <- read header_row ;;
  pad_loop (length h) row header_row.

(** The loop over [table_data[1:]], and its body. *)
Definition body_line (header_row : loc) (result_lines : list str) (row : loc)
  : M (list str) :=
  _ <- pad row header_row ;;
  r <- read row ;;
  h <- read header_row ;;
  let row := take (length h) r in
  ret (result_lines ++ [table_line row]).

Definition body_lines (header_row : loc) (body : list loc) (result_lines : list str)
  : M (list str) :=
  for_each body result_lines (body_line header_row).

(** The two lines for [header_row]. *)
Definition header_lines (header_row : loc) (result_lines : list str) : M (list str) :=
  h <- read header_row ;;
  let result_lines := result_lines ++ [table_line h] in
  h <- read header_row ;;
  ret (result_lines ++ [table_line (replicate (length h) (lit "---"))]).

Definition process_regular_table (table : Table) : M (list str) :=
  table_data <- extract_table_data table ;;
  match table_data with
  | [] => ret []
  | header_row :: body =>
      result_lines <- header_lines header_row [] ;;
      body_lines header_row body result_lines
  end.

(** The bodies of the two loops of [process_nested_table_content]. *)
Definition collect_table (all_tables : list (list loc)) (nested_table : Table)
  : M (list (list loc)) :=
  table_data <- extract_table_data nested_table ;;
  if truthy table_data then ret (all_tables ++ [table_data])
  else ret all_tables.

Definition table_lines (result_lines : list str) (entry : nat * list loc)
  : M (list str) :=
  let '(idx, table_data) := entry in
  let result_lines :=
    if (0 <? idx)%nat then result_lines ++ [[]] else result_lines in
  match table_data with
  | [] => ret result_lines
  | header_row :: body =>
      result_lines <- header_lines header_row result_lines ;;
      body_lines header_row body result_lines
  end.

Definition process_nested_table_content (table : Table) : M (list str) :=
  all_tables <-
    for_each (rows table) [] (fun all_tables row =>
      for_each (cells row) all_tables (fun all_tables cell =>
        for_each (tables cell) all_tables collect_table)) ;;
  for_each (zip (seq 0 (length all_tables)) all_tables) [] table_lines.

Definition process_table_proper_format (table : Table) : M (list str) :=
  if negb (truthy (rows table)) then ret []
  else if has_nested_tables table then process_nested_table_content table
  else process_regular_table table.

(** The rows at the addresses [locs] hold the cell texts [rows]. *)
Definition holds (st : store) (locs : list loc) (rows : list (list str)) : Prop :=
  Forall2 (fun l row => st !! l = Some row) locs rows.

End DocxStore.

(** ** The presentation converter ([test.py]) *)

Module Pptx.
Import Py.

(** The table of a python-pptx table shape: rows of cells, a cell has a
    [text]. *)
Record Cell := mkCell { text : str }.
Record Row := mkRow { cells : list Cell }.
Record Table := mkTable { rows : list Row }.

(** The dictionary [table_data] that [_process_table] builds and dumps. *)
Record TableData := mkTableData {
  td_doc_id : str;
  td_slide_num : N;
  td_rows : list (list str)
}.

(** What is on disk: the JSON documents of tables, held as the value that
    was dumped, and the files the other methods write. *)
Inductive File :=
| JsonFile (data : TableData)
| OtherFile (blob : str).

(** The index of a shape that the methods get as [shape_idx]: the number
    that [enumerate(slide.shapes)] gives for a shape of the slide, and for a
    shape inside a group the text that [_process_group] makes of the index
    of the group and the number of the shape in it. *)
Inductive ShapeIdx :=
| IntIdx (i : N)
| StrIdx (s : str).

(** [f"{shape_idx}"]. *)
Definition str_of_idx (shape_idx : ShapeIdx) : str :=
  match shape_idx with
  | IntIdx i => str_of_int i
  | StrIdx s => s
  end.

(** [f"{shape_idx}_g{i}"], the index that [_process_group] passes on for
    the shape number [i] of the group. *)
Definition group_idx (shape_idx : ShapeIdx) (i : N) : ShapeIdx :=
  StrIdx (str_of_idx shape_idx ++ lit "_g" ++ str_of_int i).

(** The entries of [self.chart_metadata]: the one [_process_table] appends,
    and those of the chart and image methods. *)
Inductive Metadata :=
| TableEntry (doc_id : str) (slide_num : N) (table_id : ShapeIdx)
    (filename path : str)
| MediaEntry (type filename path : str).

(** The fields of the converter object. *)
Record Converter := mkConverter {
  output_dir : str;
  data_dir : str;
  doc_id : str;
  chart_counter : N;
  image_counter : N;
  chart_metadata : list Metadata
}.

(** The state a call can touch: the converter object and the file system. *)
Record World := mkWorld {
  self : Converter;
  files : gmap (list N) File
}.

(** The dictionary a shape method returns. *)
Record ShapeContent := mkShapeContent {
  type : str;
  content : list str
}.

Definition SLASH : char := 0x2F%N.

(** [os.path.join(a, b)] on POSIX. *)
Definition path_join (a b : str) : str :=
  if startswith [SLASH] b then b
  else if negb (truthy a) || bool_decide (last a = Some SLASH) then a ++ b
  else a ++ [SLASH] ++ b.

(** [with open(path, 'w') as f: json.dump(data, f, ...)]; the directories
    exist since [__init__] made them, and the write goes through. *)
Definition dump_json (path : str) (data : TableData) (w : World) : World :=
  mkWorld (self w) (<[path := JsonFile data]> (files w)).

(** [self.chart_metadata.append(entry)]. *)
Definition append_metadata (entry : Metadata) (w : World) : World :=
  let c := self w in
  mkWorld
    (mkConverter (output_dir c) (data_dir c) (doc_id c) (chart_counter c)
       (image_counter c) (chart_metadata c ++ [entry]))
    (files w).

(** [cell.text.strip().replace('\n', ' ').replace('|', '\|')]. *)
Definition cell_text (cell : Cell) : str :=
  replace PIPE [BACKSLASH; PIPE] (replace NL [SP] (strip (text cell))).

Definition table_rows (table : Table) : list (list str) :=
  fold_left
    (fun rows_acc row =>
       rows_acc
         ++ [fold_left (fun row_data cell => row_data ++ [cell_text cell])
               (cells row) []])
    (rows table) [].

(** ["| " + " | ".join(row) + " |"]. *)
Definition table_line (row : list str) : str :=
  lit "| " ++ join (lit " | ") row ++ lit " |".

(** ["|" + "---|" * n]. *)
Definition separator_line (n : nat) : str :=
  lit "|" ++ concat (replicate n (lit "---|")).

Section WithOsPath.

(** [os.path.relpath] is taken as it comes: its value depends on the
    working directory of the process. *)
Variable relpath : str -> str -> str.

(** [_process_table], in a run where nothing raises: it gives [None]
    (no content) for a table without rows; otherwise it writes the data
    file, records it in [chart_metadata] and gives the Markdown lines. *)
Definition _process_table (w : World) (table : Table) (slide_num : N)
    (shape_idx : ShapeIdx) : option ShapeContent * World :=
  let table_filename :=
    lit "table_" ++ doc_id (self w) ++ lit "_" ++ str_of_int slide_num
      ++ lit "_" ++ str_of_idx shape_idx in
  let table_data := mkTableData (doc_id (self w)) slide_num (table_rows table) in
  match td_rows table_data with
  | [] => (None, w)
  | first_row :: later_rows =>
      let data_file := path_join (data_dir (self w)) (table_filename ++ lit ".json") in
      let w := dump_json data_file table_data w in
      let w :=
        append_metadata
          (TableEntry (doc_id (self w)) slide_num shape_idx table_filename data_file)
          w in
      let markdown_table := [] in
      let markdown_table := markdown_table ++ [table_line first_row] in
      let markdown_table := markdown_table ++ [separator_line (length first_row)] in
      let markdown_table :=
        fold_left (fun md row => md ++ [table_line row]) later_rows markdown_table in
      let markdown_table := markdown_table ++ [[]] in
      let rel_data_path := relpath data_file (output_dir (self w)) in
      let markdown_table :=
        markdown_table
          ++ [lit "📋 [View Table Data](" ++ rel_data_path ++ lit ")" ++ [NL]] in
      (Some (mkShapeContent (lit "table") markdown_table), w)
  end.

End WithOsPath.

(** *** Views used to state the properties *)

(** The name of the data file of a table, and the entry recorded for it. *)
Definition table_filename (w : World) (slide_num : N) (shape_idx : ShapeIdx) : str :=
  lit "table_" ++ doc_id (self w) ++ lit "_" ++ str_of_int slide_num
    ++ lit "_" ++ str_of_idx shape_idx.

Definition data_file (w : World) (slide_num : N) (shape_idx : ShapeIdx) : str :=
  path_join (data_dir (self w)) (table_filename w slide_num shape_idx ++ lit ".json").

Definition table_entry (w : World) (slide_num : N) (shape_idx : ShapeIdx) : Metadata :=
  TableEntry (doc_id (self w)) slide_num shape_idx
    (table_filename w slide_num shape_idx) (data_file w slide_num shape_idx).

(** The index of the shape at a place of a slide: the shape number [i] of
    the slide, or, through the groups of [path], the shape whose number in
    each group on the way is given. *)
Definition place_idx (i : N) (path : list N) : ShapeIdx :=
  fold_left group_idx path (IntIdx i).

(** What the groups of [path] add to the written index. *)
Definition group_part (path : list N) : str :=
  concat (map (fun i => lit "_g" ++ str_of_int i) path).

(** A text at which a number ends: it is empty or starts with a character
    that is no ASCII digit. *)
Definition stops (r : str) : Prop :=
  match r with
  | [] => True
  | c :: _ => ~ (0x30 <= c <= 0x39)%N
  end.

(** The line that links to the data file. *)
Definition link_line (rel_data_path : str) : str :=
  lit "📋 [View Table Data](" ++ rel_data_path ++ lit ")" ++ [NL].

(** A converter that has written nothing yet, and a value of
    [os.path.relpath] for the data files of its tables, for the examples. *)
Definition fresh_world : World :=
  mkWorld (mkConverter (lit "out") (lit "out/data") (lit "0b5e") 0 0 []) ∅.

Definition sample_relpath (path start : str) : str := lit "data/table.json".

(** A table from the texts of its cells. *)
Definition of_texts (rs : list (list str)) : Table :=
  mkTable (map (fun r => mkRow (map mkCell r)) rs).

End Pptx.

(** ** Reading a Markdown table line *)

Module Markdown.
Import Py.
Local Open Scope N_scope.

(** The pipes of a line that delimit cells, for two readings of a
    backslash.  In the first one a pipe is escaped by a backslash just
    before it, whatever comes before this backslash: [prev] tells whether
    the character before was a backslash. *)
Fixpoint bare_pipes (prev : bool) (line : str) : nat :=
  match line with
  | [] => 0%nat
  | c :: t =>
      let here := if (c =? PIPE) && negb prev then 1%nat else 0%nat in
      Nat.add here (bare_pipes (c =? BACKSLASH) t)
  end.

(** The number of pipe-delimited fields of a table line [| a | b |]. *)
Definition fields (line : str) : nat := (bare_pipes false line - 1)%nat.

(** In the second reading a backslash escapes the character after it and
    is itself escaped by a backslash before it, so that the pipe after two
    backslashes delimits: [escaped] tells whether the character at hand is
    escaped. *)
Fixpoint paired_pipes (escaped : bool) (line : str) : nat :=
  match line with
  | [] => 0%nat
  | c :: t =>
      if escaped then paired_pipes false t
      else if c =? BACKSLASH then paired_pipes true t
      else Nat.add (if c =? PIPE then 1%nat else 0%nat) (paired_pipes false t)
  end.

Definition paired_fields (line : str) : nat := (paired_pipes false line - 1)%nat.

(** A cell text that adds no delimiter to the line it is written in, in
    the first and in the second reading. *)
Definition sealed (cell : str) : Prop :=
  forall prev rest, bare_pipes prev (cell ++ SP :: rest) = bare_pipes false rest.

Definition paired_sealed (cell : str) : Prop :=
  forall rest, paired_pipes false (cell ++ SP :: rest) = paired_pipes false rest.

End Markdown.

(** ** More of Python's strings and paths *)

(** What the rest of the two files uses of [str], [int] and [os.path].  The
    limits of the interpreter (memory, and the refusal since CPython 3.11 to
    convert numbers of more than 4300 digits) are left out throughout. *)

Module PyMore.
Import Py.
Local Open Scope N_scope.

Definition DOT : char := 0x2E.
Definition SLASH : char := 0x2F.
Definition HASH : char := 0x23.
Definition UNDERSCORE : char := 0x5F.

(** [s.endswith(suffix)]. *)
Definition endswith (suffix s : str) : bool :=
  startswith (reverse suffix) (reverse s).

(** [s.split()]: the words between runs of white space.  [word] is the word
    being read. *)
Fixpoint split_from (word : str) (s : str) : list str :=
  match s with
  | [] => if truthy word then [word] else []
  | c :: t =>
      if isspace c then
        if truthy word then word :: split_from [] t else split_from [] t
      else split_from (word ++ [c]) t
  end.

Definition split (s : str) : list str := split_from [] s.

(** The characters [str.isdigit] accepts besides the decimal digits: the
    code points of numeric type Digit (superscripts, circled digits and the
    like), as ranges. *)
Definition digit_only_ranges : list (char * char) :=
  [ (0x00B2, 0x00B3); (0x00B9, 0x00B9); (0x1369, 0x1371); (0x19DA, 0x19DA);
    (0x2070, 0x2070); (0x2074, 0x2079); (0x2080, 0x2089); (0x2460, 0x2468);
    (0x2474, 0x247C); (0x2488, 0x2490); (0x24EA, 0x24EA); (0x24F5, 0x24FD);
    (0x24FF, 0x24FF); (0x2776, 0x277E); (0x2780, 0x2788); (0x278A, 0x2792);
    (0x10A40, 0x10A43); (0x10E60, 0x10E68); (0x11052, 0x1105A);
    (0x1F100, 0x1F10A) ].

Definition isdigit_char (c : char) : bool :=
  isdecimal c
  || existsb (fun r => (fst r <=? c) && (c <=? snd r)) digit_only_ranges.

(** [s.isdigit()]. *)
Definition isdigit (s : str) : bool := truthy s && forallb isdigit_char s.

(** The value of a decimal digit: its place in its block of ten. *)
Definition decimal_value (c : char) : option N :=
  match List.find (fun z => (z <=? c) && (c <? z + 10)) decimal_zeros with
  | Some z => Some (c - z)
  | None => None
  end.

(** [int(s)] for a text [s] without sign, space or underscore, as it is
    after [s.isdigit()]: the number, or [None] for the [ValueError] that a
    character which is no decimal digit raises (and the empty text). *)
Fixpoint int_from (value : N) (s : str) : option N :=
  match s with
  | [] => Some value
  | c :: t =>
      match decimal_value c with
      | Some d => int_from (value * 10 + d) t
      | None => None
      end
  end.

Definition int_of_digits (s : str) : option N :=
  match s with
  | [] => None
  | _ :: _ => int_from 0 s
  end.

(** [s.rfind(c)] for one character: the last index, or [-1]. *)
Fixpoint rfind_from (i : Z) (c : char) (s : str) (found : Z) : Z :=
  match s with
  | [] => found
  | x :: t => rfind_from (i + 1)%Z c t (if x =? c then i else found)
  end.

Definition rfind (c : char) (s : str) : Z := rfind_from 0%Z c s (-1)%Z.

(** [s[i:j]] for indices that are not negative. *)
Definition slice (s : str) (i j : Z) : str :=
  take (Z.to_nat j - Z.to_nat i) (drop (Z.to_nat i) s).

(** [os.path.splitext(p)] on POSIX: the extension starts at the last dot of
    the last component, unless only dots come before it in the component. *)
Definition splitext (p : str) : str * str :=
  let sepIndex := rfind SLASH p in
  let dotIndex := rfind DOT p in
  if (sepIndex <? dotIndex)%Z then
    if existsb (fun c => negb (c =? DOT)) (slice p (sepIndex + 1) dotIndex)
    then (take (Z.to_nat dotIndex) p, drop (Z.to_nat dotIndex) p)
    else (p, [])
  else (p, []).

(** [os.path.basename(p)] on POSIX. *)
Definition basename (p : str) : str :=
  drop (Z.to_nat (rfind SLASH p + 1)) p.

(** [s.lstrip('.')]. *)
Fixpoint lstrip_dots (s : str) : str :=
  match s with
  | [] => []
  | c :: t => if c =? DOT then lstrip_dots t else s
  end.

(** A text whose only white space is the space: it has no line break, tab
    or other separator in it. *)
Definition quiet (s : str) : Prop :=
  Forall (fun c => isspace c = true -> c = SP) s.

(** A character is not in a given text. *)
Ltac absent := rewrite list_elem_of_In; vm_compute; intuition discriminate.

End PyMore.

(** ** The pages of the word-document converter ([new.py]) *)

(** [word_to_markdown_pages] and the loop over the input folder.  The
    document is what python-docx gives for a file: the elements of the body,
    and the paragraph and table objects that wrap them. *)

Module Pages.
Import Py PyMore.

(** The [tag] of a node of the tree: a text for an element; for a comment
    or a processing instruction it is no text but a function, of which
    [type(tag).__name__] is kept. *)
Inductive Tag :=
| Name (tag : str)
| Other (type_name : str).

(** A node that [element.iter()] yields: its tag and attributes. *)
Record Node := mkNode {
  n_tag : Tag;
  n_attrib : gmap (list N) (list N)
}.

(** A child of the body.  [e_id] stands for the identity of the node,
    which [p._element == element] compares. *)
Record Element := mkElement {
  e_id : nat;
  e_tag : Tag;
  e_iter : list Node
}.

(** [para.style]: [style.name] is [None] for a style without a name. *)
Record Style := mkStyle {
  s_name : option str
}.

(** A paragraph: [para.style] is [None] when the paragraph names no style
    and the document has no default paragraph style. *)
Record Paragraph := mkParagraph {
  p_element : nat;
  p_text : str;
  p_style : option Style
}.

Record DocTable := mkDocTable {
  t_element : nat;
  t_table : Docx.Table
}.

Record Document := mkDocument {
  body : list Element;
  paragraphs : list Paragraph;
  tables : list DocTable
}.

(** What a call can raise: [ValueError] from [int(level)], with the text
    that is no number; [IndexError] from [split()[-1]]; [AttributeError]
    from a method of an object that has none of this name, and
    [RuntimeError], with their messages. *)
Inductive Exn :=
| ValueError (literal : str)
| IndexError
| AttributeError (msg : str)
| RuntimeError (msg : str).

(** The message of the [AttributeError] for the attribute [attr] of an
    object of the type [type_name]. *)
Definition no_attribute (type_name attr : str) : str :=
  lit "'" ++ type_name ++ lit "' object has no attribute '" ++ attr ++ lit "'".

(** [str(e)].  The text in the message of [int] is [repr(literal)]: the
    text between single quotes, for the printable characters without quote
    or backslash that [isdigit] accepts. *)
Definition message (e : Exn) : str :=
  match e with
  | ValueError literal =>
      lit "invalid literal for int() with base 10: '" ++ literal ++ lit "'"
  | IndexError => lit "list index out of range"
  | AttributeError msg => msg
  | RuntimeError msg => msg
  end.

(** The files on disk, as texts, and what has been printed. *)
Record World := mkWorld {
  files : gmap (list N) (list N);
  stdout : list str
}.

Definition INPUT_FOLDER : str := lit "word inmaa data".
Definition OUTPUT_FOLDER : str := lit "markdown_split_pages".

(** [qn('w:...')], the tag with the namespace of word-processing
    documents. *)
Definition qn_w (name : str) : str :=
  lit "{http://schemas.openxmlformats.org/wordprocessingml/2006/main}" ++ name.

(** [f"\n---\n**Page {page_number}**\n---\n"]. *)
Definition page_header (page_number : N) : str :=
  [NL] ++ lit "---" ++ [NL] ++ lit "**Page " ++ str_of_int page_number
    ++ lit "**" ++ [NL] ++ lit "---" ++ [NL].

(** The test for a page break in the element. *)
Definition has_page_break (element : Element) : bool :=
  existsb
    (fun child =>
       match n_tag child with
       | Name tag => bool_decide (tag = qn_w (lit "br"))
       | Other _ => false
       end
       && bool_decide (n_attrib child !! qn_w (lit "type") = Some (lit "page")))
    (e_iter element).

(** [next((p for p in doc.paragraphs if p._element == element), None)], and
    the same for the tables. *)
Definition find_paragraph (doc : Document) (element : Element) : option Paragraph :=
  List.find (fun p => Nat.eqb (p_element p) (e_id element)) (paragraphs doc).

Definition find_table (doc : Document) (element : Element) : option DocTable :=
  List.find (fun t => Nat.eqb (t_element t) (e_id element)) (tables doc).

(** The lines that the branch for a paragraph adds to the page.
    [para.style.name.startswith] raises when the style or its name is
    [None]. *)
Definition paragraph_lines (para : Paragraph) : Exn + list str :=
  if truthy (strip (p_text para)) then
    let text := strip (p_text para) in
    match p_style para with
    | None => inl (AttributeError (no_attribute (lit "NoneType") (lit "name")))
    | Some style =>
        match s_name style with
        | None =>
            inl (AttributeError (no_attribute (lit "NoneType") (lit "startswith")))
        | Some name =>
            if startswith (lit "Heading") name then
              match last (split name) with
              | None => inl IndexError
              | Some level =>
                  if isdigit level then
                    match int_of_digits level with
                    | None => inl (ValueError level)
                    | Some n =>
                        inr [replicate (N.to_nat n) HASH ++ [SP] ++ text; []]
                    end
                  else inr [lit "# " ++ text; []]
              end
            else inr [text; []]
        end
    end
  else inr [].

(** The lines that the two branches on the tag add to the page.
    [element.tag.endswith] raises for a tag that is no text. *)
Definition element_lines (doc : Document) (element : Element) : Exn + list str :=
  match e_tag element with
  | Other type_name =>
      inl (AttributeError (no_attribute type_name (lit "endswith")))
  | Name tag =>
      if endswith (lit "p") tag then
        match find_paragraph doc element with
        | Some para => paragraph_lines para
        | None => inr []
        end
      else if endswith (lit "tbl") tag then
        match find_table doc element with
        | Some table =>
            let markdown_table := Docx.process_table_proper_format (t_table table) in
            if truthy markdown_table then inr (markdown_table ++ [[]]) else inr []
        | None => inr []
        end
      else inr []
  end.

(** The state of the loop over the body. *)
Record Loop := mkLoop {
  markdown_pages : list (N * list str);
  current_lines : list str;
  page_number : N
}.

(** One turn of the loop over [doc.element.body]. *)
Definition body_step (doc : Document) (st : Loop) (element : Element) : Exn + Loop :=
  let st :=
    if has_page_break element then
      mkLoop (markdown_pages st ++ [(page_number st, current_lines st)])
        (* current_lines is the list that was just stored; a new list is
           bound to the name *)
        [page_header (page_number st + 1)]
        (page_number st + 1)
    else st in
  match element_lines doc element with
  | inl e => inl e
  | inr lines =>
      inr (mkLoop (markdown_pages st) (current_lines st ++ lines) (page_number st))
  end.

Fixpoint body_loop (doc : Document) (st : Loop) (elements : list Element)
  : Exn + Loop :=
  match elements with
  | [] => inr st
  | element :: rest =>
      match body_step doc st element with
      | inl e => inl e
      | inr st' => body_loop doc st' rest
      end
  end.

(** The pages of a document: the part of [word_to_markdown_pages] before
    the files are written. *)
Definition pages_of (doc : Document) : Exn + list (N * list str) :=
  let st := mkLoop [] [page_header 1] 1 in
  match body_loop doc st (body doc) with
  | inl e => inl e
  | inr st =>
      if truthy (current_lines st)
      then inr (markdown_pages st ++ [(page_number st, current_lines st)])
      else inr (markdown_pages st)
  end.

(** [os.path.join(OUTPUT_FOLDER, f"{base_filename}_page_{page_num}.md")]. *)
Definition output_path (base_filename : str) (page_num : N) : str :=
  Pptx.path_join OUTPUT_FOLDER
    (base_filename ++ lit "_page_" ++ str_of_int page_num ++ lit ".md").

(** One turn of the loop that writes the pages; the output folder exists
    since the module made it, and the write goes through. *)
Definition save_page (base_filename : str) (w : World) (page : N * list str) : World :=
  let output_path := output_path base_filename (fst page) in
  mkWorld (<[output_path := join [NL] (snd page)]> (files w))
    (stdout w ++ [lit "✅ Saved: " ++ output_path]).

(** [word_to_markdown_pages(word_file, base_filename)]; [doc] is what
    [Document(word_file)] gives: the document, or [str(e)] of the exception
    it raises. *)
Definition word_to_markdown_pages (word_file : str) (doc : str + Document)
    (base_filename : str) (w : World) : (Exn + unit) * World :=
  match doc with
  | inl e =>
      (inl (RuntimeError (lit "Cannot read file: " ++ word_file ++ lit " — " ++ e)), w)
  | inr doc =>
      match pages_of doc with
      | inl e => (inl e, w)
      | inr pages => (inr tt, fold_left (save_page base_filename) pages w)
      end
  end.

(** An entry of the input folder: its name, the names in it when it opens
    as a zip archive, and the document that python-docx reads from it. *)
Record DirEntry := mkDirEntry {
  filename : str;
  namelist : option (list str);
  document : str + Document
}.

(** [is_valid_docx(path)]. *)
Definition is_valid_docx (entry : DirEntry) : bool :=
  match namelist entry with
  | Some names => bool_decide (lit "word/document.xml" ∈ names)
  | None => false
  end.

Definition print (line : str) (w : World) : World :=
  mkWorld (files w) (stdout w ++ [line]).

(** One turn of the loop of the script over [os.listdir(INPUT_FOLDER)]. *)
Definition main_step (w : World) (entry : DirEntry) : World :=
  if endswith (lit ".docx") (filename entry) then
    let full_path := Pptx.path_join INPUT_FOLDER (filename entry) in
    if negb (is_valid_docx entry) then
      print (lit "⚠️ Skipping invalid file: " ++ filename entry) w
    else
      let base_name := fst (splitext (filename entry)) in
      let w := print ([NL] ++ lit "🔄 Processing: " ++ filename entry) w in
      match word_to_markdown_pages full_path (document entry) base_name w with
      | (inr _, w) => w
      | (inl e, w) =>
          print (lit "❌ Error in '" ++ filename entry ++ lit "': " ++ message e) w
      end
  else w.

Definition main (listing : list DirEntry) (w : World) : World :=
  fold_left main_step listing w.

(** *** Views used to state the properties *)

(** The pages when the loop over the body has ended in the state [st]. *)
Definition finish (st : Loop) : list (N * list str) :=
  markdown_pages st ++ [(page_number st, current_lines st)].

(** The pages that the loop over the body makes of the lines of the
    elements, each with the mark of a page break before it. *)
Fixpoint paginate (page_number : N) (current : list str)
    (items : list (bool * list str)) : list (N * list str) :=
  match items with
  | [] => [(page_number, current)]
  | (break, lines) :: rest =>
      if break then
        (page_number, current)
          :: paginate (page_number + 1) (page_header (page_number + 1) :: lines) rest
      else paginate page_number (current ++ lines) rest
  end.

(** The files that the turn of the loop of the script for [entry] writes,
    in the order of the writes: paths and contents. *)
Definition page_files (entry : DirEntry) : list (str * str) :=
  if endswith (lit ".docx") (filename entry) && is_valid_docx entry then
    match document entry with
    | inr doc =>
        match pages_of doc with
        | inr pages =>
            map (fun page =>
                   (output_path (fst (splitext (filename entry))) (fst page),
                    join [NL] (snd page)))
              pages
        | inl _ => []
        end
    | inl _ => []
    end
  else [].

(** The entries that the loop of the script converts: those that pass the
    two tests, that python-docx reads and whose body raises nothing. *)
Definition converts (entry : DirEntry) : bool :=
  endswith (lit ".docx") (filename entry) && is_valid_docx entry
  && match document entry with
     | inr doc => match pages_of doc with inr _ => true | inl _ => false end
     | inl _ => false
     end.

(** [open(path, 'w')] and [write(content)] on the files. *)
Definition write_file (fs : gmap (list N) (list N)) (file : str * str)
  : gmap (list N) (list N) :=
  <[fst file := snd file]> fs.

(** A document of three paragraphs, the second one with a page break in
    it; one whose heading has a level that is no number and one whose
    paragraph has a style without a name, for the examples. *)
Definition W_P : Tag := Name (qn_w (lit "p")).
Definition break_node : Node :=
  mkNode (Name (qn_w (lit "br"))) {[ qn_w (lit "type") := lit "page" ]}.

(** The style of the name [name]. *)
Definition styled (name : str) : option Style := Some (mkStyle (Some name)).

Definition sample_document : Document :=
  mkDocument
    [ mkElement 0 W_P [mkNode W_P ∅];
      mkElement 1 W_P [mkNode W_P ∅; break_node];
      mkElement 2 W_P [mkNode W_P ∅] ]
    [ mkParagraph 0 (lit "Report") (styled (lit "Heading 1"));
      mkParagraph 1 (lit " Second page ") (styled (lit "Normal"));
      mkParagraph 2 (lit "More") (styled (lit "Heading 2")) ]
    [].

Definition sample_pages : list (N * list str) :=
  [ (1%N, [page_header 1; lit "# Report"; []]);
    (2%N, [page_header 2; lit "Second page"; []; lit "## More"; []]) ].

Definition superscript_document : Document :=
  mkDocument
    [ mkElement 0 W_P [mkNode W_P ∅] ]
    [ mkParagraph 0 (lit "Report") (styled (lit "Heading ²")) ]
    [].


Definition empty_world : World := mkWorld ∅ [].

Definition sample_entry : DirEntry :=
  mkDirEntry (lit "report.docx") (Some [lit "word/document.xml"]) (inr sample_document).

End Pages.

(** ** The slides of the presentation converter ([test.py]) *)

(** The methods that read the text of a slide and put the lines of a slide
    and of the presentation together, in a run where nothing raises.  The
    objects are what python-pptx gives; an attribute that is missing, that
    is [None] or whose reading raises inside a [try] is [None] here. *)

Module Slides.
Import Py PyMore.
Local Open Scope N_scope.

(** A paragraph of a text frame: [paragraph.text] and [paragraph.level]. *)
Record Paragraph := mkParagraph {
  text : str;
  level : N
}.

(** A text frame: [text_frame.text] and [text_frame.paragraphs]. *)
Record TextFrame := mkTextFrame {
  frame_text : str;
  paragraphs : list Paragraph
}.

(** What the methods below read of a shape: its text frame, and
    [str(shape.placeholder_format.type)] when it is a placeholder. *)
Record Shape := mkShape {
  text_frame : option TextFrame;
  placeholder_type : option str
}.

(** What they read of a slide: the text of [slide.shapes.title], the name
    of the layout, the text of [notes_slide.notes_text_frame], the shapes. *)
Record Slide := mkSlide {
  title_text : option str;
  layout_name : option str;
  notes_slide : option (option str);
  shapes : list Shape
}.

(** The line of a paragraph with text in [_process_text]. *)
Definition text_line (is_title : bool) (paragraph : Paragraph) : str :=
  let level := level paragraph in
  let text := strip (text paragraph) in
  if is_title && (level =? 0) then lit "### " ++ text ++ [NL]
  else if level =? 0 then text ++ [NL]
  else
    let bullet := concat (replicate (N.to_nat level) (lit "  ")) ++ lit "- " in
    bullet ++ text ++ [NL].

(** The flag [is_title] of [_process_text]. *)
Definition is_title (text_shape : Shape) : bool :=
  match placeholder_type text_shape with
  | Some type => contains (lit "title") (lower type)
  | None => false
  end.

(** [_process_text(text_shape, slide_num, shape_idx)]; the slide number
    and the index are not used. *)
Definition _process_text (text_shape : Shape) : option Pptx.ShapeContent :=
  match text_frame text_shape with
  | None => None
  | Some frame =>
      let is_title := is_title text_shape in
      let text_content :=
        fold_left
          (fun text_content paragraph =>
             if truthy (strip (text paragraph))
             then text_content ++ [text_line is_title paragraph]
             else text_content)
          (paragraphs frame) [] in
      let text_content :=
        if truthy text_content then text_content ++ [[]] else text_content in
      Some (Pptx.mkShapeContent (if is_title then lit "title" else lit "text")
              text_content)
  end.

(** The loop of [_extract_slide_title] over the shapes: the first text of
    1 to 99 characters. *)
Fixpoint first_short_text (shapes : list Shape) : option str :=
  match shapes with
  | [] => None
  | shape :: rest =>
      match text_frame shape with
      | Some frame =>
          let text := strip (frame_text frame) in
          if truthy text && (length text <? 100)%nat then Some text
          else first_short_text rest
      | None => first_short_text rest
      end
  end.

(** [_extract_slide_title(slide, slide_num)]. *)
Definition _extract_slide_title (slide : Slide) (slide_num : N) : str :=
  let from_shapes :=
    match first_short_text (shapes slide) with
    | Some text => text
    | None => lit "Slide " ++ str_of_int slide_num
    end in
  match title_text slide with
  | Some title => if truthy (strip title) then strip title else from_shapes
  | None => from_shapes
  end.

(** [_extract_presentation_title()], for the slides of the presentation
    and [self.pptx_file_path]. *)
Definition _extract_presentation_title (slides : list Slide) (pptx_file_path : str)
  : str :=
  let from_path := fst (splitext (basename pptx_file_path)) in
  match slides with
  | first_slide :: _ =>
      let title := _extract_slide_title first_slide 1 in
      if bool_decide (title <> lit "Slide 1") then title else from_path
  | [] => from_path
  end.

(** [_extract_notes(notes_slide)]. *)
Definition _extract_notes (notes_text_frame : option str) : str :=
  match notes_text_frame with
  | Some text => strip text
  | None => []
  end.

Section WithShapes.

(** [_process_shape] is taken as it comes: what it gives for a shape, and
    what it does to the converter and to the files, depends on the charts
    and images that it draws and writes.  It catches what it raises. *)
Variable _process_shape :
  Pptx.World -> Shape -> N -> Pptx.ShapeIdx -> option Pptx.ShapeContent * Pptx.World.

(** The state of the loop of [_process_slide] over the shapes. *)
Record Sorted := mkSorted {
  world : Pptx.World;
  text_content : list Pptx.ShapeContent;
  media_content : list Pptx.ShapeContent
}.

(** One turn of this loop. *)
Definition sort_shape (slide_num : N) (st : Sorted) (entry : nat * Shape) : Sorted :=
  let '(shape_idx, shape) := entry in
  let '(shape_content, w) :=
    _process_shape (world st) shape slide_num (Pptx.IntIdx (N.of_nat shape_idx)) in
  match shape_content with
  | Some shape_content =>
      if bool_decide (Pptx.type shape_content = lit "text")
         || bool_decide (Pptx.type shape_content = lit "title")
      then mkSorted w (text_content st ++ [shape_content]) (media_content st)
      else mkSorted w (text_content st) (media_content st ++ [shape_content])
  | None => mkSorted w (text_content st) (media_content st)
  end.

(** The loops that add the lines of the contents. *)
Definition extend_with (markdown_lines : list str) (contents : list Pptx.ShapeContent)
  : list str :=
  fold_left
    (fun markdown_lines content =>
       if truthy (Pptx.content content)
       then markdown_lines ++ Pptx.content content
       else markdown_lines)
    contents markdown_lines.

(** The first line of a slide. *)
Definition slide_heading (slide_num : N) (slide_title : str) : str :=
  lit "## Slide " ++ str_of_int slide_num ++ lit ": " ++ slide_title
    ++ lit " {#slide-" ++ str_of_int slide_num ++ lit "}" ++ [NL].

(** [_process_slide(slide, slide_num)]. *)
Definition _process_slide (w : Pptx.World) (slide : Slide) (slide_num : N)
  : list str * Pptx.World :=
  let markdown_lines := [] in
  let slide_title := _extract_slide_title slide slide_num in
  let markdown_lines := markdown_lines ++ [slide_heading slide_num slide_title] in
  let slide_layout :=
    match layout_name slide with
    | Some name => name
    | None => lit "Unknown Layout"
    end in
  let markdown_lines :=
    markdown_lines ++ [lit "*Layout: " ++ slide_layout ++ lit "*" ++ [NL]] in
  let markdown_lines :=
    match notes_slide slide with
    | Some notes_text_frame =>
        let notes_text := _extract_notes notes_text_frame in
        if truthy notes_text
        then markdown_lines ++ [lit "**Presenter Notes:** " ++ notes_text ++ [NL]]
        else markdown_lines
    | None => markdown_lines
    end in
  let st :=
    fold_left (sort_shape slide_num)
      (zip (seq 0 (length (shapes slide))) (shapes slide))
      (mkSorted w [] []) in
  let markdown_lines := extend_with markdown_lines (text_content st) in
  let markdown_lines :=
    if truthy (media_content st) then
      let markdown_lines :=
        markdown_lines ++ [[NL] ++ lit "### Charts and Media" ++ [NL]] in
      extend_with markdown_lines (media_content st)
    else markdown_lines in
  (markdown_lines, world st).

(** The line of a slide in the table of contents. *)
Definition contents_line (i : N) (slide_title : str) : str :=
  str_of_int i ++ lit ". [" ++ slide_title ++ lit "](#slide-" ++ str_of_int i
    ++ lit ")" ++ [NL].

(** [_generate_markdown()]; [now] is
    [datetime.now().strftime('%Y-%m-%d %H:%M:%S')]. *)
Definition _generate_markdown (w : Pptx.World) (slides : list Slide)
    (pptx_file_path now : str) : str * Pptx.World :=
  let markdown_lines := [] in
  let presentation_title := _extract_presentation_title slides pptx_file_path in
  let markdown_lines := markdown_lines ++ [lit "# " ++ presentation_title ++ [NL]] in
  let markdown_lines :=
    markdown_lines ++ [lit "*Converted from PowerPoint on " ++ now ++ lit "*" ++ [NL]] in
  let markdown_lines :=
    markdown_lines
      ++ [lit "*Document ID: " ++ Pptx.doc_id (Pptx.self w) ++ lit "*" ++ [NL]] in
  let markdown_lines := markdown_lines ++ [lit "---" ++ [NL]] in
  let markdown_lines := markdown_lines ++ [lit "## Table of Contents" ++ [NL]] in
  let markdown_lines :=
    fold_left
      (fun markdown_lines '(i, slide) =>
         let slide_title := _extract_slide_title slide (N.of_nat i) in
         markdown_lines ++ [contents_line (N.of_nat i) slide_title])
      (zip (seq 1 (length slides)) slides) markdown_lines in
  let markdown_lines := markdown_lines ++ [[NL] ++ lit "---" ++ [NL]] in
  let '(markdown_lines, w) :=
    fold_left
      (fun '(markdown_lines, w) '(slide_num, slide) =>
         let '(slide_markdown, w) := _process_slide w slide (N.of_nat slide_num) in
         let markdown_lines := markdown_lines ++ slide_markdown in
         (markdown_lines ++ [[NL] ++ lit "---" ++ [NL]], w))
      (zip (seq 1 (length slides)) slides) (markdown_lines, w) in
  (join [NL] markdown_lines, w).

(** *** Views used to state the properties *)

(** What [_process_shape] gives for the shapes of a slide, from the shape
    of index [shape_idx] on, and the state after them. *)
Fixpoint shape_contents (w : Pptx.World) (slide_num : N) (shape_idx : nat)
    (shapes : list Shape) : list (option Pptx.ShapeContent) * Pptx.World :=
  match shapes with
  | [] => ([], w)
  | shape :: rest =>
      let '(shape_content, w) :=
        _process_shape w shape slide_num (Pptx.IntIdx (N.of_nat shape_idx)) in
      let '(contents, w) := shape_contents w slide_num (S shape_idx) rest in
      (shape_content :: contents, w)
  end.

(** The contents that [_process_slide] takes for text. *)
Definition is_text (shape_content : Pptx.ShapeContent) : bool :=
  bool_decide (Pptx.type shape_content = lit "text")
  || bool_decide (Pptx.type shape_content = lit "title").

(** The lines of a slide before those of its shapes. *)
Definition slide_intro (slide : Slide) (slide_num : N) : list str :=
  [slide_heading slide_num (_extract_slide_title slide slide_num);
   lit "*Layout: "
     ++ match layout_name slide with
        | Some name => name
        | None => lit "Unknown Layout"
        end
     ++ lit "*" ++ [NL]]
  ++ match notes_slide slide with
     | Some notes_text_frame =>
         if truthy (_extract_notes notes_text_frame)
         then [lit "**Presenter Notes:** " ++ _extract_notes notes_text_frame ++ [NL]]
         else []
     | None => []
     end.

End WithShapes.

(** A first slide without a title: the title place holder holds blanks
    and the other shape has no text frame. *)
Definition untitled_slide : Slide :=
  mkSlide (Some (lit "  ")) None None
    [mkShape (Some (mkTextFrame (lit "  ") [])) (Some (lit "TITLE (1)"));
     mkShape None None].

(** A slide with a title and two text shapes, for the examples. *)
Definition sample_slide : Slide :=
  mkSlide (Some (lit " Results ")) (Some (lit "Title and Content")) None
    [ mkShape (Some (mkTextFrame (lit " Results ")
                       [mkParagraph (lit " Results ") 0]))
        (Some (lit "TITLE (1)"));
      mkShape (Some (mkTextFrame (lit "Sales")
                       [mkParagraph (lit "Sales") 0; mkParagraph (lit "  ") 0;
                        mkParagraph (lit "up") 1]))
        None ].

(** A [_process_shape] for slides whose shapes all go to [_process_text],
    for the examples. *)
Definition text_only (w : Pptx.World) (shape : Shape) (slide_num : N)
    (shape_idx : Pptx.ShapeIdx) : option Pptx.ShapeContent * Pptx.World :=
  (_process_text shape, w).

End Slides.

(** ** The pictures of a presentation ([_process_image]) *)

Module Images.
Import Py PyMore.
Local Open Scope N_scope.

(** [image_shape.image]: the extension, when the object has the attribute
    [ext], and the bytes. *)
Record Image := mkImage {
  ext : option str;
  blob : str
}.

(** The entry that [_process_image] appends to [self.chart_metadata]. *)
Record Entry := mkEntry {
  e_doc_id : str;
  e_slide_num : N;
  e_image_id : N;
  e_filename : str;
  e_type : str;
  e_path : str
}.

(** The fields of the converter that the method reads and writes. *)
Record Converter := mkConverter {
  output_dir : str;
  images_dir : str;
  doc_id : str;
  image_counter : N;
  chart_metadata : list Entry
}.

(** The converter, the files on disk and what has been printed. *)
Record World := mkWorld {
  self : Converter;
  files : gmap (list N) (list N);
  stdout : list str
}.

Section WithOsPath.

(** [os.path.relpath], as for the tables. *)
Variable relpath : str -> str -> str.

(** [_process_image(image_shape, slide_num, shape_idx)]; the index of the
    shape is not used.  [image] is what [image_shape.image] gives: the
    image, or [str(e)] of the exception it raises (for a linked picture,
    say).  The directory exists and the write goes through. *)
Definition _process_image (w : World) (image : str + Image) (slide_num : N)
  : option Pptx.ShapeContent * World :=
  let c := self w in
  let c :=
    mkConverter (output_dir c) (images_dir c) (doc_id c) (image_counter c + 1)
      (chart_metadata c) in
  let w := mkWorld c (files w) (stdout w) in
  let image_filename :=
    lit "image_" ++ doc_id c ++ lit "_" ++ str_of_int slide_num ++ lit "_"
      ++ str_of_int (image_counter c) in
  match image with
  | inl e =>
      (None, mkWorld c (files w) (stdout w ++ [lit "Error processing image: " ++ e]))
  | inr image =>
      let image_ext :=
        lstrip_dots (match ext image with Some ext => ext | None => lit "png" end) in
      let image_path :=
        Pptx.path_join (images_dir c) (image_filename ++ lit "." ++ image_ext) in
      let w := mkWorld c (<[image_path := blob image]> (files w)) (stdout w) in
      let c :=
        mkConverter (output_dir c) (images_dir c) (doc_id c) (image_counter c)
          (chart_metadata c
             ++ [mkEntry (doc_id c) slide_num (image_counter c) image_filename
                   (lit "image") image_path]) in
      let w := mkWorld c (files w) (stdout w) in
      let rel_image_path := relpath image_path (output_dir c) in
      let content := [lit "![Image](" ++ rel_image_path ++ lit ")" ++ [NL]] in
      (Some (Pptx.mkShapeContent (lit "image") content), w)
  end.

(** [_process_image] for the pictures of a list, one after the other, each
    with the number of its slide. *)
Definition process_images (w : World) (pictures : list ((str + Image) * N)) : World :=
  fold_left (fun w picture => (_process_image w (fst picture) (snd picture)).2)
    pictures w.

End WithOsPath.

(** *** Views used to state the properties *)

(** The path of the file of an image: the number [image_id] is the value
    of the counter after the call. *)
Definition image_path (c : Converter) (slide_num image_id : N) (image : Image) : str :=
  Pptx.path_join (images_dir c)
    (lit "image_" ++ doc_id c ++ lit "_" ++ str_of_int slide_num ++ lit "_"
       ++ str_of_int image_id ++ lit "."
       ++ lstrip_dots (match ext image with Some ext => ext | None => lit "png" end)).

(** A converter that has written nothing yet, for the examples. *)
Definition fresh_world : World :=
  mkWorld (mkConverter (lit "out") (lit "out/images") (lit "0b5e") 0 []) ∅ [].

End Images.

(** * Properties *)

(** ** Loops that build a list *)

Section Loops.
Context {A B : Type}.

Lemma fold_append (f : A -> B) (l : list A) (acc : list B) :
  fold_left (fun acc x => acc ++ [f x]) l acc = acc ++ map f l.
Proof.
  revert acc; induction l as [|x l IH]; intros acc; simpl.
  - by rewrite app_nil_r.
  - rewrite IH, <- app_assoc. done.
Qed.

Lemma fold_append_if (f : A -> B) (keep : B -> bool) (l : list A) (acc : list B) :
  fold_left (fun acc x => if keep (f x) then acc ++ [f x] else acc) l acc
  = acc ++ List.filter keep (map f l).
Proof.
  revert acc; induction l as [|x l IH]; intros acc; simpl.
  - by rewrite app_nil_r.
  - rewrite IH. destruct (keep (f x)); [|done].
    rewrite <- app_assoc. done.
Qed.

Lemma fold_extend (f : A -> list B) (l : list A) (acc : list B) :
  fold_left (fun acc x => acc ++ f x) l acc = acc ++ concat (map f l).
Proof.
  revert acc; induction l as [|x l IH]; intros acc; simpl.
  - by rewrite app_nil_r.
  - rewrite IH, <- app_assoc. done.
Qed.

Lemma fold_left_pointwise (f g : B -> A -> B) (l : list A) (acc : B) :
  (forall a x, f a x = g a x) -> fold_left f l acc = fold_left g l acc.
Proof.
  intros E. revert acc; induction l as [|x l IH]; intros acc; simpl; [done|].
  by rewrite E, IH.
Qed.

End Loops.

Lemma existsb_map {A B} (p : B -> bool) (f : A -> B) (l : list A) :
  existsb p (map f l) = existsb (fun x => p (f x)) l.
Proof. induction l as [|x l IH]; simpl; [done|]. by rewrite IH. Qed.

Lemma filter_concat {A} (p : A -> bool) (ls : list (list A)) :
  List.filter p (concat ls) = concat (map (List.filter p) ls).
Proof.
  induction ls as [|l ls IH]; simpl; [done|].
  by rewrite List.filter_app, IH.
Qed.

Lemma map_concat {A B} (f : A -> B) (ls : list (list A)) :
  map f (concat ls) = concat (map (map f) ls).
Proof.
  induction ls as [|l ls IH]; simpl; [done|].
  by rewrite map_app, IH.
Qed.

Lemma concat_concat_map {A B} (f : A -> list B) (ls : list (list A)) :
  concat (map (fun l => concat (map f l)) ls) = concat (map f (concat ls)).
Proof.
  induction ls as [|l ls IH]; simpl; [done|].
  by rewrite map_app, concat_app, IH.
Qed.

(** ** Character classes *)

Module PyFacts.
Import Py.
Local Open Scope N_scope.

Lemma isspace_cases c :
  isspace c = true <->
  (0x09 <= c <= 0x0D) \/ (0x1C <= c <= 0x20) \/ c = 0x85 \/ c = 0xA0
  \/ c = 0x1680 \/ (0x2000 <= c <= 0x200A) \/ c = 0x2028 \/ c = 0x2029
  \/ c = 0x202F \/ c = 0x205F \/ c = 0x3000.
Proof.
  unfold isspace.
  rewrite !orb_true_iff, !andb_true_iff, !N.leb_le, !N.eqb_eq. lia.
Qed.

Lemma isdecimal_block c :
  isdecimal c = true <-> exists z, In z decimal_zeros /\ z <= c < z + 10.
Proof.
  unfold isdecimal. rewrite existsb_exists.
  split; intros (z & Hin & Hz); exists z; split; try done.
  - apply andb_true_iff in Hz as [H1 H2].
    apply N.leb_le in H1. apply N.ltb_lt in H2. lia.
  - apply andb_true_iff. split; [apply N.leb_le | apply N.ltb_lt]; lia.
Qed.

(** No decimal digit is white space. *)
Lemma decimal_not_space c : isdecimal c = true -> isspace c = false.
Proof.
  intros (z & Hin & Hz)%isdecimal_block.
  apply not_true_is_false. rewrite isspace_cases.
  unfold decimal_zeros in Hin. simpl in Hin.
  repeat (destruct Hin as [<- | Hin]; [lia|]). done.
Qed.

Lemma space_not_decimal c : isspace c = true -> isdecimal c = false.
Proof.
  intros Hs. destruct (isdecimal c) eqn:E; [|done].
  apply decimal_not_space in E. congruence.
Qed.

Lemma percent_not_space : isspace PERCENT = false.
Proof. reflexivity. Qed.

Lemma percent_not_decimal : isdecimal PERCENT = false.
Proof. reflexivity. Qed.

(** *** Stripping *)

Lemma lstrip_suffix s : exists w, s = w ++ lstrip s.
Proof.
  induction s as [|c t [w IH]]; simpl; [by exists []|].
  destruct (isspace c); [|by exists []].
  exists (c :: w). simpl. by rewrite <- IH.
Qed.

Lemma lstrip_starts s : starts isspace (lstrip s) = false.
Proof.
  induction s as [|c t IH]; simpl; [done|].
  destruct (isspace c) eqn:E; [done|]. simpl. done.
Qed.

Lemma lstrip_id s : starts isspace s = false -> lstrip s = s.
Proof. destruct s as [|c t]; simpl; [done|]. by intros ->. Qed.

Lemma rstrip_prefix s : exists w, s = rstrip s ++ w.
Proof.
  unfold rstrip. destruct (lstrip_suffix (reverse s)) as [w E].
  exists (reverse w).
  rewrite <- reverse_app, <- E. by rewrite reverse_involutive.
Qed.

Lemma ends_reverse p s : ends p (reverse s) = starts p s.
Proof. unfold ends. rewrite last_reverse. by destruct s. Qed.

Lemma starts_reverse p s : starts p (reverse s) = ends p s.
Proof.
  rewrite <- (reverse_involutive s) at 2. by rewrite ends_reverse.
Qed.

Lemma rstrip_ends s : ends isspace (rstrip s) = false.
Proof. unfold rstrip. rewrite ends_reverse. apply lstrip_starts. Qed.

Lemma rstrip_id s : ends isspace s = false -> rstrip s = s.
Proof.
  intros H. unfold rstrip. rewrite lstrip_id.
  - apply reverse_involutive.
  - by rewrite starts_reverse.
Qed.

Lemma starts_prefix p a b : starts p (a ++ b) = false -> starts p a = false.
Proof. by destruct a. Qed.

Lemma strip_Forall (P : char -> Prop) s : Forall P s -> Forall P (strip s).
Proof.
  intros H. unfold strip.
  destruct (lstrip_suffix s) as [w E]. rewrite E in H.
  apply Forall_app in H as [_ H].
  destruct (rstrip_prefix (lstrip s)) as [w' E']. rewrite E' in H.
  by apply Forall_app in H as [H _].
Qed.

Lemma strip_trimmed s : trimmed (strip s) = true.
Proof.
  unfold trimmed, strip. rewrite rstrip_ends.
  destruct (rstrip_prefix (lstrip s)) as [w E].
  pose proof (lstrip_starts s) as H. rewrite E in H.
  apply starts_prefix in H. by rewrite H.
Qed.

Lemma strip_id s : trimmed s = true -> strip s = s.
Proof.
  unfold trimmed, strip. intros [H1 H2]%andb_true_iff.
  apply negb_true_iff in H1, H2. by rewrite lstrip_id, rstrip_id.
Qed.

(** *** Single spacing *)

Lemma spaced_app_r a b : spaced (a ++ b) = true -> spaced b = true.
Proof.
  induction a as [|c a IH]; simpl; [done|].
  intros [_ H]%andb_true_iff. auto.
Qed.

Lemma spaced_app_l a b : spaced (a ++ b) = true -> spaced a = true.
Proof.
  induction a as [|c a IH]; simpl; [done|].
  intros [Hc H]%andb_true_iff. rewrite IH by done. rewrite andb_true_r.
  destruct (isspace c); [|done]. simpl in *.
  apply andb_true_iff in Hc as [-> Hc]. simpl.
  apply negb_true_iff in Hc. apply starts_prefix in Hc. by rewrite Hc.
Qed.

Lemma spaced_strip s : spaced s = true -> spaced (strip s) = true.
Proof.
  intros H. unfold strip.
  destruct (lstrip_suffix s) as [w E]. rewrite E in H.
  apply spaced_app_r in H.
  destruct (rstrip_prefix (lstrip s)) as [w' E']. rewrite E' in H.
  by apply spaced_app_l in H.
Qed.

(** Before characters that are not white space, single spacing is that of
    the rest. *)
Lemma spaced_solid a b :
  forallb (fun c => negb (isspace c)) a = true ->
  spaced b = true -> spaced (a ++ b) = true.
Proof.
  induction a as [|c a IH]; simpl; [done|].
  intros [Hc Ha]%andb_true_iff Hb. rewrite Hc. simpl. auto.
Qed.

(** In a single-spaced text the only white space is the space. *)
Lemma spaced_only_space s c :
  spaced s = true -> In c s -> isspace c = true -> c = SP.
Proof.
  induction s as [|x s IH]; simpl; [done|].
  intros [Hx Hs]%andb_true_iff [->|Hin] Hc; [|auto].
  rewrite Hc in Hx. simpl in Hx.
  apply andb_true_iff in Hx as [Hx _]. by apply N.eqb_eq in Hx.
Qed.

(** *** Replacing a character *)

Lemma replace_absent old new s : ~ In old s -> replace old new s = s.
Proof.
  unfold replace. induction s as [|c s IH]; simpl; [done|].
  intros H. destruct (N.eqb_spec c old) as [->|_].
  - exfalso. apply H. by left.
  - simpl. rewrite IH; [done|]. intros ?. apply H. by right.
Qed.

Lemma replace_Forall (P : char -> Prop) old new s :
  Forall P new -> Forall (fun c => c <> old -> P c) s ->
  Forall P (replace old new s).
Proof.
  intros Hnew. unfold replace. induction 1 as [|c s Hc Hs IH]; simpl; [done|].
  apply Forall_app. split; [|done].
  destruct (N.eqb_spec c old); [done|]. constructor; auto.
Qed.

(** *** Substrings *)

Lemma startswith_true p s : startswith p s = true <-> exists r, s = p ++ r.
Proof.
  revert s; induction p as [|a p IH]; intros s; simpl.
  - split; [by exists s|done].
  - destruct s as [|b s]; [split; [done|by intros [? ?]]|].
    rewrite andb_true_iff, N.eqb_eq, IH. split.
    + intros [-> [r ->]]. by exists r.
    + intros [r E]. injection E as -> ->. eauto.
Qed.

Lemma contains_true p s : contains p s = true <-> exists a r, s = a ++ p ++ r.
Proof.
  induction s as [|c s IH]; simpl.
  - rewrite orb_false_r, startswith_true. split.
    + intros [r E]. by exists [], r.
    + intros (a & r & E). destruct a; [by exists r|done].
  - rewrite orb_true_iff, startswith_true, IH. split.
    + intros [[r E]|(a & r & ->)]; [by exists [], r|by exists (c :: a), r].
    + intros ([|x a] & r & E); [left; by exists r|].
      right. injection E as -> ->. eauto.
Qed.

Lemma lower_app a b : lower (a ++ b) = lower a ++ lower b.
Proof. apply flat_map_app. Qed.

(** A letter of [total] in the lowered text comes from one plain
    character. *)
Lemma lower_letter x p s :
  x = 0x74 \/ x = 0x6F \/ x = 0x61 \/ x = 0x6C ->
  startswith (x :: p) (lower s) = true ->
  exists c t,
    s = c :: t /\ lower_char c = [x] /\ plain c = true
    /\ startswith p (lower t) = true.
Proof.
  intros Hx H. destruct s as [|c t]; [done|]. exists c, t.
  split; [done|]. revert H. unfold lower. cbn [flat_map]. unfold lower_char.
  destruct ((0x41 <=? c) && (c <=? 0x5A)) eqn:Eup.
  - cbn [app startswith]. intros [E H]%andb_true_iff. apply N.eqb_eq in E.
    assert (c = x - 0x20) as -> by lia.
    destruct Hx as [-> | [-> | [-> | ->]]]; done.
  - destruct (N.eqb_spec c 0x212A) as [-> | _].
    { cbn [app startswith]. intros [E _]%andb_true_iff. apply N.eqb_eq in E. lia. }
    destruct (N.eqb_spec c 0x0130) as [-> | _].
    { cbn [app startswith]. intros [E _]%andb_true_iff. apply N.eqb_eq in E. lia. }
    cbn [app startswith]. intros [E H]%andb_true_iff. apply N.eqb_eq in E.
    subst c. destruct Hx as [-> | [-> | [-> | ->]]]; done.
Qed.

Lemma lower_total_start s :
  startswith (lit "total") (lower s) = true ->
  exists w b,
    s = w ++ b /\ lower w = lit "total" /\ forallb plain w = true /\ w <> [].
Proof.
  change (lit "total") with [0x74; 0x6F; 0x74; 0x61; 0x6C].
  intros H.
  apply lower_letter in H as (c1 & t1 & -> & E1 & P1 & H); [|lia].
  apply lower_letter in H as (c2 & t2 & -> & E2 & P2 & H); [|lia].
  apply lower_letter in H as (c3 & t3 & -> & E3 & P3 & H); [|lia].
  apply lower_letter in H as (c4 & t4 & -> & E4 & P4 & H); [|lia].
  apply lower_letter in H as (c5 & t5 & -> & E5 & P5 & H); [|lia].
  exists [c1; c2; c3; c4; c5], t5. split; [done|]. split; [|split; [|done]].
  - unfold lower. cbn [flat_map]. by rewrite E1, E2, E3, E4, E5.
  - cbn [forallb]. by rewrite P1, P2, P3, P4, P5.
Qed.

Lemma contains_lower_cons c r :
  contains (lit "total") (lower_char c ++ r) = true ->
  startswith (lit "total") (lower_char c ++ r) = true
  \/ contains (lit "total") r = true.
Proof.
  unfold lower_char.
  destruct ((0x41 <=? c) && (c <=? 0x5A)); [by intros ?%orb_true_iff|].
  destruct (c =? 0x212A); [by intros ?%orb_true_iff|].
  destruct (c =? 0x0130); [|by intros ?%orb_true_iff].
  cbn [app contains]. intros [H|[H|H]%orb_true_iff]%orb_true_iff; [done|done|by right].
Qed.

Lemma lower_total s :
  contains (lit "total") (lower s) = true ->
  exists w,
    mentions w s /\ lower w = lit "total" /\ forallb plain w = true /\ w <> [].
Proof.
  induction s as [|c t IH]; [done|].
  unfold lower. cbn [flat_map]. fold (lower t).
  intros [H|H]%contains_lower_cons.
  - change (lower_char c ++ lower t) with (lower (c :: t)) in H.
    apply lower_total_start in H as (w & b & E & Hw).
    exists w. split; [by exists [], b|done].
  - destruct (IH H) as (w & (a & b & ->) & Hw).
    exists w. split; [by exists (c :: a), b|done].
Qed.

Lemma mentions_lower w s :
  mentions w s -> lower w = lit "total" ->
  contains (lit "total") (lower s) = true.
Proof.
  intros (a & b & ->) E. apply contains_true.
  exists (lower a), (lower b). by rewrite !lower_app, E.
Qed.

(** *** Plain characters through the steps *)

Lemma plain_not_space c : plain c = true -> isspace c = false.
Proof. unfold plain. by destruct (isspace c). Qed.

Lemma plain_not_decimal c : plain c = true -> isdecimal c = false.
Proof. unfold plain. destruct (isdecimal c); [|done]. by rewrite andb_false_r. Qed.

Lemma plain_not_percent c : plain c = true -> c <> PERCENT.
Proof. by intros H ->. Qed.

Lemma plain_not_pipe c : plain c = true -> c <> PIPE.
Proof. by intros H ->. Qed.

Lemma replace_app old new a b :
  replace old new (a ++ b) = replace old new a ++ replace old new b.
Proof. apply flat_map_app. Qed.

Lemma replace_plain old new w :
  plain old = false -> forallb plain w = true -> replace old new w = w.
Proof.
  intros Hold Hw. apply replace_absent. intros Hin.
  rewrite forallb_forall in Hw. apply Hw in Hin. congruence.
Qed.

Lemma mentions_replace old new w s :
  plain old = false -> forallb plain w = true ->
  mentions w s -> mentions w (replace old new s).
Proof.
  intros Hold Hw (a & b & ->). rewrite !replace_app, (replace_plain _ _ w) by done.
  by eexists _, _.
Qed.

Lemma mentions_lstrip w s :
  forallb plain w = true -> w <> [] -> mentions w s -> mentions w (lstrip s).
Proof.
  intros Hw Hne (a & b & ->). induction a as [|c a IH].
  - exists [], b. destruct w as [|x w]; [done|]. simpl in *.
    apply andb_true_iff in Hw as [Hx _]. by rewrite (plain_not_space x).
  - simpl. destruct (isspace c); [done|]. by exists (c :: a), b.
Qed.

Lemma forallb_reverse {A} (p : A -> bool) l :
  forallb p (reverse l) = forallb p l.
Proof.
  induction l as [|x l IH]; [done|].
  rewrite reverse_cons, forallb_app, IH. simpl. by rewrite andb_true_r, andb_comm.
Qed.

Lemma mentions_reverse w s : mentions w s -> mentions (reverse w) (reverse s).
Proof.
  intros (a & b & ->). exists (reverse b), (reverse a).
  by rewrite !reverse_app, <- app_assoc.
Qed.

Lemma mentions_strip w s :
  forallb plain w = true -> w <> [] -> mentions w s -> mentions w (strip s).
Proof.
  intros Hw Hne H. unfold strip, rstrip.
  rewrite <- (reverse_involutive w).
  apply mentions_reverse, mentions_lstrip.
  - by rewrite forallb_reverse.
  - intros E. apply Hne. by rewrite <- (reverse_involutive w), E.
  - by apply mentions_reverse, mentions_lstrip.
Qed.

(** Characters that are not plain, before a plain one: they end before it. *)
Lemma plain_boundary a w b u rest :
  a ++ w ++ b = u ++ rest -> forallb (fun c => negb (plain c)) u = true ->
  forallb plain w = true -> w <> [] ->
  exists a2, rest = a2 ++ w ++ b.
Proof.
  revert a; induction u as [|x u IH]; intros a E Hu Hw Hne.
  - by exists a.
  - simpl in Hu. apply andb_true_iff in Hu as [Hx Hu].
    destruct a as [|c a].
    + destruct w as [|y w]; [done|]. simpl in *. injection E as -> _.
      apply andb_true_iff in Hw as [Hy _]. by rewrite Hy in Hx.
    + injection E as -> E. by apply (IH a).
Qed.

End PyFacts.

(** ** Substitution *)

Module ReFacts.
Import Py Re PyFacts.
Local Open Scope N_scope.
Local Arguments N.eqb : simpl never.
Local Arguments N.leb : simpl never.
Local Arguments N.ltb : simpl never.

(** *** Spans *)

Lemma span_spec p s :
  s = (span p s).1 ++ (span p s).2
  /\ forallb p (span p s).1 = true
  /\ starts p (span p s).2 = false.
Proof.
  induction s as [|c t IH]; simpl; [done|].
  destruct (p c) eqn:E; simpl.
  - destruct (span p t) as [a b]; simpl in *.
    destruct IH as (-> & Ha & Hb). rewrite E. done.
  - rewrite E. done.
Qed.

Lemma span_stop p a b :
  forallb p a = true -> starts p b = false -> span p (a ++ b) = (a, b).
Proof.
  intros Ha Hb. induction a as [|c a IH]; simpl in *.
  - destruct b as [|c b]; simpl in *; [done|]. by rewrite Hb.
  - apply andb_true_iff in Ha as [Hc Ha]. rewrite Hc, IH; done.
Qed.

Lemma span_false p s : starts p s = false -> span p s = ([], s).
Proof. intros H. apply (span_stop p [] s); done. Qed.

Lemma span_length p s : (length (span p s).2 <= length s)%nat.
Proof.
  destruct (span_spec p s) as (E & _). rewrite E at 2.
  rewrite length_app. lia.
Qed.

(** *** The scan *)

Section Scan.
Variable m : matcher.
Hypothesis Hm : shrinking m.

Lemma sub_fuel_enough fuel s :
  (length s <= fuel)%nat -> sub_fuel m fuel s = sub_fuel m (length s) s.
Proof.
  revert s. induction fuel as [fuel IH] using lt_wf_ind. intros s Hf.
  destruct fuel as [|f].
  - destruct s; simpl in *; [done|lia].
  - destruct s as [|c t]; [done|]. simpl in *.
    destruct (m (c :: t)) as [[repl rest]|] eqn:E.
    + apply Hm in E. simpl in E.
      rewrite (IH f) by lia. rewrite (IH (length t) ltac:(lia) rest) by lia.
      done.
    + rewrite (IH f) by lia. done.
Qed.

Lemma sub_nil : sub m [] = [].
Proof. done. Qed.

Lemma sub_cons c t :
  sub m (c :: t) =
  match m (c :: t) with
  | Some (repl, rest) => repl ++ sub m rest
  | None => c :: sub m t
  end.
Proof.
  unfold sub. simpl.
  destruct (m (c :: t)) as [[repl rest]|] eqn:E; [|done].
  apply Hm in E. simpl in E. rewrite sub_fuel_enough by lia. done.
Qed.

(** Induction along the scan. *)
Lemma sub_ind (P : str -> Prop) :
  P [] ->
  (forall c t, m (c :: t) = None -> P t -> P (c :: t)) ->
  (forall c t repl rest, m (c :: t) = Some (repl, rest) -> P rest -> P (c :: t)) ->
  forall s, P s.
Proof.
  intros Hnil Hnone Hsome s.
  remember (length s) as n eqn:En. revert s En.
  induction n as [n IH] using lt_wf_ind. intros s En.
  destruct s as [|c t]; [done|].
  destruct (m (c :: t)) as [[repl rest]|] eqn:E.
  - eapply Hsome; [done|]. apply Hm in E. simpl in *.
    eapply (IH (length rest)); [lia|done].
  - apply Hnone; [done|]. simpl in *. eapply (IH (length t)); [lia|done].
Qed.

(** What holds of every character of the text and of the replacements
    holds of every character of the result. *)
Lemma sub_Forall (P : char -> Prop) :
  (forall s repl rest,
     m s = Some (repl, rest) -> Forall P s -> Forall P repl /\ Forall P rest) ->
  forall s, Forall P s -> Forall P (sub m s).
Proof.
  intros Hrepl s. pattern s. apply sub_ind; clear s.
  - done.
  - intros c t E IH H. rewrite sub_cons, E. inversion H; subst. constructor; auto.
  - intros c t repl rest E IH H. rewrite sub_cons, E.
    destruct (Hrepl _ _ _ E H) as [H1 H2]. apply Forall_app. auto.
Qed.

(** A scan whose matches end before a word of plain characters keeps the
    word. *)
Lemma sub_mentions :
  (forall a w b repl rest,
     forallb plain w = true -> w <> [] ->
     m (a ++ w ++ b) = Some (repl, rest) -> exists a2, rest = a2 ++ w ++ b) ->
  forall s a w b,
    forallb plain w = true -> s = a ++ w ++ b ->
    exists a' b', sub m s = a' ++ w ++ b' /\ (a = [] -> a' = []).
Proof.
  intros Hcross s. pattern s. apply sub_ind; clear s.
  - intros a w b _ E. symmetry in E.
    apply app_eq_nil in E as [-> [-> ->]%app_eq_nil]. by exists [], [].
  - intros c t E IH a w b Hw Es. rewrite sub_cons, E.
    destruct a as [|x a].
    + destruct w as [|y w].
      * exists [], (c :: sub m t). done.
      * simpl in Es. injection Es as -> ->. simpl in Hw.
        apply andb_true_iff in Hw as [_ Hw].
        destruct (IH [] w b Hw eq_refl) as (a' & b' & E' & Ha).
        rewrite (Ha eq_refl) in E'. exists [], b'. by rewrite E'.
    + injection Es as -> ->.
      destruct (IH a w b Hw eq_refl) as (a' & b' & E' & _).
      exists (x :: a'), b'. by rewrite E'.
  - intros c t repl rest E IH a w b Hw Es. rewrite sub_cons, E.
    destruct w as [|y w].
    { by exists [], (repl ++ sub m rest). }
    rewrite Es in E. pose proof (Hm _ _ _ E) as Hlen.
    destruct (Hcross a (y :: w) b repl rest Hw ltac:(done) E) as [a2 ->].
    destruct (IH a2 (y :: w) b Hw eq_refl) as (a' & b' & E' & _).
    exists (repl ++ a'), b'. rewrite E', <- app_assoc. split; [done|].
    intros ->. rewrite !length_app in Hlen. simpl in Hlen. lia.
Qed.

End Scan.

(** *** The two patterns *)

Lemma match_ws_start c t :
  match_ws (c :: t) =
  if isspace c then Some ([SP], (span isspace t).2) else None.
Proof.
  unfold match_ws. simpl. destruct (isspace c); [|done].
  by destruct (span isspace t).
Qed.

Lemma match_ws_shrinking : shrinking match_ws.
Proof.
  intros [|c t] repl rest; [done|]. rewrite match_ws_start.
  destruct (isspace c); [|done]. intros [= <- <-].
  pose proof (span_length isspace t). simpl. lia.
Qed.

(** [match_pct] in one expression: the digits, then the text after the
    white space that follows them, which has to start with [%]. *)
Lemma match_pct_spec s :
  match_pct s =
  if truthy (span isdecimal s).1 && starts (N.eqb PERCENT) (after_digits s)
  then Some ((span isdecimal s).1 ++ [PERCENT], tail (after_digits s))
  else None.
Proof.
  unfold match_pct, after_digits.
  destruct (span isdecimal s) as [[|c d] r1]; simpl; [done|].
  destruct (span isspace r1).2 as [|x rest]; simpl; [done|].
  rewrite (N.eqb_sym PERCENT x). by destruct (x =? PERCENT).
Qed.

Lemma match_pct_nondigit s : starts isdecimal s = false -> match_pct s = None.
Proof. intros H. rewrite match_pct_spec, span_false; done. Qed.

Lemma match_pct_shrinking : shrinking match_pct.
Proof.
  intros s repl rest. rewrite match_pct_spec.
  destruct (span_spec isdecimal s) as (E & _).
  pose proof (span_length isspace (span isdecimal s).2) as Hl.
  fold (after_digits s) in Hl.
  destruct (span isdecimal s).1 as [|c d]; [done|]. simpl in *.
  destruct (after_digits s) as [|x r]; [done|]. simpl in *.
  destruct (PERCENT =? x); [|done]. intros [= <- <-].
  rewrite E. simpl. rewrite length_app. lia.
Qed.

Lemma tighten_cons c t :
  tighten (c :: t) =
  match match_pct (c :: t) with
  | Some (repl, rest) => repl ++ tighten rest
  | None => c :: tighten t
  end.
Proof. apply (sub_cons _ match_pct_shrinking). Qed.

Lemma squeeze_cons c t :
  squeeze (c :: t) =
  if isspace c then SP :: squeeze (span isspace t).2 else c :: squeeze t.
Proof.
  unfold squeeze. rewrite (sub_cons _ match_ws_shrinking), match_ws_start.
  by destruct (isspace c).
Qed.

(** What a match of [(\d+)\s*%] is made of. *)
Lemma match_pct_Some s repl rest :
  match_pct s = Some (repl, rest) ->
  exists d w,
    s = d ++ w ++ PERCENT :: rest /\ repl = d ++ [PERCENT] /\ d <> []
    /\ forallb isdecimal d = true /\ forallb isspace w = true.
Proof.
  rewrite match_pct_spec. unfold after_digits.
  destruct (span_spec isdecimal s) as (E & Hd & _).
  destruct (span isdecimal s) as [d r1]. simpl in *.
  destruct (span_spec isspace r1) as (E1 & Hw & _).
  destruct (span isspace r1) as [w x]. simpl in *.
  destruct d as [|c d]; [done|]. simpl.
  destruct x as [|y x]; [done|]. simpl.
  destruct (N.eqb_spec PERCENT y) as [<-|]; [|done].
  intros [= <- <-]. exists (c :: d), w. subst. done.
Qed.

(** [match_pct] finds the match whenever the text starts with digits, white
    space and the sign, in whatever way the pattern is tried: the greedy scan
    loses no match. *)
Lemma match_pct_found d w rest :
  d <> [] -> forallb isdecimal d = true -> forallb isspace w = true ->
  match_pct (d ++ w ++ PERCENT :: rest) = Some (d ++ [PERCENT], rest).
Proof.
  intros Hd Hdec Hw. rewrite match_pct_spec. unfold after_digits.
  rewrite (span_stop isdecimal d).
  - simpl. rewrite (span_stop isspace w); [|done|done]. simpl.
    destruct d; done.
  - done.
  - destruct w as [|c w]; [done|]. simpl in *.
    apply andb_true_iff in Hw as [Hc _]. by apply space_not_decimal.
Qed.

Lemma match_pct_iff s repl rest :
  match_pct s = Some (repl, rest) <->
  exists d w,
    s = d ++ w ++ PERCENT :: rest /\ repl = d ++ [PERCENT] /\ d <> []
    /\ forallb isdecimal d = true /\ forallb isspace w = true.
Proof.
  split; [apply match_pct_Some|].
  intros (d & w & -> & -> & Hd & Hdec & Hw). by apply match_pct_found.
Qed.

(** A match of [(\d+)\s*%] gives the digits and the sign. *)
Lemma tighten_match d w rest :
  d <> [] -> forallb isdecimal d = true -> forallb isspace w = true ->
  tighten (d ++ w ++ PERCENT :: rest) = d ++ PERCENT :: tighten rest.
Proof.
  intros Hd Hdec Hw.
  pose proof (match_pct_found d w rest Hd Hdec Hw) as E.
  destruct d as [|c d]; [done|]. simpl in *.
  rewrite tighten_cons, E. simpl.
  by rewrite <- app_assoc.
Qed.

(** The first character is kept. *)
Lemma tighten_head s : head (tighten s) = head s.
Proof.
  destruct s as [|c t]; [done|].
  rewrite tighten_cons, match_pct_spec.
  destruct (span_spec isdecimal (c :: t)) as (E & _).
  destruct (span isdecimal (c :: t)).1 as [|c' d]; [done|]. simpl in *.
  injection E as -> _.
  by destruct (starts _ _).
Qed.

Lemma tighten_starts p s : starts p (tighten s) = starts p s.
Proof.
  pose proof (tighten_head s) as H.
  destruct (tighten s), s; simpl in *; congruence.
Qed.

Lemma tighten_nil_inv s : tighten s = [] -> s = [].
Proof.
  intros E. pose proof (tighten_head s) as H. rewrite E in H.
  by destruct s.
Qed.

(** White space at the start is copied. *)
Lemma tighten_spaces w x :
  forallb isspace w = true -> tighten (w ++ x) = w ++ tighten x.
Proof.
  induction w as [|c w IH]; [done|]. simpl. intros H.
  apply andb_true_iff in H as [Hc Hw].
  rewrite tighten_cons, match_pct_nondigit.
  - by rewrite IH.
  - simpl. by apply space_not_decimal.
Qed.

(** Digits that start no match are copied. *)
Lemma tighten_digits s :
  match_pct s = None ->
  tighten s = (span isdecimal s).1 ++ tighten (span isdecimal s).2.
Proof.
  induction s as [|c t IH]; [done|]. intros Hnone.
  simpl. destruct (isdecimal c) eqn:Ec; [|done].
  destruct (span isdecimal t) as [d r] eqn:Et. simpl in *.
  rewrite tighten_cons, Hnone. f_equal.
  apply IH.
  rewrite match_pct_spec in Hnone |- *.
  unfold after_digits in *. simpl in Hnone. rewrite Ec, Et in Hnone.
  rewrite Et. simpl in *.
  destruct (starts _ _); [done|]. by rewrite andb_false_r.
Qed.

(** Where the pattern does not match, it does not match after the
    substitution either. *)
Lemma match_pct_None_tighten s :
  match_pct s = None -> match_pct (tighten s) = None.
Proof.
  intros Hnone. rewrite (tighten_digits s Hnone).
  rewrite match_pct_spec in Hnone. rewrite match_pct_spec.
  unfold after_digits in *.
  destruct (span_spec isdecimal s) as (_ & Hd & Hr).
  destruct (span isdecimal s) as [d r]. simpl in *.
  rewrite (span_stop isdecimal d) by (by rewrite ?tighten_starts).
  simpl. destruct (truthy d); [|done]. simpl in *.
  destruct (span_spec isspace r) as (Er & Hw & Hx).
  destruct (span isspace r) as [w x]. simpl in *. subst r.
  rewrite tighten_spaces by done.
  rewrite (span_stop isspace w) by (by rewrite ?tighten_starts).
  simpl. rewrite tighten_starts.
  by destruct (starts _ x).
Qed.

(** Tightening percentages twice is tightening them once. *)
Lemma tighten_idem s : tighten (tighten s) = tighten s.
Proof.
  pattern s. apply (sub_ind _ match_pct_shrinking); clear s.
  - done.
  - intros c t E IH.
    pose proof (match_pct_None_tighten _ E) as E'.
    rewrite tighten_cons, E in E' |- *.
    rewrite tighten_cons, E', IH. done.
  - intros c t repl rest E IH.
    rewrite tighten_cons, E.
    rewrite match_pct_spec in E.
    destruct (span_spec isdecimal (c :: t)) as (_ & Hd & _).
    destruct (span isdecimal (c :: t)).1 as [|c' d] eqn:Ed; [done|].
    destruct (starts _ _); [|done]. simpl in E. injection E as <- _.
    replace ((c' :: d ++ [PERCENT]) ++ tighten rest)
      with ((c' :: d) ++ [] ++ PERCENT :: tighten rest)
      by (simpl; by rewrite <- app_assoc).
    rewrite (tighten_match (c' :: d) []); [|done|done|done].
    by rewrite IH.
Qed.

(** The last character is kept. *)
Lemma tighten_last s : last (tighten s) = last s.
Proof.
  pattern s. apply (sub_ind _ match_pct_shrinking); clear s.
  - done.
  - intros c t E IH. rewrite tighten_cons, E, !last_cons, IH. done.
  - intros c t repl rest E IH. rewrite tighten_cons, E.
    apply match_pct_Some in E as (d & w & -> & -> & _).
    rewrite !last_app, !last_cons, IH. simpl. by destruct (last rest).
Qed.

Lemma tighten_trimmed s : trimmed s = true -> trimmed (tighten s) = true.
Proof. unfold trimmed, ends. by rewrite tighten_starts, tighten_last. Qed.

Lemma solid_digits d :
  forallb isdecimal d = true ->
  forallb (fun c => negb (isspace c)) (d ++ [PERCENT]) = true.
Proof.
  induction d as [|c d IH]; simpl; [done|].
  intros [Hc Hd]%andb_true_iff. by rewrite decimal_not_space, IH.
Qed.

Lemma tighten_spaced s : spaced s = true -> spaced (tighten s) = true.
Proof.
  pattern s. apply (sub_ind _ match_pct_shrinking); clear s.
  - done.
  - intros c t E IH H. rewrite tighten_cons, E. simpl in *.
    apply andb_true_iff in H as [Hc Ht].
    by rewrite tighten_starts, Hc, IH.
  - intros c t repl rest E IH H. rewrite tighten_cons, E.
    apply match_pct_Some in E as (d & w & Es & -> & _ & Hd & _).
    rewrite Es in H. do 2 apply spaced_app_r in H.
    apply (spaced_app_r [PERCENT]) in H.
    apply spaced_solid; [by apply solid_digits|auto].
Qed.

(** Squeezing white space gives a single-spaced text, and leaves such a
    text as it is. *)
Lemma squeeze_starts s :
  starts isspace s = false -> starts isspace (squeeze s) = false.
Proof.
  destruct s as [|c t]; [done|]. simpl. intros H.
  rewrite squeeze_cons, H. simpl. done.
Qed.

Lemma squeeze_spaced s : spaced (squeeze s) = true.
Proof.
  pattern s. apply (sub_ind _ match_ws_shrinking); clear s.
  - done.
  - intros c t E IH. rewrite match_ws_start in E.
    rewrite squeeze_cons. destruct (isspace c) eqn:Ec; [done|].
    simpl. by rewrite Ec, IH.
  - intros c t repl rest E IH. rewrite match_ws_start in E.
    rewrite squeeze_cons. destruct (isspace c) eqn:Ec; [|done].
    injection E as <- <-. simpl.
    rewrite IH, squeeze_starts; [done|].
    by destruct (span_spec isspace t) as (_ & _ & ?).
Qed.

Lemma squeeze_id s : spaced s = true -> squeeze s = s.
Proof.
  induction s as [|c t IH]; [done|]. simpl.
  intros [Hc Ht]%andb_true_iff. rewrite squeeze_cons.
  destruct (isspace c) eqn:Ec; simpl in Hc.
  - apply andb_true_iff in Hc as [Hc Hs].
    apply N.eqb_eq in Hc as ->. apply negb_true_iff in Hs.
    rewrite span_false by done. simpl. by rewrite IH.
  - by rewrite IH.
Qed.

(** Both substitutions keep a word of plain characters. *)
Lemma mentions_squeeze w s :
  forallb plain w = true -> mentions w s -> mentions w (squeeze s).
Proof.
  intros Hw (a & b & ->).
  assert (Hcross : forall a w b repl rest,
            forallb plain w = true -> w <> [] ->
            match_ws (a ++ w ++ b) = Some (repl, rest) -> exists a2, rest = a2 ++ w ++ b);
    [|destruct (sub_mentions _ match_ws_shrinking Hcross (a ++ w ++ b) a w b Hw eq_refl)
        as (a' & b' & E & _); by exists a', b'].
  clear. intros a0 w0 b0 repl rest Hw0 Hne E.
  destruct (a0 ++ w0 ++ b0) as [|c t] eqn:Es; [done|].
  rewrite match_ws_start in E. destruct (isspace c) eqn:Ec; [|done].
  injection E as <- <-.
  destruct (span_spec isspace t) as (Et & Hsp & _).
  apply (plain_boundary a0 w0 b0 (c :: (span isspace t).1)); try done.
  - rewrite Es. simpl. by rewrite <- Et.
  - simpl. apply andb_true_iff. split.
    + unfold plain. by rewrite Ec.
    + clear -Hsp. induction (span isspace t).1 as [|x l IH]; [done|].
      simpl in *. apply andb_true_iff in Hsp as [Hx Hl].
      unfold plain at 1. rewrite Hx. simpl. auto.
Qed.

Lemma mentions_tighten w s :
  forallb plain w = true -> mentions w s -> mentions w (tighten s).
Proof.
  intros Hw (a & b & ->).
  assert (Hcross : forall a w b repl rest,
            forallb plain w = true -> w <> [] ->
            match_pct (a ++ w ++ b) = Some (repl, rest) -> exists a2, rest = a2 ++ w ++ b);
    [|destruct (sub_mentions _ match_pct_shrinking Hcross (a ++ w ++ b) a w b Hw eq_refl)
        as (a' & b' & E & _); by exists a', b'].
  clear. intros a0 w0 b0 repl rest Hw0 Hne E.
  apply match_pct_Some in E as (d & ws & Es & _ & _ & Hd & Hws).
  apply (plain_boundary a0 w0 b0 (d ++ ws ++ [PERCENT])); try done.
  - rewrite Es, <- !app_assoc. done.
  - rewrite !forallb_app.
    apply andb_true_iff; split; [|apply andb_true_iff; split; [|done]].
    + clear -Hd. induction d as [|x l IH]; [done|].
      simpl in *. apply andb_true_iff in Hd as [Hx Hl].
      unfold plain at 1. rewrite Hx, andb_false_r. simpl. auto.
    + clear -Hws. induction ws as [|x l IH]; [done|].
      simpl in *. apply andb_true_iff in Hws as [Hx Hl].
      unfold plain at 1. rewrite Hx. simpl. auto.
Qed.

End ReFacts.

(** ** Fields of a table line *)

Module MarkdownFacts.
Import Py Markdown.
Local Open Scope N_scope.

Lemma sealed_no_pipe cell : Forall (fun c => c <> PIPE) cell -> sealed cell.
Proof.
  intros H prev rest. revert prev.
  induction H as [|c cell Hc _ IH]; intros prev; [done|].
  cbn [app bare_pipes]. rewrite IH.
  destruct (N.eqb_spec c PIPE); done.
Qed.

Lemma sealed_escaped s : sealed (replace PIPE [BACKSLASH; PIPE] s).
Proof.
  intros prev rest. revert prev. unfold replace.
  induction s as [|c s IH]; intros prev; [done|].
  cbn [flat_map]. destruct (N.eqb_spec c PIPE) as [->|Hc].
  - cbn [app bare_pipes]. rewrite IH. done.
  - cbn [app bare_pipes]. rewrite IH.
    destruct (N.eqb_spec c PIPE); done.
Qed.

Lemma bare_pipes_cells prev (row : list str) :
  row <> [] -> Forall sealed row ->
  bare_pipes prev (join (lit " | ") row ++ lit " |") = length row.
Proof.
  intros Hne H. revert prev. induction H as [|c row Hc Hrow IH]; [done|].
  intros prev. destruct row as [|c2 row].
  - cbn [join]. change (lit " |") with (SP :: [PIPE]). by rewrite Hc.
  - change (join (lit " | ") (c :: c2 :: row))
      with (c ++ lit " | " ++ join (lit " | ") (c2 :: row)).
    rewrite <- !app_assoc.
    change (lit " | " ++ ?x) with (SP :: PIPE :: SP :: x).
    rewrite Hc. cbn [bare_pipes]. rewrite IH by done. done.
Qed.

(** A line [| c1 | ... | cn |] of cell texts that add no delimiter has [n]
    fields. *)
Lemma fields_line (row : list str) :
  row <> [] -> Forall sealed row ->
  fields (lit "| " ++ join (lit " | ") row ++ lit " |") = length row.
Proof.
  intros Hne H. unfold fields.
  change (lit "| " ++ ?x) with (PIPE :: SP :: x).
  cbn [bare_pipes]. rewrite bare_pipes_cells by done. simpl. lia.
Qed.

(** The same in the second reading. *)
Lemma paired_sealed_no_pipe cell :
  Forall (fun c => c <> PIPE) cell -> paired_sealed cell.
Proof.
  intros H rest.
  assert (G : forall escaped,
            paired_pipes escaped (cell ++ SP :: rest) = paired_pipes false rest);
    [|apply G].
  induction H as [|c cell Hc _ IH]; intros escaped.
  - cbn [app paired_pipes]. destruct escaped; [done|].
    change (SP =? BACKSLASH) with false. change (SP =? PIPE) with false. done.
  - cbn [app paired_pipes]. destruct escaped; [apply IH|].
    destruct (c =? BACKSLASH); [apply IH|].
    rewrite IH. destruct (N.eqb_spec c PIPE); done.
Qed.

Lemma paired_sealed_escaped s :
  Forall (fun c => c <> BACKSLASH) s ->
  paired_sealed (replace PIPE [BACKSLASH; PIPE] s).
Proof.
  intros H rest. unfold replace.
  induction H as [|c s Hc _ IH]; cbn [flat_map app paired_pipes].
  - change (SP =? BACKSLASH) with false. change (SP =? PIPE) with false. done.
  - destruct (N.eqb_spec c PIPE) as [->|Hp].
    + cbn [app paired_pipes]. change (BACKSLASH =? BACKSLASH) with true.
      cbn match. apply IH.
    + cbn [app paired_pipes].
      destruct (N.eqb_spec c BACKSLASH); [done|].
      destruct (N.eqb_spec c PIPE); [done|]. apply IH.
Qed.

Lemma paired_pipes_cells (row : list str) :
  row <> [] -> Forall paired_sealed row ->
  paired_pipes false (join (lit " | ") row ++ lit " |") = length row.
Proof.
  intros Hne H. induction H as [|c row Hc Hrow IH]; [done|].
  destruct row as [|c2 row].
  - cbn [join]. change (lit " |") with (SP :: [PIPE]). by rewrite Hc.
  - change (join (lit " | ") (c :: c2 :: row))
      with (c ++ lit " | " ++ join (lit " | ") (c2 :: row)).
    rewrite <- !app_assoc.
    change (lit " | " ++ ?x) with (SP :: PIPE :: SP :: x).
    rewrite Hc.
    change (paired_pipes false (PIPE :: SP :: ?x)) with (S (paired_pipes false x)).
    rewrite IH by done. done.
Qed.

Lemma paired_fields_line (row : list str) :
  row <> [] -> Forall paired_sealed row ->
  paired_fields (lit "| " ++ join (lit " | ") row ++ lit " |") = length row.
Proof.
  intros Hne H. unfold paired_fields.
  change (lit "| " ++ ?x) with (PIPE :: SP :: x).
  change (paired_pipes false (PIPE :: SP :: ?x)) with (S (paired_pipes false x)).
  rewrite paired_pipes_cells by done. simpl. lia.
Qed.

End MarkdownFacts.

(** ** The presentation converter *)

Module PptxFacts.
Import Py Pptx PyFacts Markdown MarkdownFacts.

Lemma table_rows_map table :
  table_rows table = map (fun row => map cell_text (cells row)) (rows table).
Proof.
  unfold table_rows. rewrite fold_append. simpl.
  apply map_ext. intros row. by rewrite fold_append.
Qed.

Lemma table_rows_of_texts rs :
  table_rows (of_texts rs) = map (map (fun c => cell_text (mkCell c))) rs.
Proof.
  rewrite table_rows_map. unfold of_texts. simpl. rewrite map_map.
  apply map_ext. intros r. simpl. by rewrite map_map.
Qed.

Section WithOsPath.
Variable relpath : str -> str -> str.

Lemma process_table_no_rows w table slide_num shape_idx :
  table_rows table = [] ->
  _process_table relpath w table slide_num shape_idx = (None, w).
Proof. intros E. unfold _process_table. simpl. by rewrite E. Qed.

Lemma process_table_rows w table slide_num shape_idx first later :
  table_rows table = first :: later ->
  _process_table relpath w table slide_num shape_idx =
  (Some
     (mkShapeContent (lit "table")
        ((table_line first :: separator_line (length first)
            :: map table_line later)
           ++ [[]; link_line
                     (relpath (data_file w slide_num shape_idx)
                        (output_dir (self w)))])),
   append_metadata (table_entry w slide_num shape_idx)
     (dump_json (data_file w slide_num shape_idx)
        (mkTableData (doc_id (self w)) slide_num (first :: later)) w)).
Proof.
  intros E. unfold _process_table. cbn [td_rows]. rewrite E.
  f_equal. f_equal. f_equal.
  rewrite fold_append. cbn [app]. rewrite <- app_assoc. done.
Qed.

End WithOsPath.

Lemma pptx_cell_text_sealed cell : sealed (cell_text cell).
Proof. apply sealed_escaped. Qed.

(** A line has as many fields as the row has cells, and one field for a
    row without cells. *)
Lemma pptx_fields_table_line (row : list Cell) :
  fields (table_line (map cell_text row)) = Nat.max 1 (length row).
Proof.
  destruct row as [|c row]; [done|].
  unfold table_line. rewrite fields_line.
  - rewrite length_map. simpl. lia.
  - done.
  - apply Forall_forall. intros x (cell & -> & _)%list_elem_of_fmap.
    apply pptx_cell_text_sealed.
Qed.

(** The same in the second reading, for cells without a backslash. *)
Lemma pptx_cell_text_paired_sealed cell :
  Forall (fun c => c <> BACKSLASH) (text cell) -> paired_sealed (cell_text cell).
Proof.
  intros H. apply paired_sealed_escaped, replace_Forall; [by repeat constructor|].
  eapply Forall_impl; [by apply strip_Forall|]. auto.
Qed.

Lemma pptx_paired_fields_table_line (row : list Cell) :
  Forall (fun cell => Forall (fun c => c <> BACKSLASH) (text cell)) row ->
  paired_fields (table_line (map cell_text row)) = Nat.max 1 (length row).
Proof.
  intros H. destruct row as [|c row]; [done|].
  unfold table_line. rewrite paired_fields_line.
  - rewrite length_map. simpl. lia.
  - done.
  - apply Forall_fmap. eapply Forall_impl; [done|].
    intros cell. apply pptx_cell_text_paired_sealed.
Qed.

End PptxFacts.

Module DocxFacts.
Import Py Re Docx PyFacts ReFacts Markdown MarkdownFacts.

(** *** Cell texts *)

Lemma clean_cell_text_unfold text :
  clean_cell_text text =
  match text with
  | [] => []
  | _ :: _ =>
      if contains (lit "total") (lower (tightened text)) then lit "Total"
      else tightened text
  end.
Proof. by destruct text. Qed.

Lemma squeeze_Forall (P : char -> Prop) s :
  P SP -> Forall P s -> Forall P (squeeze s).
Proof.
  intros HSP. apply (sub_Forall _ match_ws_shrinking).
  intros [|c t] repl rest; [done|]. rewrite match_ws_start.
  destruct (isspace c); [|done]. intros [= <- <-] H. split; [by constructor|].
  inversion H as [|? ? _ Ht]; subst.
  destruct (span_spec isspace t) as (E & _). rewrite E in Ht.
  by apply Forall_app in Ht as [_ ?].
Qed.

Lemma tighten_Forall (P : char -> Prop) s : Forall P s -> Forall P (tighten s).
Proof.
  apply (sub_Forall _ match_pct_shrinking).
  intros s' repl rest (d & w & -> & -> & _)%match_pct_Some H.
  apply Forall_app in H as [Hd H]. apply Forall_app in H as [_ H].
  inversion H; subst. split; [|done].
  apply Forall_app. split; [done|]. by constructor.
Qed.

(** No pipe is left in the text of a cell. *)
Lemma tightened_no_pipe text : Forall (fun c => c <> PIPE) (tightened text).
Proof.
  unfold tightened.
  apply tighten_Forall, strip_Forall, squeeze_Forall; [done|].
  do 3 (apply replace_Forall; [by repeat constructor|];
        apply Forall_impl with (P := fun c => c <> PIPE); [|done]).
  apply replace_Forall; [by repeat constructor|].
  by apply Forall_forall.
Qed.

Lemma clean_cell_text_no_pipe text :
  Forall (fun c => c <> PIPE) (clean_cell_text text).
Proof.
  rewrite clean_cell_text_unfold. destruct text; [done|].
  destruct (contains _ _); [by repeat constructor|].
  apply tightened_no_pipe.
Qed.

Lemma tightened_spaced text : spaced (tightened text) = true.
Proof. apply tighten_spaced, spaced_strip, squeeze_spaced. Qed.

Lemma tightened_trimmed text : trimmed (tightened text) = true.
Proof. apply tighten_trimmed, strip_trimmed. Qed.

(** A text in the shape [tightened] gives is left as it is. *)
Lemma tightened_fixed v :
  spaced v = true -> trimmed v = true -> Forall (fun c => c <> PIPE) v ->
  tighten v = v -> tightened v = v.
Proof.
  intros Hs Ht Hp Hv. unfold tightened.
  rewrite (replace_absent PIPE).
  2:{ intros Hin. eapply Forall_forall in Hp; [|by apply list_elem_of_In]. done. }
  rewrite (replace_absent NL), (replace_absent CR), (replace_absent TAB);
    try (intros Hin; by pose proof (spaced_only_space _ _ Hs Hin eq_refl)).
  by rewrite squeeze_id, strip_id.
Qed.

Lemma tightened_idem text : tightened (tightened text) = tightened text.
Proof.
  apply tightened_fixed.
  - apply tightened_spaced.
  - apply tightened_trimmed.
  - apply tightened_no_pipe.
  - unfold tightened. apply tighten_idem.
Qed.

Lemma clean_cell_text_idem text :
  clean_cell_text (clean_cell_text text) = clean_cell_text text.
Proof.
  rewrite (clean_cell_text_unfold text). destruct text as [|c t]; [done|].
  destruct (contains _ (lower (tightened (c :: t)))) eqn:E; [by vm_compute|].
  rewrite clean_cell_text_unfold.
  destruct (tightened (c :: t)) as [|c' t'] eqn:Et; [done|].
  rewrite <- Et, tightened_idem, Et, E. done.
Qed.

(** A word of plain characters in the text is still there after the
    steps before the test for [total]. *)
Lemma mentions_tightened w text :
  forallb plain w = true -> w <> [] ->
  mentions w text -> mentions w (tightened text).
Proof.
  intros Hw Hne H. unfold tightened.
  apply mentions_tighten, mentions_strip, mentions_squeeze; try done.
  by do 4 (apply mentions_replace; [done|done|]).
Qed.

(** A text that contains [total], in any case, is cleaned to [Total]. *)
Lemma clean_cell_text_total text :
  contains (lit "total") (lower text) = true ->
  clean_cell_text text = lit "Total".
Proof.
  intros (w & Hm & El & Hw & Hne)%lower_total.
  rewrite clean_cell_text_unfold. destruct text as [|c t].
  - destruct Hm as ([|? ?] & b & E); destruct w; done.
  - rewrite (mentions_lower w); [done| |done]. by apply mentions_tightened.
Qed.

Lemma normalize_idem text : normalize (normalize text) = normalize text.
Proof.
  unfold normalize, py_or.
  destruct (clean_cell_text text) as [|c t] eqn:E; [by vm_compute|].
  cbn [truthy]. rewrite <- E, clean_cell_text_idem, E. done.
Qed.

Lemma cell_text_normalize cell :
  cell_text cell =
  normalize
    (join [SP]
       (map strip (List.filter (fun para => truthy (strip para)) (paragraphs cell)))).
Proof. done. Qed.

Lemma normalize_no_pipe text : Forall (fun c => c <> PIPE) (normalize text).
Proof.
  unfold normalize, py_or. destruct (truthy _).
  - apply clean_cell_text_no_pipe.
  - by repeat constructor.
Qed.

Lemma cell_text_sealed cell : sealed (cell_text cell) /\ paired_sealed (cell_text cell).
Proof.
  split; [apply sealed_no_pipe|apply paired_sealed_no_pipe]; apply normalize_no_pipe.
Qed.

Lemma lstrip_blank p : forallb isspace p = true -> lstrip p = [].
Proof.
  induction p as [|c p IH]; simpl; [done|].
  intros [-> Hp]%andb_true_iff. auto.
Qed.

Lemma strip_blank p : forallb isspace p = true -> strip p = [].
Proof. intros H. unfold strip. by rewrite lstrip_blank. Qed.

(** A cell whose paragraphs are empty or white space gets the placeholder. *)
Lemma cell_text_blank cell :
  Forall (fun p => forallb isspace p = true) (paragraphs cell) ->
  cell_text cell = DASH.
Proof.
  intros H. rewrite cell_text_normalize.
  replace (List.filter _ (paragraphs cell)) with (@nil str); [done|].
  induction H as [|p ps Hp _ IH]; simpl; [done|].
  by rewrite strip_blank.
Qed.

(** *** Tables *)

Lemma any_not_dash_false rd :
  any_not_dash rd = false <-> Forall (fun c => c = DASH) rd.
Proof.
  unfold any_not_dash. induction rd as [|c rd IH]; simpl.
  - split; [by constructor|done].
  - rewrite orb_false_iff, IH, Forall_cons, bool_decide_eq_false.
    split; intros [H1 H2]; split; try done.
    + by destruct (decide (c = DASH)).
    + by intros ?.
Qed.

Lemma any_not_dash_true rd :
  any_not_dash rd = true <-> exists c, In c rd /\ c <> DASH.
Proof.
  unfold any_not_dash. rewrite existsb_exists.
  split; intros (c & Hin & Hc); exists c; split; try done.
  - by apply bool_decide_eq_true in Hc.
  - by apply bool_decide_eq_true.
Qed.

Lemma row_data_map row : row_data row = map cell_text (cells row).
Proof. unfold row_data. by rewrite fold_append. Qed.

Lemma extract_table_data_filter table :
  extract_table_data table = List.filter any_not_dash (map row_data (rows table)).
Proof.
  unfold extract_table_data. destruct (rows table) as [|r rs] eqn:E; [done|].
  cbn [truthy negb].
  by rewrite (fold_append_if row_data any_not_dash).
Qed.

(** A row that does not pass the test leaves no trace in the data. *)
Lemma extract_table_data_drop pre row post :
  any_not_dash (row_data row) = false ->
  extract_table_data (mkTable (pre ++ row :: post))
  = extract_table_data (mkTable (pre ++ post)).
Proof.
  intros H. rewrite !extract_table_data_filter. simpl.
  rewrite !map_app, !List.filter_app. simpl. by rewrite H.
Qed.

(** The rows of the data are not empty, and their cells add no delimiter. *)
Lemma extract_table_data_rows table rd :
  In rd (extract_table_data table) ->
  rd <> [] /\ Forall (fun cell => sealed cell /\ paired_sealed cell) rd.
Proof.
  rewrite extract_table_data_filter. intros [Hin Hk]%List.filter_In.
  split.
  - intros ->. done.
  - apply in_map_iff in Hin as (row & <- & _).
    rewrite row_data_map. apply Forall_forall.
    intros c (cell & <- & _)%list_elem_of_In%in_map_iff.
    apply cell_text_sealed.
Qed.

Lemma process_regular_table_render table :
  process_regular_table table = render (extract_table_data table).
Proof.
  unfold process_regular_table, render.
  destruct (extract_table_data table) as [|h body]; [done|].
  by rewrite fold_append.
Qed.

Lemma pad_loop_spec fuel row w :
  (w - length row <= fuel)%nat ->
  pad_loop fuel row w = row ++ replicate (w - length row) DASH.
Proof.
  revert row; induction fuel as [|f IH]; intros row Hf; simpl.
  - replace (w - length row)%nat with 0%nat by lia. by rewrite app_nil_r.
  - destruct (Nat.ltb_spec (length row) w) as [Hlt|Hge].
    + rewrite IH by (rewrite length_app; simpl; lia).
      rewrite length_app; simpl. rewrite <- app_assoc. f_equal.
      replace (w - length row)%nat with (S (w - (length row + 1)))%nat by lia.
      done.
    + replace (w - length row)%nat with 0%nat by lia. by rewrite app_nil_r.
Qed.

Lemma pad_spec row w : pad row w = row ++ replicate (w - length row) DASH.
Proof. apply pad_loop_spec. lia. Qed.

Lemma pad_take_length row w : length (take w (pad row w)) = w.
Proof.
  rewrite pad_spec, length_take, length_app, length_replicate. lia.
Qed.

Lemma join_cons_concat {A} (sep : list A) (x : list A) (xs : list (list A)) :
  join sep (x :: xs) = x ++ concat (map (fun y => sep ++ y) xs).
Proof.
  revert x; induction xs as [|y ys IH]; intros x.
  - simpl. by rewrite app_nil_r.
  - change (join sep (x :: y :: ys)) with (x ++ sep ++ join sep (y :: ys)).
    rewrite IH. simpl. by rewrite <- app_assoc.
Qed.

(** The first loop of [process_nested_table_content]. *)
Lemma all_tables_spec table :
  fold_left
    (fun all_tables row =>
       fold_left
         (fun all_tables cell =>
            fold_left
              (fun all_tables nested_table =>
                 let table_data := extract_table_data nested_table in
                 if truthy table_data then all_tables ++ [table_data]
                 else all_tables)
              (tables cell) all_tables)
         (cells row) all_tables)
    (rows table) []
  = List.filter truthy (map extract_table_data (nested_tables table)).
Proof.
  unfold nested_tables.
  set (g := fun cell : Cell =>
              List.filter truthy (map extract_table_data (tables cell))).
  rewrite (fold_left_pointwise _
             (fun acc row => acc ++ concat (map g (cells row)))).
  - rewrite fold_extend. simpl.
    rewrite <- (map_map cells (fun l => concat (map g l))).
    rewrite concat_concat_map, (map_concat extract_table_data), filter_concat.
    rewrite !map_map. done.
  - intros acc row.
    rewrite (fold_left_pointwise _ (fun acc cell => acc ++ g cell)).
    + by rewrite fold_extend.
    + intros acc' cell. unfold g.
      by rewrite (fold_append_if extract_table_data truthy).
Qed.

(** The second loop of [process_nested_table_content], from a table that
    is not the first. *)
Lemma nested_lines_later (l : list (list (list str))) (k : nat) (acc : list str) :
  (0 < k)%nat ->
  fold_left
    (fun result_lines '(idx, table_data) =>
       let result_lines :=
         if (0 <? idx)%nat then result_lines ++ [[]] else result_lines in
       match table_data with
       | [] => result_lines
       | header_row :: body =>
           let result_lines := result_lines ++ [table_line header_row] in
           let result_lines :=
             result_lines
               ++ [table_line (replicate (length header_row) (lit "---"))] in
           fold_left
             (fun result_lines row => result_lines ++ [body_line header_row row])
             body result_lines
       end)
    (zip (seq k (length l)) l) acc
  = acc ++ concat (map (fun td => [[]] ++ render td) l).
Proof.
  revert k acc; induction l as [|td l IH]; intros k acc Hk; simpl.
  - by rewrite app_nil_r.
  - rewrite IH by lia.
    destruct (Nat.ltb_spec 0 k) as [_|?]; [|lia].
    destruct td as [|h body]; simpl.
    + by rewrite <- !app_assoc.
    + rewrite fold_append, <- !app_assoc. done.
Qed.

Lemma process_nested_table_content_join table :
  process_nested_table_content table
  = join [[]]
      (map render
         (List.filter truthy (map extract_table_data (nested_tables table)))).
Proof.
  unfold process_nested_table_content. rewrite all_tables_spec.
  destruct (List.filter truthy _) as [|td l]; [done|].
  cbn [map]. rewrite join_cons_concat, map_map.
  cbn [length seq zip zip_with fold_left].
  rewrite nested_lines_later by lia.
  f_equal. destruct td as [|h body]; simpl; [done|].
  by rewrite fold_append.
Qed.

Lemma truthy_render td : truthy (render td) = truthy td.
Proof. by destruct td. Qed.

Lemma filter_map_comm {A B} (f : A -> B) (p : B -> bool) (l : list A) :
  List.filter p (map f l) = map f (List.filter (fun x => p (f x)) l).
Proof.
  induction l as [|x l IH]; simpl; [done|].
  destruct (p (f x)); simpl; by rewrite IH.
Qed.

(** The nested path gives the lines of the nested tables, each flattened
    by [process_regular_table], with one empty line between them. *)
Lemma process_nested_table_content_blocks table :
  process_nested_table_content table
  = join [[]]
      (List.filter truthy (map process_regular_table (nested_tables table))).
Proof.
  rewrite process_nested_table_content_join. f_equal.
  rewrite !filter_map_comm, map_map.
  erewrite map_ext; [|intros; symmetry; apply process_regular_table_render].
  f_equal. apply List.filter_ext. intros nt.
  by rewrite process_regular_table_render, truthy_render.
Qed.

(** *** Widths *)

(** The width of the lines, for a way [count] of counting the fields of a
    line that gives the number of the cells when the cells are [closed]. *)
Section Reading.
Variable count : str -> nat.
Variable closed : str -> Prop.
Hypothesis count_table_line :
  forall row, row <> [] -> Forall closed row -> count (table_line row) = length row.
Hypothesis closed_DASH : closed DASH.

Lemma count_body_line h r :
  h <> [] -> Forall closed r -> count (body_line h r) = length h.
Proof.
  intros Hh Hr. unfold body_line.
  pose proof (pad_take_length r (length h)) as Hl.
  rewrite count_table_line.
  - done.
  - intros E. rewrite E in Hl. destruct h; done.
  - apply Forall_take. rewrite pad_spec. apply Forall_app. split; [done|].
    by apply Forall_replicate.
Qed.

Lemma render_count td hdr sep body :
  (forall rd, In rd td -> rd <> [] /\ Forall closed rd) ->
  render td = hdr :: sep :: body ->
  Forall (fun line => count line = count hdr) body.
Proof.
  intros Hok E. destruct td as [|h rest]; [done|].
  simpl in E. injection E as <- <- <-.
  destruct (Hok h) as [Hh Hs]; [by left|].
  rewrite count_table_line by done.
  apply Forall_forall. intros l (r & <- & Hr)%list_elem_of_In%in_map_iff.
  apply count_body_line; [done|]. apply Hok. by right.
Qed.

End Reading.

Lemma render_width td hdr sep body :
  (forall rd, In rd td ->
     rd <> [] /\ Forall (fun cell => sealed cell /\ paired_sealed cell) rd) ->
  render td = hdr :: sep :: body ->
  Forall (fun line => fields line = fields hdr /\ paired_fields line = paired_fields hdr)
    body.
Proof.
  intros Hok E. apply Forall_and. split.
  - apply (render_count fields sealed fields_line) with (td := td) (sep := sep);
      [apply sealed_no_pipe; by repeat constructor| |done].
    intros rd [Hne H]%Hok. split; [done|]. eapply Forall_impl; [done|]. by intros ? [? ?].
  - apply (render_count paired_fields paired_sealed paired_fields_line)
      with (td := td) (sep := sep);
      [apply paired_sealed_no_pipe; by repeat constructor| |done].
    intros rd [Hne H]%Hok. split; [done|]. eapply Forall_impl; [done|]. by intros ? [? ?].
Qed.

Lemma render_shape td : td <> [] -> exists hdr sep body, render td = hdr :: sep :: body.
Proof. destruct td as [|h rest]; [done|]. intros _. simpl. eauto. Qed.

(** *** The last line *)

Lemma table_line_not_empty row : table_line row <> [].
Proof. done. Qed.

Lemma render_lines td : Forall (fun line => line <> []) (render td).
Proof.
  destruct td as [|h rest]; [done|]. simpl.
  do 2 (constructor; [done|]).
  apply Forall_forall. by intros l (r & <- & _)%list_elem_of_In%in_map_iff.
Qed.

Lemma last_Forall {A} (P : A -> Prop) l x : Forall P l -> last l = Some x -> P x.
Proof.
  intros H (l' & ->)%last_Some. apply Forall_app in H as [_ H].
  by inversion H.
Qed.

Lemma last_join_blocks (blocks : list (list str)) line :
  Forall (fun b => b <> [] /\ Forall (fun l => l <> []) b) blocks ->
  last (join [[]] blocks) = Some line -> line <> [].
Proof.
  induction 1 as [|b bs [Hb Hl] Hbs IH]; [done|].
  destruct bs as [|b2 bs].
  - cbn [join]. intros E. exact (last_Forall _ _ _ Hl E).
  - change (join [[]] (b :: b2 :: bs)) with (b ++ [[]] ++ join [[]] (b2 :: bs)).
    rewrite !last_app.
    destruct (last (join [[]] (b2 :: bs))) as [y|] eqn:E.
    + intros [= <-]. by apply IH.
    + exfalso. inversion Hbs as [|? ? [Hb2 _] _]; subst.
      apply last_None in E.
      destruct bs; simpl in E; [done|].
      by apply app_eq_nil in E as [? _].
Qed.

End DocxFacts.


(** ** The word-document converter over the store *)

Module DocxStoreFacts.
Import Py Re Docx DocxFacts.
Module S := DocxStore.

Lemma for_each_app {A B} (xs ys : list A) (acc : B) (body : B -> A -> S.M B) st :
  S.for_each (xs ++ ys) acc body st
  = let '(acc', st') := S.for_each xs acc body st in S.for_each ys acc' body st'.
Proof.
  revert acc st; induction xs as [|x xs IH]; intros acc st; simpl.
  - done.
  - unfold S.bind. destruct (body acc x st) as [acc' st']. apply IH.
Qed.

(** A loop in a loop is a loop over the concatenation. *)
Lemma for_each_concat {A B C} (f : A -> list C) (body : B -> C -> S.M B)
    (xs : list A) (acc : B) st :
  S.for_each xs acc (fun acc x => S.for_each (f x) acc body) st
  = S.for_each (concat (map f xs)) acc body st.
Proof.
  revert acc st; induction xs as [|x xs IH]; intros acc st; simpl; [done|].
  rewrite for_each_app. unfold S.bind.
  destruct (S.for_each (f x) acc body st) as [acc' st']. apply IH.
Qed.

Lemma for_each_pointwise {A B} (xs : list A) (acc : B) (f g : B -> A -> S.M B) st :
  (forall a x st, f a x st = g a x st) ->
  S.for_each xs acc f st = S.for_each xs acc g st.
Proof.
  intros E. revert acc st; induction xs as [|x xs IH]; intros acc st; simpl; [done|].
  unfold S.bind. rewrite E. destruct (g acc x st). apply IH.
Qed.

Lemma alter_end {A} (f : A -> A) (l : list A) (v : A) :
  alter f (length l) (l ++ [v]) = l ++ [f v].
Proof.
  rewrite <- (Nat.add_0_r (length l)) at 1. by rewrite alter_app_r.
Qed.

Lemma alter_present {A} (f : A -> A) (l : list A) i v :
  l !! i = Some v -> alter f i l = <[i := f v]> l.
Proof.
  intros H. apply list_eq. intros j. destruct (decide (i = j)) as [<-|Hne].
  - rewrite list_lookup_alter_eq, H. simpl.
    by rewrite list_lookup_insert_eq by (by eapply lookup_lt_Some).
  - by rewrite list_lookup_alter_ne, list_lookup_insert_ne.
Qed.

(** The loop over the cells fills the new row. *)
Lemma fill_row (st : S.store) (v : list str) (cs : list Cell) :
  S.for_each cs tt (fun _ cell => S.append (length st) (cell_text cell)) (st ++ [v])
  = (tt, st ++ [v ++ map cell_text cs]).
Proof.
  revert v; induction cs as [|c cs IH]; intros v; simpl.
  - by rewrite app_nil_r.
  - unfold S.bind, S.append. rewrite alter_end, IH, <- app_assoc. done.
Qed.

Lemma holds_extend st ext locs rows :
  S.holds st locs rows -> S.holds (st ++ ext) locs rows.
Proof.
  intros H. eapply Forall2_impl; [exact H|].
  intros l row E. by apply lookup_app_l_Some.
Qed.

Lemma holds_agree st st' locs rows :
  (forall l, l ∈ locs -> st' !! l = st !! l) ->
  S.holds st locs rows -> S.holds st' locs rows.
Proof.
  intros Hag H. induction H as [|l row locs rows E _ IH]; [constructor|].
  constructor.
  - rewrite Hag; [done|]. by left.
  - apply IH. intros l' Hin. apply Hag. by right.
Qed.

Lemma holds_bound st locs rows l :
  S.holds st locs rows -> l ∈ locs -> (l < length st)%nat.
Proof.
  induction 1 as [|l' row locs rows E _ IH]; intros Hin.
  - by apply elem_of_nil in Hin.
  - apply elem_of_cons in Hin as [->|Hin]; [by apply lookup_lt_Some in E|auto].
Qed.

Lemma bind_run {A B} (c : S.M A) (k : A -> S.M B) st :
  S.bind c k st = k (c st).1 (c st).2.
Proof. unfold S.bind. by destruct (c st). Qed.

Lemma read_run l st v : st !! l = Some v -> S.read l st = (v, st).
Proof. intros E. unfold S.read. by rewrite E. Qed.

(** One turn of the loop over the rows: the row gets a new list at the end
    of the store, and its address is kept if the row passes the test. *)
Lemma extract_row_spec table_data row st :
  S.extract_row table_data row st
  = (if any_not_dash (row_data row) then table_data ++ [length st] else table_data,
     st ++ [row_data row]).
Proof.
  unfold S.extract_row. rewrite bind_run. cbn [S.new_list fst snd].
  rewrite bind_run, fill_row. cbn [fst snd].
  rewrite bind_run, (read_run _ _ (map cell_text (cells row)))
    by (by apply list_lookup_middle).
  cbn [fst snd]. rewrite <- row_data_map. by destruct (any_not_dash _).
Qed.

Lemma extract_loop (rs : list Row) (acc : list nat) (st : list (list str)) :
  exists locs,
    S.for_each rs acc S.extract_row st = (acc ++ locs, st ++ map row_data rs)
    /\ S.holds (st ++ map row_data rs) locs
         (List.filter any_not_dash (map row_data rs))
    /\ NoDup locs
    /\ Forall (fun l => (length st <= l)%nat) locs.
Proof.
  revert acc st; induction rs as [|r rs IH]; intros acc st.
  - exists []. simpl. rewrite !app_nil_r. repeat split; constructor.
  - cbn [S.for_each]. rewrite bind_run, extract_row_spec. cbn [fst snd].
    set (st1 := st ++ [row_data r]).
    assert (Est : st1 ++ map row_data rs = st ++ map row_data (r :: rs))
      by (unfold st1; by rewrite <- app_assoc).
    assert (Hlen : length st1 = S (length st))
      by (unfold st1; rewrite length_app; simpl; lia).
    cbn [map List.filter].
    destruct (any_not_dash (row_data r)) eqn:Ek.
    + destruct (IH (acc ++ [length st]) st1) as (locs & E & Hh & Hnd & Hge).
      exists (length st :: locs). rewrite E, Est, <- app_assoc in *.
      split; [done|]. split; [|split].
      * constructor; [|done]. by apply list_lookup_middle.
      * constructor; [|done]. intros Hin.
        eapply Forall_forall in Hge; [|done]. lia.
      * constructor; [lia|]. eapply Forall_impl; [done|]. simpl. lia.
    + destruct (IH acc st1) as (locs & E & Hh & Hnd & Hge).
      exists locs. rewrite E, Est in *.
      split; [done|]. split; [done|]. split; [done|].
      eapply Forall_impl; [done|]. simpl. lia.
Qed.

Lemma extract_spec (table : Table) (st : S.store) :
  exists locs,
    S.extract_table_data table st = (locs, st ++ map row_data (rows table))
    /\ S.holds (st ++ map row_data (rows table)) locs (extract_table_data table)
    /\ NoDup locs
    /\ Forall (fun l => (length st <= l)%nat) locs.
Proof.
  rewrite extract_table_data_filter. unfold S.extract_table_data.
  destruct (rows table) as [|r rs] eqn:E.
  - exists []. simpl. rewrite app_nil_r. repeat split; constructor.
  - cbn [truthy negb]. apply (extract_loop (r :: rs) [] st).
Qed.

(** The padding loop changes the list of the row, and nothing else. *)
Lemma pad_loop_run fuel row header_row st rv hv :
  st !! row = Some rv -> st !! header_row = Some hv -> row <> header_row ->
  (length hv - length rv <= fuel)%nat ->
  S.pad_loop fuel row header_row st
  = (tt, <[row := rv ++ replicate (length hv - length rv) DASH]> st).
Proof.
  revert st rv; induction fuel as [|f IH]; intros st rv Hr Hh Hne Hf.
  - simpl. replace (length hv - length rv)%nat with 0%nat by lia.
    simpl. rewrite app_nil_r, list_insert_id; done.
  - cbn [S.pad_loop].
    rewrite bind_run, (read_run _ _ _ Hr). cbn [fst snd].
    rewrite bind_run, (read_run _ _ _ Hh). cbn [fst snd].
    destruct (Nat.ltb_spec (length rv) (length hv)) as [Hlt|Hge].
    + rewrite bind_run. unfold S.append. cbn [fst snd].
      rewrite (alter_present _ _ _ _ Hr).
      pose proof (lookup_lt_Some _ _ _ Hr) as Hb.
      rewrite (IH _ (rv ++ [DASH])).
      * rewrite list_insert_insert_eq, length_app. simpl.
        rewrite <- app_assoc. do 3 f_equal.
        replace (length hv - length rv)%nat
          with (S (length hv - (length rv + 1)))%nat by lia.
        done.
      * by apply list_lookup_insert_eq.
      * by rewrite list_lookup_insert_ne.
      * done.
      * rewrite length_app. simpl. lia.
    + replace (length hv - length rv)%nat with 0%nat by lia.
      simpl. rewrite app_nil_r, list_insert_id; done.
Qed.

Lemma pad_run row header_row st rv hv :
  st !! row = Some rv -> st !! header_row = Some hv -> row <> header_row ->
  S.pad row header_row st = (tt, <[row := Docx.pad rv (length hv)]> st).
Proof.
  intros Hr Hh Hne. unfold S.pad.
  rewrite bind_run, (read_run _ _ _ Hh). cbn [fst snd].
  rewrite (pad_loop_run _ _ _ _ rv hv), pad_spec; done || lia.
Qed.

Lemma header_lines_run header_row acc st hv :
  st !! header_row = Some hv ->
  S.header_lines header_row acc st
  = (acc ++ [table_line hv; table_line (replicate (length hv) (lit "---"))], st).
Proof.
  intros Hh. unfold S.header_lines.
  rewrite bind_run, (read_run _ _ _ Hh). cbn [fst snd].
  rewrite bind_run, (read_run _ _ _ Hh). cbn [fst snd].
  unfold S.ret. by rewrite <- app_assoc.
Qed.

(** One body line: the row is padded in place, the header is as it was. *)
Lemma body_line_run header_row acc row st rv hv :
  st !! row = Some rv -> st !! header_row = Some hv -> row <> header_row ->
  S.body_line header_row acc row st
  = (acc ++ [Docx.body_line hv rv], <[row := Docx.pad rv (length hv)]> st).
Proof.
  intros Hr Hh Hne. unfold S.body_line.
  rewrite bind_run, (pad_run _ _ _ rv hv) by done. cbn [fst snd].
  rewrite bind_run, (read_run _ _ (Docx.pad rv (length hv)))
    by (apply list_lookup_insert_eq; by eapply lookup_lt_Some).
  cbn [fst snd].
  rewrite bind_run, (read_run _ _ hv) by (by rewrite list_lookup_insert_ne).
  done.
Qed.

(** The loop over the body rows changes only the lists of these rows. *)
Lemma body_lines_run body :
  forall st acc header_row hv rows,
    st !! header_row = Some hv -> header_row ∉ body -> NoDup body ->
    S.holds st body rows ->
    exists st',
      S.body_lines header_row body acc st
      = (acc ++ map (Docx.body_line hv) rows, st')
      /\ length st' = length st
      /\ (forall l, l ∉ body -> st' !! l = st !! l).
Proof.
  unfold S.body_lines.
  induction body as [|row body IH]; intros st acc header_row hv rows Hh Hni Hnd Hrows.
  - inversion Hrows; subst. exists st. simpl. by rewrite app_nil_r.
  - inversion Hrows as [|? rv ? rows' Hr Hrest]; subst.
    apply not_elem_of_cons in Hni as [Hne Hni].
    apply NoDup_cons in Hnd as [Hnr Hnd].
    cbn [S.for_each]. rewrite bind_run.
    rewrite (body_line_run _ _ _ _ rv hv) by done. cbn [fst snd].
    destruct (IH (<[row := Docx.pad rv (length hv)]> st)
                (acc ++ [Docx.body_line hv rv]) header_row hv rows')
      as (st' & E & Hlen & Hframe).
    + by rewrite list_lookup_insert_ne.
    + done.
    + done.
    + eapply holds_agree; [|done]. intros l Hl.
      rewrite list_lookup_insert_ne; [done|]. by intros <-.
    + exists st'. rewrite E, <- app_assoc. split; [done|].
      split; [by rewrite Hlen, length_insert|].
      intros l [Hl1 Hl2]%not_elem_of_cons.
      rewrite Hframe by done. by rewrite list_lookup_insert_ne.
Qed.

(** The lines of one table, from the addresses of its rows. *)
Lemma one_table_run locs td acc st :
  S.holds st locs td -> NoDup locs ->
  exists st',
    match locs with
    | [] => S.ret acc
    | header_row :: body =>
        S.bind (S.header_lines header_row acc) (S.body_lines header_row body)
    end st
    = (acc ++ render td, st')
    /\ length st' = length st
    /\ (forall l, l ∉ locs -> st' !! l = st !! l).
Proof.
  intros H Hnd. destruct H as [|header_row hv body rows Hh Hrows].
  - exists st. unfold S.ret. simpl. by rewrite app_nil_r.
  - apply NoDup_cons in Hnd as [Hni Hnd].
    rewrite bind_run, (header_lines_run _ _ _ hv) by done. cbn [fst snd].
    destruct (body_lines_run body st
                (acc ++ [table_line hv; table_line (replicate (length hv) (lit "---"))])
                header_row hv rows) as (st' & E & Hlen & Hframe); try done.
    exists st'. rewrite E. simpl. rewrite <- app_assoc. split; [done|].
    split; [done|]. intros l [_ Hl]%not_elem_of_cons. by apply Hframe.
Qed.

(** A store that agrees with [st] below [length st] extends [st]. *)
Lemma store_extends (st st' : list (list str)) :
  (length st <= length st')%nat ->
  (forall l, (l < length st)%nat -> st' !! l = st !! l) ->
  exists ext, st' = st ++ ext.
Proof.
  intros Hlen Hag. exists (drop (length st) st').
  rewrite <- (take_drop (length st) st') at 1. f_equal.
  apply list_eq. intros i. destruct (decide (i < length st)%nat) as [Hi|Hi].
  - rewrite lookup_take_lt by done. auto.
  - rewrite lookup_take_ge by lia. symmetry. apply lookup_ge_None. lia.
Qed.

(** The flattening of a table without nesting gives the lines of
    [Docx.process_regular_table]; it puts new lists at the end of the store
    and leaves the lists that were there as they were. *)
Lemma process_regular_table_run table st :
  exists ext,
    S.process_regular_table table st = (process_regular_table table, st ++ ext).
Proof.
  unfold S.process_regular_table. rewrite bind_run.
  destruct (extract_spec table st) as (locs & E & Hh & Hnd & Hge).
  rewrite E. cbn [fst snd].
  destruct (one_table_run locs _ [] _ Hh Hnd) as (st' & E' & Hlen & Hframe).
  rewrite process_regular_table_render.
  destruct (store_extends st st') as [ext ->].
  - rewrite Hlen, length_app. lia.
  - intros l Hl. rewrite Hframe.
    + by apply lookup_app_l.
    + intros Hin. eapply Forall_forall in Hge; [|done]. lia.
  - exists ext. destruct locs; exact E'.
Qed.

Lemma collect_table_run acc nt st :
  exists locs,
    S.collect_table acc nt st
    = (if truthy locs then acc ++ [locs] else acc, st ++ map row_data (rows nt))
    /\ S.holds (st ++ map row_data (rows nt)) locs (extract_table_data nt)
    /\ NoDup locs
    /\ Forall (fun l => (length st <= l)%nat) locs.
Proof.
  destruct (extract_spec nt st) as (locs & E & Hh & Hnd & Hge).
  exists locs. unfold S.collect_table. rewrite bind_run, E. cbn [fst snd].
  by destruct locs.
Qed.

Lemma holds_all_agree st st' locss tds :
  (forall l, l ∈ concat locss -> st' !! l = st !! l) ->
  Forall2 (S.holds st) locss tds -> Forall2 (S.holds st') locss tds.
Proof.
  intros Hag H. induction H as [|locs td locss tds Hh _ IH]; [constructor|].
  constructor.
  - eapply holds_agree; [|done]. intros l Hl. apply Hag.
    cbn [concat]. apply elem_of_app. by left.
  - apply IH. intros l Hl. apply Hag. cbn [concat]. apply elem_of_app. by right.
Qed.

(** The first loop of the nested path: the data of the nested tables, one
    after the other, each in new lists. *)
Lemma collect_loop (nts : list Table) :
  forall st acc,
    exists locss ext,
      S.for_each nts acc S.collect_table st = (acc ++ locss, st ++ ext)
      /\ Forall2 (S.holds (st ++ ext)) locss
           (List.filter truthy (map extract_table_data nts))
      /\ NoDup (concat locss)
      /\ Forall (fun l => (length st <= l)%nat) (concat locss).
Proof.
  induction nts as [|nt nts IH]; intros st acc.
  - exists [], []. simpl. rewrite !app_nil_r. repeat split; constructor.
  - cbn [S.for_each]. rewrite bind_run.
    destruct (collect_table_run acc nt st) as (locs & E & Hh & Hnd & Hge).
    rewrite E. cbn [fst snd].
    set (st1 := st ++ map row_data (rows nt)) in *.
    assert (Hlen : (length st <= length st1)%nat)
      by (unfold st1; rewrite length_app; lia).
    assert (Htr : truthy locs = truthy (extract_table_data nt))
      by (destruct Hh; done).
    cbn [map List.filter]. rewrite <- Htr.
    destruct locs as [|l0 locs']; cbn [truthy].
    + destruct (IH st1 acc) as (locss & ext & E' & Hall & Hnd' & Hge').
      exists locss, (map row_data (rows nt) ++ ext).
      rewrite app_assoc. fold st1. split; [done|]. split; [done|].
      split; [done|]. eapply Forall_impl; [done|]. simpl. lia.
    + destruct (IH st1 (acc ++ [l0 :: locs'])) as (locss & ext & E' & Hall & Hnd' & Hge').
      exists ((l0 :: locs') :: locss), (map row_data (rows nt) ++ ext).
      rewrite app_assoc. fold st1. rewrite E', <- app_assoc.
      split; [done|]. split; [|split].
      * constructor; [by apply holds_extend|done].
      * cbn [concat]. apply NoDup_app. split; [done|]. split; [|done].
        intros l Hl Hl'. apply (holds_bound _ _ _ _ Hh) in Hl.
        eapply Forall_forall in Hge'; [|done]. lia.
      * cbn [concat]. apply Forall_app. split; [done|].
        eapply Forall_impl; [done|]. simpl. lia.
Qed.

(** One turn of the second loop of the nested path. *)
Lemma table_lines_run idx locs td acc st :
  S.holds st locs td -> NoDup locs ->
  exists st',
    S.table_lines acc (idx, locs) st
    = ((if (0 <? idx)%nat then acc ++ [[]] else acc) ++ render td, st')
    /\ length st' = length st
    /\ (forall l, l ∉ locs -> st' !! l = st !! l).
Proof. intros H Hnd. unfold S.table_lines. by apply one_table_run. Qed.

(** The second loop of the nested path, from a table that is not the first. *)
Lemma tables_loop (locss : list (list nat)) :
  forall tds st k acc,
    (0 < k)%nat -> Forall2 (S.holds st) locss tds -> NoDup (concat locss) ->
    exists st',
      S.for_each (zip (seq k (length locss)) locss) acc S.table_lines st
      = (acc ++ concat (map (fun td => [[]] ++ render td) tds), st')
      /\ length st' = length st
      /\ (forall l, l ∉ concat locss -> st' !! l = st !! l).
Proof.
  induction locss as [|locs locss IH]; intros tds st k acc Hk Hall Hnd.
  - inversion Hall; subst. exists st. simpl. by rewrite app_nil_r.
  - inversion Hall as [|? td ? tds' Hh Hrest]; subst.
    cbn [concat] in Hnd. apply NoDup_app in Hnd as (Hnd1 & Hdisj & Hnd2).
    cbn [length seq zip zip_with S.for_each]. rewrite bind_run.
    destruct (table_lines_run k locs td acc st Hh Hnd1) as (st1 & E1 & Hlen1 & Hfr1).
    rewrite E1. cbn [fst snd].
    destruct (Nat.ltb_spec 0 k) as [_|?]; [|lia].
    destruct (IH tds' st1 (S k) ((acc ++ [[]]) ++ render td)) as (st' & E & Hlen & Hfr).
    + lia.
    + eapply holds_all_agree; [|done]. intros l Hl. apply Hfr1.
      intros Hl'. by apply (Hdisj l).
    + done.
    + exists st'. rewrite E. simpl. rewrite <- !app_assoc.
      split; [done|]. split; [lia|].
      intros l [Hl1 Hl2]%not_elem_of_app.
      rewrite Hfr by done. by apply Hfr1.
Qed.

(** The flattening of a table with nested tables gives the lines of
    [Docx.process_nested_table_content], and only puts new lists at the end
    of the store. *)
Lemma process_nested_table_content_run table st :
  exists ext,
    S.process_nested_table_content table st
    = (process_nested_table_content table, st ++ ext).
Proof.
  unfold S.process_nested_table_content. rewrite bind_run.
  rewrite (for_each_pointwise _ _ _
             (fun acc row =>
                S.for_each (concat (map tables (cells row))) acc S.collect_table))
    by (intros; apply for_each_concat).
  rewrite (for_each_concat (fun row => concat (map tables (cells row)))).
  rewrite <- (map_map cells (fun l => concat (map tables l))).
  rewrite !(concat_concat_map tables). fold (nested_tables table).
  destruct (collect_loop (nested_tables table) st []) as (locss & ext & E & Hall & Hnd & Hge).
  rewrite E. cbn [fst snd app].
  rewrite process_nested_table_content_join.
  destruct Hall as [|locs td locss tds Hh Hrest].
  - exists ext. done.
  - cbn [concat] in Hnd, Hge. pose proof Hnd as Hnd0.
    apply NoDup_app in Hnd as (Hnd1 & Hdisj & Hnd2).
    cbn [length seq zip zip_with S.for_each]. rewrite bind_run.
    destruct (table_lines_run 0 locs td [] _ Hh Hnd1) as (st1 & E1 & Hlen1 & Hfr1).
    change (0 <? 0)%nat with false in E1. cbn [app] in E1.
    rewrite E1. cbn [fst snd].
    destruct (tables_loop locss tds st1 1 (render td)) as (st' & E' & Hlen & Hfr).
    + lia.
    + eapply holds_all_agree; [|done]. intros l Hl. apply Hfr1.
      intros Hl'. by apply (Hdisj l).
    + done.
    + destruct (store_extends st st') as [ext' ->].
      * rewrite Hlen, Hlen1, length_app. lia.
      * intros l Hl.
        assert (l ∉ locs ++ concat locss).
        { intros Hin. eapply Forall_forall in Hge; [|done]. lia. }
        apply not_elem_of_app in H as [H1 H2].
        rewrite Hfr, Hfr1 by done. by apply lookup_app_l.
      * exists ext'. rewrite E'.
        cbn [map]. by rewrite join_cons_concat, map_map.
Qed.

(** The flattener over the store: its lines are those of
    [Docx.process_table_proper_format], and the store it leaves is the store
    it found, with new lists after it. *)
Lemma process_table_proper_format_run table st :
  exists ext,
    S.process_table_proper_format table st
    = (process_table_proper_format table, st ++ ext).
Proof.
  unfold S.process_table_proper_format, process_table_proper_format.
  destruct (negb _).
  - exists []. by rewrite app_nil_r.
  - destruct (has_nested_tables table).
    + apply process_nested_table_content_run.
    + apply process_regular_table_run.
Qed.

End DocxStoreFacts.

(** * The claims of the specification *)

Section Claims.
Import Py Re Markdown.
Import PyFacts ReFacts MarkdownFacts DocxFacts PptxFacts DocxStoreFacts.

(** C9 (zero-row invariant).  A table without rows gives no lines: the
    word-document flattener returns the empty list, and its caller adds
    nothing to the page; the presentation flattener returns [None], writes no
    file and records nothing.  Neither raises or reports an error. *)
Theorem zero_rows_no_lines :
  (forall table,
     Docx.rows table = [] ->
     Docx.process_table_proper_format table = []
     /\ forall current_lines,
          Docx.word_to_markdown_pages_tbl current_lines table = current_lines)
  /\ (forall relpath w table slide_num shape_idx,
        Pptx.rows table = [] ->
        Pptx._process_table relpath w table slide_num shape_idx = (None, w)).
Proof.
  split.
  - intros table E. unfold Docx.word_to_markdown_pages_tbl.
    unfold Docx.process_table_proper_format. rewrite E. done.
  - intros relpath w table slide_num shape_idx E.
    apply process_table_no_rows. by rewrite table_rows_map, E.
Qed.

Lemma zero_rows_no_lines_witness :
  Docx.process_table_proper_format (Docx.mkTable []) = []
  /\ Pptx._process_table Pptx.sample_relpath Pptx.fresh_world (Pptx.mkTable []) 1
       (Pptx.IntIdx 0)
     = (None, Pptx.fresh_world).
Proof.
  split.
  - apply (proj1 zero_rows_no_lines (Docx.mkTable [])). reflexivity.
  - apply (proj2 zero_rows_no_lines). reflexivity.
Defined.

(** C6 (ragged-row repair).  In the word-document flattener the line of a
    surviving row after the first is the line of that row padded on the right
    with the placeholder up to the header's length [w] and cut to its first
    [w] cells: a shorter row is filled up to exactly [w] cells, a longer row
    keeps its first [w] cells.  The regular path and the nested path both
    write the rows of a table this way.  A header A, B, C with the row x, y
    gives the line [| x | y | – |], and a header A, B with the row x, y, z
    gives [| x | y |]. *)
Theorem ragged_row_repair :
  (forall header_row row,
     let w := length header_row in
     let repaired := take w (row ++ replicate (w - length row) Docx.DASH) in
     Docx.body_line header_row row = Docx.table_line repaired
     /\ length repaired = w
     /\ ((length row < w)%nat ->
         repaired = row ++ replicate (w - length row) Docx.DASH)
     /\ ((w < length row)%nat -> repaired = take w row))
  /\ (forall table,
        Docx.process_regular_table table
        = Docx.render (Docx.extract_table_data table))
  /\ (forall table,
        Docx.process_nested_table_content table
        = join [[]]
            (map Docx.render
               (List.filter truthy
                  (map Docx.extract_table_data (Docx.nested_tables table)))))
  /\ (forall header_row body,
        Docx.render (header_row :: body)
        = Docx.table_line header_row
            :: Docx.table_line (replicate (length header_row) (lit "---"))
            :: map (Docx.body_line header_row) body)
  /\ Docx.process_table_proper_format
       (Docx.plain_table [[lit "A"; lit "B"; lit "C"]; [lit "x"; lit "y"]])
     = [lit "| A | B | C |"; lit "| --- | --- | --- |"; lit "| x | y | – |"]
  /\ Docx.process_table_proper_format
       (Docx.plain_table [[lit "A"; lit "B"]; [lit "x"; lit "y"; lit "z"]])
     = [lit "| A | B |"; lit "| --- | --- |"; lit "| x | y |"].
Proof.
  split; [|split; [|split; [|split; [|split]]]].
  - intros header_row row w repaired. unfold repaired, w. split; [|split; [|split]].
    + unfold Docx.body_line. by rewrite pad_spec.
    + rewrite length_take, length_app, length_replicate. lia.
    + intros Hlt. apply take_ge. rewrite length_app, length_replicate. lia.
    + intros Hgt. replace (length header_row - length row)%nat with 0%nat by lia.
      simpl. by rewrite app_nil_r.
  - apply process_regular_table_render.
  - apply process_nested_table_content_join.
  - done.
  - by vm_compute.
  - by vm_compute.
Qed.

Lemma ragged_row_repair_witness :
  take 3 ([lit "x"; lit "y"] ++ replicate (3 - 2) Docx.DASH)
  = [lit "x"; lit "y"] ++ replicate (3 - 2) Docx.DASH.
Proof.
  apply (proj1 (proj2 (proj2 (proj1 ragged_row_repair
                                [lit "A"; lit "B"; lit "C"] [lit "x"; lit "y"])))).
  simpl. lia.
Defined.

(** C8 (all-placeholder row dropped).  [extract_table_data] keeps exactly
    the rows in which some cell text differs from the placeholder, in their
    order; a row whose cells hold only empty or white-space paragraphs is as
    if it were not in the table, so the header is the first row that is
    kept. *)
Theorem all_placeholder_row_dropped :
  (forall table,
     Docx.extract_table_data table
     = List.filter Docx.any_not_dash (map Docx.row_data (Docx.rows table)))
  /\ (forall row,
        Docx.any_not_dash (Docx.row_data row) = true
        <-> exists cell, In cell (Docx.cells row) /\ Docx.cell_text cell <> Docx.DASH)
  /\ (forall pre row post,
        Forall
          (fun cell =>
             Forall (fun p => forallb isspace p = true) (Docx.paragraphs cell))
          (Docx.cells row) ->
        Docx.extract_table_data (Docx.mkTable (pre ++ row :: post))
        = Docx.extract_table_data (Docx.mkTable (pre ++ post))
        /\ Docx.process_regular_table (Docx.mkTable (pre ++ row :: post))
          = Docx.process_regular_table (Docx.mkTable (pre ++ post))).
Proof.
  split; [|split].
  - apply extract_table_data_filter.
  - intros row. rewrite any_not_dash_true, row_data_map. split.
    + intros (c & (cell & <- & Hin)%in_map_iff & Hc). eauto.
    + intros (cell & Hin & Hc). exists (Docx.cell_text cell).
      split; [by apply in_map|done].
  - intros pre row post Hblank.
    assert (E : Docx.any_not_dash (Docx.row_data row) = false).
    { apply any_not_dash_false. rewrite row_data_map.
      apply Forall_forall. intros c (cell & -> & Hin)%list_elem_of_fmap.
      apply cell_text_blank. by eapply Forall_forall in Hblank. }
    rewrite !process_regular_table_render, (extract_table_data_drop _ _ _ E).
    done.
Qed.

Lemma all_placeholder_row_dropped_witness :
  Docx.process_regular_table
    (Docx.mkTable
       ([] ++ Docx.mkRow [Docx.plain_cell [lit "  "]; Docx.plain_cell []]
           :: [Docx.mkRow [Docx.plain_cell [lit "A"]; Docx.plain_cell [lit "B"]]]))
  = Docx.process_regular_table
      (Docx.mkTable
         ([] ++ [Docx.mkRow [Docx.plain_cell [lit "A"]; Docx.plain_cell [lit "B"]]])).
Proof.
  apply (proj2 (proj2 all_placeholder_row_dropped)).
  repeat constructor.
Defined.

(** C10 (literal placeholder conflation).  The test that keeps a row
    compares the cell texts with the en dash, so a row all of whose cell
    texts are the en dash is dropped, whether they come from empty cells or
    from cells that hold an en dash: both give the same cell text, and a
    first row of en dashes does not become the header. *)
Theorem literal_dash_row_dropped :
  (forall pre row post,
     Forall (fun cell => Docx.cell_text cell = Docx.DASH) (Docx.cells row) ->
     Docx.extract_table_data (Docx.mkTable (pre ++ row :: post))
     = Docx.extract_table_data (Docx.mkTable (pre ++ post)))
  /\ (forall nested,
        Docx.cell_text (Docx.mkCell [lit "–"] nested) = Docx.DASH
        /\ Docx.cell_text (Docx.mkCell [] nested) = Docx.DASH)
  /\ Docx.process_table_proper_format
       (Docx.plain_table [[lit "–"; lit "–"]; [lit "A"; lit "B"]])
     = [lit "| A | B |"; lit "| --- | --- |"].
Proof.
  split; [|split].
  - intros pre row post H. apply extract_table_data_drop.
    apply any_not_dash_false. rewrite row_data_map.
    apply Forall_forall. intros c (cell & -> & Hin)%list_elem_of_fmap.
    by eapply Forall_forall in H.
  - intros nested. split; by vm_compute.
  - by vm_compute.
Qed.

Lemma literal_dash_row_dropped_witness :
  Docx.extract_table_data
    (Docx.mkTable
       ([] ++ Docx.mkRow [Docx.plain_cell [lit "–"]; Docx.plain_cell []]
           :: [Docx.mkRow [Docx.plain_cell [lit "A"]]]))
  = Docx.extract_table_data
      (Docx.mkTable ([] ++ [Docx.mkRow [Docx.plain_cell [lit "A"]]])).
Proof.
  apply (proj1 literal_dash_row_dropped).
  repeat constructor.
Defined.

(** C4 (nested-table precedence).  When some cell of a table holds a nested
    table, the flattener gives the lines of the nested tables, each flattened
    on its own by [process_regular_table], in the order of the cells, with
    one empty line between the lines of one nested table and those of the
    next (a nested table all of whose rows are dropped gives no lines and no
    empty line); the paragraphs of the cells of the table itself play no
    part.  A single cell with a paragraph and one nested table gives the
    lines of the nested table alone. *)
Theorem nested_table_precedence :
  (forall table,
     Docx.has_nested_tables table = true ->
     Docx.process_table_proper_format table
     = join [[]]
         (List.filter truthy
            (map Docx.process_regular_table (Docx.nested_tables table)))
     /\ Docx.process_table_proper_format table
       = Docx.process_table_proper_format (Docx.without_paragraphs table))
  /\ (forall table,
        Docx.has_nested_tables table = true ->
        Forall (fun nested => Docx.process_regular_table nested <> [])
          (Docx.nested_tables table) ->
        Docx.process_table_proper_format table
        = join [[]] (map Docx.process_regular_table (Docx.nested_tables table)))
  /\ (forall paras nested,
        Docx.process_table_proper_format
          (Docx.mkTable [Docx.mkRow [Docx.mkCell paras [nested]]])
        = Docx.process_regular_table nested).
Proof.
  assert (Hnested : forall table,
    Docx.has_nested_tables table = true ->
    Docx.process_table_proper_format table
    = join [[]]
        (List.filter truthy
           (map Docx.process_regular_table (Docx.nested_tables table)))).
  { intros table H. unfold Docx.process_table_proper_format.
    rewrite H. destruct (Docx.rows table) eqn:E.
    - unfold Docx.has_nested_tables in H. by rewrite E in H.
    - apply process_nested_table_content_blocks. }
  assert (Hcells : forall table,
    map Docx.tables (concat (map Docx.cells (Docx.rows (Docx.without_paragraphs table))))
    = map Docx.tables (concat (map Docx.cells (Docx.rows table)))).
  { intros [rs]. simpl. induction rs as [|[cs] rs IH]; [done|].
    simpl. rewrite !map_app, IH. f_equal.
    rewrite map_map. by apply map_ext. }
  split; [|split].
  - intros table H. split; [by apply Hnested|].
    rewrite !Hnested; try done.
    + unfold Docx.nested_tables. by rewrite Hcells.
    + unfold Docx.has_nested_tables in *.
      rewrite <- (existsb_map truthy Docx.tables) in H.
      rewrite <- (existsb_map truthy Docx.tables).
      by rewrite Hcells.
  - intros table H Hall. rewrite Hnested by done. f_equal.
    induction Hall as [|nt nts Hnt _ IH]; [done|]. simpl.
    destruct (Docx.process_regular_table nt); [done|]. simpl. by rewrite IH.
  - intros paras nested. rewrite Hnested by done.
    unfold Docx.nested_tables. simpl.
    by destruct (Docx.process_regular_table nested).
Qed.

Lemma nested_table_precedence_witness :
  Docx.process_table_proper_format Docx.sample_nested
  = [lit "| A | B |"; lit "| --- | --- |"; lit "| x | – |"].
Proof.
  apply (eq_trans
           (proj1 (proj1 nested_table_precedence Docx.sample_nested eq_refl))).
  reflexivity.
Defined.

(** C5 (idempotent normalization).  Cleaning a cell text twice is cleaning
    it once, for [clean_cell_text] (the escaping of pipes, the replacement of
    newline, carriage return and tab, the squeezing and stripping of white
    space, the tightening of percentages and the substitution for [total]),
    and also with the placeholder that stands for an empty result. *)
Theorem normalization_idempotent :
  forall text,
    Docx.clean_cell_text (Docx.clean_cell_text text) = Docx.clean_cell_text text
    /\ Docx.normalize (Docx.normalize text) = Docx.normalize text.
Proof.
  intros text. split; [apply clean_cell_text_idem | apply normalize_idem].
Qed.

(** C1 (width invariant), as the code has it.  The fields of a line are
    counted by its delimiting pipes, in two readings of a backslash before
    a pipe: [fields], where a pipe just after a backslash never delimits, and
    [paired_fields], where a backslash is itself escaped by a backslash before
    it.  In the word-document flattener every table that is rendered (the
    table itself, or each nested table in the nested path) has at least a
    header line and a separator line, and each body line has exactly as many
    fields as the header line, whatever the lengths of the rows, in both
    readings.  The presentation flattener neither pads nor cuts: in the
    first reading the line of a row has as many fields as the row has cells,
    and one field for a row without cells, so a body line has the header's
    number of fields exactly when its row and the first row have the same
    number of cells, a row without cells counting as a row of one; in the
    second reading this holds for the rows whose cell texts hold no backslash,
    while the line of the one cell [a\|b] has two fields. *)
Theorem width_invariant :
  (forall table hdr sep body,
     Docx.process_regular_table table = hdr :: sep :: body ->
     Forall (fun line =>
               fields line = fields hdr /\ paired_fields line = paired_fields hdr)
       body)
  /\ (forall table,
        Docx.process_regular_table table = []
        \/ exists hdr sep body,
             Docx.process_regular_table table = hdr :: sep :: body)
  /\ (forall table,
        Docx.has_nested_tables table = false ->
        Docx.process_table_proper_format table = Docx.process_regular_table table)
  /\ (forall table,
        Docx.has_nested_tables table = true ->
        exists blocks,
          Docx.process_table_proper_format table = join [[]] blocks
          /\ Forall
               (fun block =>
                  exists hdr sep body,
                    block = hdr :: sep :: body
                    /\ Forall
                         (fun line =>
                            fields line = fields hdr
                            /\ paired_fields line = paired_fields hdr)
                         body)
               blocks)
  /\ (forall relpath w table slide_num shape_idx first later,
        Pptx.rows table = first :: later ->
        exists link,
          Pptx._process_table relpath w table slide_num shape_idx
          = (Some
               (Pptx.mkShapeContent (lit "table")
                  ((Pptx.table_line (map Pptx.cell_text (Pptx.cells first))
                      :: Pptx.separator_line (length (Pptx.cells first))
                      :: map
                           (fun row =>
                              Pptx.table_line (map Pptx.cell_text (Pptx.cells row)))
                           later)
                     ++ [[]; link])),
             (Pptx._process_table relpath w table slide_num shape_idx).2)
          /\ Forall
               (fun row =>
                  fields (Pptx.table_line (map Pptx.cell_text (Pptx.cells row)))
                  = Nat.max 1 (length (Pptx.cells row)))
               (first :: later)
          /\ Forall
               (fun row =>
                  fields (Pptx.table_line (map Pptx.cell_text (Pptx.cells row)))
                  = fields (Pptx.table_line (map Pptx.cell_text (Pptx.cells first)))
                  <-> Nat.max 1 (length (Pptx.cells row))
                      = Nat.max 1 (length (Pptx.cells first)))
               later
          /\ Forall
               (fun row =>
                  Forall (fun cell => Forall (fun c => c <> BACKSLASH) (Pptx.text cell))
                    (Pptx.cells row) ->
                  paired_fields (Pptx.table_line (map Pptx.cell_text (Pptx.cells row)))
                  = Nat.max 1 (length (Pptx.cells row)))
               (first :: later))
  /\ Pptx.cell_text (Pptx.mkCell (lit "a\|b")) = lit "a\\|b"
     /\ fields (Pptx.table_line [lit "a\\|b"]) = 1%nat
     /\ paired_fields (Pptx.table_line [lit "a\\|b"]) = 2%nat.
Proof.
  assert (Hwidth : forall table hdr sep body,
    Docx.process_regular_table table = hdr :: sep :: body ->
    Forall (fun line =>
              fields line = fields hdr /\ paired_fields line = paired_fields hdr)
      body).
  { intros table hdr sep body E.
    rewrite process_regular_table_render in E.
    eapply render_width; [|done]. apply extract_table_data_rows. }
  assert (Hshape : forall table,
    Docx.process_regular_table table = []
    \/ exists hdr sep body,
         Docx.process_regular_table table = hdr :: sep :: body).
  { intros table. rewrite process_regular_table_render.
    destruct (Docx.extract_table_data table) as [|h rest]; [by left|].
    right. apply render_shape. done. }
  split; [done|split; [done|split; [|split; [|split]]]].
  - intros table H. unfold Docx.process_table_proper_format. rewrite H.
    destruct (Docx.rows table) eqn:E; [|done]. simpl.
    rewrite process_regular_table_render, extract_table_data_filter, E. done.
  - intros table H. eexists. split.
    + unfold Docx.process_table_proper_format. rewrite H.
      destruct (Docx.rows table) eqn:E.
      * unfold Docx.has_nested_tables in H. by rewrite E in H.
      * apply process_nested_table_content_blocks.
    + apply Forall_forall. intros block Hin.
      apply list_elem_of_In, List.filter_In in Hin as [Hin Hne].
      apply in_map_iff in Hin as (nt & <- & _).
      destruct (Hshape nt) as [E|(hdr & sep & body & E)].
      * by rewrite E in Hne.
      * exists hdr, sep, body. split; [done|]. by eapply Hwidth.
  - intros relpath w table slide_num shape_idx first later E.
    eexists. split; [|split; [|split]].
    + erewrite process_table_rows.
      2:{ rewrite table_rows_map, E. simpl. done. }
      simpl. rewrite length_map, map_map. reflexivity.
    + apply Forall_forall. intros row _. apply pptx_fields_table_line.
    + apply Forall_forall. intros row _. by rewrite !pptx_fields_table_line.
    + apply Forall_forall. intros row _. apply pptx_paired_fields_table_line.
  - split; [by vm_compute|]. split; by vm_compute.
Qed.

Lemma width_invariant_witness :
  Forall (fun line =>
            fields line = fields (lit "| A | B | C |")
            /\ paired_fields line = paired_fields (lit "| A | B | C |"))
    [lit "| x | y | – |"; lit "| p | q | r |"].
Proof.
  apply (proj1 width_invariant
           (Docx.plain_table
              [[lit "A"; lit "B"; lit "C"]; [lit "x"; lit "y"];
               [lit "p"; lit "q"; lit "r"; lit "s"]])
           _ (lit "| --- | --- | --- |")).
  reflexivity.
Defined.

(** The presentation flattener on a header of two cells and a row of one:
    the body line has one field, the header line two. *)
Lemma width_invariant_fails_pptx :
  exists hdr sep row rest w,
    Pptx._process_table Pptx.sample_relpath Pptx.fresh_world
      (Pptx.of_texts [[lit "A"; lit "B"]; [lit "x"]]) 1 (Pptx.IntIdx 0)
    = (Some (Pptx.mkShapeContent (lit "table") (hdr :: sep :: row :: rest)), w)
    /\ hdr = lit "| A | B |" /\ row = lit "| x |"
    /\ fields hdr = 2%nat /\ fields row = 1%nat.
Proof.
  do 5 eexists. split; [by vm_compute|].
  split; [by vm_compute|]. split; [by vm_compute|]. split; by vm_compute.
Qed.

(** C2 (blank-line contract), as the code has it.  The lines that the
    word-document flattener returns have no empty line at their end: the last
    line is a line of a table; it is the caller, [word_to_markdown_pages],
    that adds one empty line after a result that is not empty.  The
    presentation flattener adds one empty line itself after the last line of
    the table, and the line with the link after it. *)
Theorem blank_line_after_table :
  (forall table line,
     last (Docx.process_table_proper_format table) = Some line -> line <> [])
  /\ (forall current_lines table,
        Docx.process_table_proper_format table <> [] ->
        Docx.word_to_markdown_pages_tbl current_lines table
        = current_lines ++ Docx.process_table_proper_format table ++ [[]])
  /\ (forall relpath w table slide_num shape_idx sc w',
        Pptx._process_table relpath w table slide_num shape_idx = (Some sc, w') ->
        exists table_lines link,
          Pptx.content sc = table_lines ++ [[]; link]
          /\ table_lines <> []
          /\ Forall (fun line => line <> []) table_lines
          /\ link <> []).
Proof.
  split; [|split].
  - intros table line. unfold Docx.process_table_proper_format.
    destruct (negb _); [done|].
    destruct (Docx.has_nested_tables table).
    + rewrite process_nested_table_content_join. apply last_join_blocks.
      apply Forall_forall. intros b (td & -> & Hin)%list_elem_of_fmap.
      apply list_elem_of_In, List.filter_In in Hin as [_ Htd].
      split; [by destruct td|apply render_lines].
    + rewrite process_regular_table_render.
      intros E. exact (last_Forall _ _ _ (render_lines _) E).
  - intros current_lines table H. unfold Docx.word_to_markdown_pages_tbl.
    destruct (Docx.process_table_proper_format table); [done|].
    simpl. by rewrite <- app_assoc.
  - intros relpath w table slide_num shape_idx sc w' E.
    destruct (Pptx.table_rows table) as [|first later] eqn:Er.
    + by rewrite process_table_no_rows in E.
    + rewrite (process_table_rows _ _ _ _ _ _ _ Er) in E.
      injection E as <- _.
      exists (Pptx.table_line first :: Pptx.separator_line (length first)
                :: map Pptx.table_line later).
      eexists. split; [reflexivity|].
      split; [done|]. split; [|done].
      do 2 (constructor; [done|]).
      apply Forall_forall. by intros l (r & -> & _)%list_elem_of_fmap.
Qed.

Lemma blank_line_after_table_witness :
  Docx.word_to_markdown_pages_tbl [lit "text"] (Docx.plain_table [[lit "A"]])
  = [lit "text"] ++ Docx.process_table_proper_format (Docx.plain_table [[lit "A"]])
      ++ [[]].
Proof.
  apply (proj1 (proj2 blank_line_after_table)). discriminate.
Defined.

(** The word-document flattener on a table of one cell: the last line that
    it returns is the separator line, not an empty line. *)
Lemma flattener_appends_no_blank_line :
  Docx.process_table_proper_format (Docx.plain_table [[lit "A"]])
  = [lit "| A |"; lit "| --- |"]
  /\ last (Docx.process_table_proper_format (Docx.plain_table [[lit "A"]]))
     <> Some [].
Proof. split; by vm_compute. Qed.

(** C3 (total collapse).  When the text of a cell, after the other steps of
    the cleaning, contains [total] in any case, [clean_cell_text] returns
    exactly [Total]; so it does when the text of the cell itself contains
    [total] in any case, since the other steps keep the word;
    [Grand Total: 1,204] gives [Total]. *)
Theorem total_collapse :
  (forall text,
     contains (lit "total") (lower (Docx.tightened text)) = true ->
     Docx.clean_cell_text text = lit "Total")
  /\ (forall text,
        contains (lit "total") (lower text) = true ->
        Docx.clean_cell_text text = lit "Total")
  /\ Docx.clean_cell_text (lit "Grand Total: 1,204") = lit "Total".
Proof.
  split; [|split; [apply clean_cell_text_total|by vm_compute]].
  intros text H. rewrite clean_cell_text_unfold.
  destruct text; [done|]. by rewrite H.
Qed.

Lemma total_collapse_witness :
  Docx.clean_cell_text (lit "Sub-TOTAL 40 %") = lit "Total".
Proof. apply (proj1 total_collapse). reflexivity. Defined.

(** C7 (purity), as the code has it.  The word-document flattener has no
    effect that outlasts the call: run over any store of list objects, it
    returns the lines that the function of the table alone gives, and it
    leaves every list that was in the store as it was (the lists it extends
    with the placeholder are lists it has made itself); it writes no file.
    The presentation flattener is not pure: for a table with a row it writes
    the data of the table to a JSON file in the data directory and appends
    one entry to [chart_metadata], and changes nothing else; for a table
    without rows it changes nothing. *)
Theorem flattener_effects :
  (forall table st,
     exists ext,
       DocxStore.process_table_proper_format table st
       = (Docx.process_table_proper_format table, st ++ ext))
  /\ (forall relpath w table slide_num shape_idx,
        Pptx.rows table = [] ->
        (Pptx._process_table relpath w table slide_num shape_idx).2 = w)
  /\ (forall relpath w table slide_num shape_idx,
        Pptx.rows table <> [] ->
        let w' := (Pptx._process_table relpath w table slide_num shape_idx).2 in
        Pptx.files w'
        = <[Pptx.data_file w slide_num shape_idx :=
              Pptx.JsonFile
                (Pptx.mkTableData (Pptx.doc_id (Pptx.self w)) slide_num
                   (Pptx.table_rows table))]> (Pptx.files w)
        /\ Pptx.chart_metadata (Pptx.self w')
          = Pptx.chart_metadata (Pptx.self w)
              ++ [Pptx.table_entry w slide_num shape_idx]
        /\ Pptx.output_dir (Pptx.self w') = Pptx.output_dir (Pptx.self w)
        /\ Pptx.data_dir (Pptx.self w') = Pptx.data_dir (Pptx.self w)
        /\ Pptx.doc_id (Pptx.self w') = Pptx.doc_id (Pptx.self w)
        /\ Pptx.chart_counter (Pptx.self w') = Pptx.chart_counter (Pptx.self w)
        /\ Pptx.image_counter (Pptx.self w') = Pptx.image_counter (Pptx.self w)
        /\ w' <> w).
Proof.
  split; [|split].
  - apply process_table_proper_format_run.
  - intros relpath w table slide_num shape_idx E.
    rewrite process_table_no_rows; [done|]. by rewrite table_rows_map, E.
  - intros relpath w table slide_num shape_idx Hrows w'.
    destruct (Pptx.table_rows table) as [|first later] eqn:E.
    { rewrite table_rows_map in E. by destruct (Pptx.rows table). }
    unfold w'. rewrite (process_table_rows _ _ _ _ _ _ _ E). cbn [snd].
    repeat split; try done.
    intros Hw. apply (f_equal (fun x => length (Pptx.chart_metadata (Pptx.self x)))) in Hw.
    simpl in Hw. rewrite length_app in Hw. simpl in Hw. lia.
Qed.

Lemma flattener_effects_witness :
  Pptx.chart_metadata
    (Pptx.self
       (Pptx._process_table Pptx.sample_relpath Pptx.fresh_world
          (Pptx.of_texts [[lit "A"]]) 1 (Pptx.IntIdx 0)).2)
  = Pptx.chart_metadata (Pptx.self Pptx.fresh_world)
      ++ [Pptx.table_entry Pptx.fresh_world 1 (Pptx.IntIdx 0)].
Proof.
  apply (proj2 (proj2 flattener_effects) Pptx.sample_relpath Pptx.fresh_world
           (Pptx.of_texts [[lit "A"]]) 1%N (Pptx.IntIdx 0)).
  discriminate.
Defined.

(** The presentation flattener on a table of one cell, in a converter that
    has written nothing: afterwards there is the file
    [out/data/table_0b5e_1_0.json] and an entry in [chart_metadata]. *)
Lemma presentation_flattener_writes :
  let w' :=
    (Pptx._process_table Pptx.sample_relpath Pptx.fresh_world
       (Pptx.of_texts [[lit "A"]]) 1 (Pptx.IntIdx 0)).2 in
  Pptx.files Pptx.fresh_world !! lit "out/data/table_0b5e_1_0.json" = None
  /\ Pptx.files w' !! lit "out/data/table_0b5e_1_0.json"
     = Some (Pptx.JsonFile (Pptx.mkTableData (lit "0b5e") 1 [[lit "A"]]))
  /\ Pptx.chart_metadata (Pptx.self Pptx.fresh_world) = []
  /\ length (Pptx.chart_metadata (Pptx.self w')) = 1%nat
  /\ w' <> Pptx.fresh_world.
Proof.
  cbv zeta. split; [done|]. split; [by vm_compute|]. split; [done|].
  split; [by vm_compute|].
  intros Hw. apply (f_equal (fun x => length (Pptx.chart_metadata (Pptx.self x)))) in Hw.
  vm_compute in Hw. discriminate.
Qed.

End Claims.
(** * The rest of the two files *)

(** ** Numbers, words and paths *)

Module PyMoreFacts.
Import Py PyMore PyFacts.
Local Open Scope N_scope.

(** *** [str] and [int] of a number *)

Lemma decimal_value_ascii d : d < 10 -> decimal_value (digit_char d) = Some d.
Proof.
  intros Hd. unfold decimal_value, digit_char, decimal_zeros.
  cbn [List.find].
  destruct (N.leb_spec 0x30 (0x30 + d)); [|lia].
  destruct (N.ltb_spec (0x30 + d) (0x30 + 10)); [|lia].
  simpl. f_equal. lia.
Qed.

Lemma str_of_pos_fuel_int fuel n acc :
  n < 2 ^ N.of_nat fuel ->
  int_from 0 (str_of_pos_fuel fuel n acc) = int_from n acc.
Proof.
  revert n acc; induction fuel as [|f IH]; intros n acc Hn.
  - simpl in Hn. assert (n = 0) as -> by lia. done.
  - cbn [str_of_pos_fuel].
    assert (Hmod : n mod 10 < 10) by (apply N.mod_lt; lia).
    pose proof (N.div_mod n 10 ltac:(lia)) as Hdm.
    destruct (N.eqb_spec (n / 10) 0) as [E|E].
    + cbn [int_from]. rewrite decimal_value_ascii by done.
      f_equal. lia.
    + rewrite IH.
      * cbn [int_from]. rewrite decimal_value_ascii by done. f_equal. lia.
      * rewrite Nat2N.inj_succ, N.pow_succ_r' in Hn.
        apply N.Div0.div_lt_upper_bound. lia.
Qed.

Lemma log2_fuel n : n < 2 ^ N.of_nat (S (N.to_nat (N.log2 n))).
Proof.
  rewrite Nat2N.inj_succ, N2Nat.id.
  destruct (N.eq_dec n 0) as [->|Hn]; [done|].
  apply N.log2_spec. lia.
Qed.

Lemma str_of_pos_fuel_digits fuel n acc :
  Forall (fun c => 0x30 <= c <= 0x39) acc ->
  Forall (fun c => 0x30 <= c <= 0x39) (str_of_pos_fuel fuel n acc).
Proof.
  revert n acc; induction fuel as [|f IH]; intros n acc Hacc; [done|].
  cbn [str_of_pos_fuel].
  assert (Hmod : n mod 10 < 10) by (apply N.mod_lt; lia).
  assert (Forall (fun c => 0x30 <= c <= 0x39) (digit_char (n mod 10) :: acc)).
  { constructor; [|done]. unfold digit_char.
    generalize dependent (n mod 10). intros; lia. }
  destruct (n / 10 =? 0); auto.
Qed.

Lemma str_of_pos_fuel_not_nil fuel n acc :
  acc <> [] \/ fuel <> O -> str_of_pos_fuel fuel n acc <> [].
Proof.
  revert n acc; induction fuel as [|f IH]; intros n acc H.
  - simpl. by destruct H.
  - cbn [str_of_pos_fuel]. destruct (n / 10 =? 0); [done|].
    apply IH. by left.
Qed.

(** [str(n)] is made of ASCII digits, and is not empty. *)
Lemma str_of_int_digits n : Forall (fun c => 0x30 <= c <= 0x39) (str_of_int n).
Proof. apply str_of_pos_fuel_digits. constructor. Qed.

Lemma str_of_int_not_nil n : str_of_int n <> [].
Proof. apply str_of_pos_fuel_not_nil. by right. Qed.

(** [int(str(n))] is [n]. *)
Lemma int_of_digits_str_of_int n : int_of_digits (str_of_int n) = Some n.
Proof.
  unfold int_of_digits. pose proof (str_of_int_not_nil n) as Hne.
  destruct (str_of_int n) as [|c t] eqn:E; [done|]. rewrite <- E.
  unfold str_of_int. rewrite str_of_pos_fuel_int by apply log2_fuel. done.
Qed.

Lemma str_of_int_inj n m : str_of_int n = str_of_int m -> n = m.
Proof.
  intros E. apply (f_equal int_of_digits) in E.
  rewrite !int_of_digits_str_of_int in E. by injection E.
Qed.

Lemma ascii_digit_decimal c : 0x30 <= c <= 0x39 -> isdecimal c = true.
Proof.
  intros H. apply isdecimal_block. exists 0x30. split; [by left|lia].
Qed.

Lemma ascii_digit_not_space c : 0x30 <= c <= 0x39 -> isspace c = false.
Proof. intros H. by apply decimal_not_space, ascii_digit_decimal. Qed.

Lemma isdigit_str_of_int n : isdigit (str_of_int n) = true.
Proof.
  unfold isdigit. pose proof (str_of_int_not_nil n) as Hne.
  pose proof (str_of_int_digits n) as Hd.
  destruct (str_of_int n) as [|c t]; [done|]. cbn [truthy andb].
  apply forallb_forall. intros x Hx.
  rewrite Forall_forall in Hd. apply list_elem_of_In, Hd in Hx.
  unfold isdigit_char. by rewrite ascii_digit_decimal.
Qed.

(** *** Words *)

Lemma split_from_solid word w :
  forallb (fun c => negb (isspace c)) w = true ->
  split_from word w = if truthy (word ++ w) then [word ++ w] else [].
Proof.
  revert word; induction w as [|c w IH]; intros word Hw.
  - simpl. by rewrite app_nil_r.
  - simpl in Hw. apply andb_true_iff in Hw as [Hc Hw].
    apply negb_true_iff in Hc. cbn [split_from]. rewrite Hc, IH by done.
    by rewrite <- app_assoc.
Qed.

(** The last word of a text that ends with a space and a word. *)
Lemma last_split_from word s w :
  forallb (fun c => negb (isspace c)) w = true -> w <> [] ->
  last (split_from word (s ++ [SP] ++ w)) = Some w.
Proof.
  intros Hw Hne. revert word; induction s as [|c s IH]; intros word.
  - cbn [app split_from]. change (isspace SP) with true. cbn match.
    rewrite split_from_solid by done. cbn [app].
    destruct w as [|x w]; [done|]. cbn [truthy].
    by destruct (truthy word).
  - cbn [app split_from].
    destruct (isspace c); [destruct (truthy word)|]; rewrite ?last_cons, IH; done.
Qed.

Lemma last_split s w :
  forallb (fun c => negb (isspace c)) w = true -> w <> [] ->
  last (split (s ++ [SP] ++ w)) = Some w.
Proof. apply last_split_from. Qed.


(** *** Suffixes *)

Lemma endswith_true suffix s : endswith suffix s = true <-> exists a, s = a ++ suffix.
Proof.
  unfold endswith. rewrite startswith_true. split.
  - intros [r E]. exists (reverse r).
    apply (f_equal reverse) in E.
    by rewrite reverse_involutive, reverse_app, reverse_involutive in E.
  - intros [a ->]. exists (reverse a). by rewrite reverse_app.
Qed.

(** *** The last index of a character *)

Lemma rfind_from_app i c a b found :
  rfind_from i c (a ++ b) found
  = rfind_from (i + Z.of_nat (length a))%Z c b (rfind_from i c a found).
Proof.
  revert i found; induction a as [|x a IH]; intros i found.
  - simpl. by rewrite Z.add_0_r.
  - cbn [app rfind_from length]. rewrite IH. f_equal. lia.
Qed.

Lemma rfind_from_absent i c s found : c ∉ s -> rfind_from i c s found = found.
Proof.
  revert i found; induction s as [|x s IH]; intros i found H; [done|].
  apply not_elem_of_cons in H as [Hx Hs]. cbn [rfind_from].
  destruct (N.eqb_spec x c); [congruence|]. by apply IH.
Qed.

Lemma rfind_absent c s : c ∉ s -> rfind c s = (-1)%Z.
Proof. apply rfind_from_absent. Qed.

Lemma rfind_last c a b : c ∉ b -> rfind c (a ++ c :: b) = Z.of_nat (length a).
Proof.
  intros Hb. unfold rfind. rewrite rfind_from_app. cbn [rfind_from].
  rewrite N.eqb_refl, rfind_from_absent by done. lia.
Qed.

(** Two texts that agree, each cut at its last [c]. *)
Lemma app_last_inj (c : char) a a' d d' :
  c ∉ d -> c ∉ d' -> a ++ c :: d = a' ++ c :: d' -> a = a' /\ d = d'.
Proof.
  intros Hd Hd' E.
  assert (Hlen : length a = length a').
  { apply Nat2Z.inj. rewrite <- (rfind_last c a d), <- (rfind_last c a' d') by done.
    by rewrite E. }
  apply app_inj_1 in E as [-> [= ->]]; done.
Qed.

Lemma digits_no_underscore n : UNDERSCORE ∉ str_of_int n.
Proof.
  intros H. pose proof (str_of_int_digits n) as Hd.
  rewrite Forall_forall in Hd. apply Hd in H. unfold UNDERSCORE in H. lia.
Qed.

(** Two texts that agree, each cut at its first [c]. *)
Lemma app_first_inj (c : char) d d' r r' :
  c ∉ d -> c ∉ d' -> d ++ c :: r = d' ++ c :: r' -> d = d' /\ r = r'.
Proof.
  revert d'; induction d as [|x d IH]; intros [|x' d'] Hd Hd' E.
  - by injection E as ->.
  - injection E as -> _. exfalso. apply Hd'. by left.
  - injection E as -> _. exfalso. apply Hd. by left.
  - injection E as -> E. apply not_elem_of_cons in Hd as [_ Hd].
    apply not_elem_of_cons in Hd' as [_ Hd'].
    destruct (IH d' Hd Hd' E) as [-> ->]. done.
Qed.

Lemma digits_no_dot n : DOT ∉ str_of_int n.
Proof.
  intros H. pose proof (str_of_int_digits n) as Hd.
  rewrite Forall_forall in Hd. apply Hd in H. unfold DOT in H. lia.
Qed.

(** *** The extension of a file name *)


(** Where the last dot comes after the last slash. *)
Lemma splitext_last_dot stem ext :
  SLASH ∉ stem -> SLASH ∉ ext -> DOT ∉ ext ->
  splitext (stem ++ DOT :: ext)
  = if existsb (fun c => negb (c =? DOT)) stem
    then (stem, DOT :: ext) else (stem ++ DOT :: ext, []).
Proof.
  intros Hs He Hd. unfold splitext.
  rewrite rfind_last by done.
  rewrite rfind_absent.
  - rewrite (proj2 (Z.ltb_lt _ _)) by lia.
    unfold slice. change (-1 + 1)%Z with 0%Z. rewrite Nat2Z.id.
    change (Z.to_nat 0) with O. cbn [drop].
    by rewrite drop_0, Nat.sub_0_r, !take_app_length, drop_app_length.
  - intros [H|H]%elem_of_app; [done|].
    apply elem_of_cons in H as [H|H]; done.
Qed.

(** For a name [stem.docx] without a slash, whose stem has a character that
    is not a dot, [splitext] gives the stem. *)
Lemma splitext_docx stem :
  SLASH ∉ stem -> existsb (fun c => negb (c =? DOT)) stem = true ->
  splitext (stem ++ lit ".docx") = (stem, lit ".docx").
Proof.
  intros Hs Hd. change (lit ".docx") with (DOT :: lit "docx").
  rewrite splitext_last_dot, Hd; [done|done|absent|absent].
Qed.

(** When the stem is made of dots only, [splitext] leaves the name whole. *)
Lemma splitext_dots stem :
  forallb (fun c => c =? DOT) stem = true ->
  splitext (stem ++ lit ".docx") = (stem ++ lit ".docx", []).
Proof.
  intros Hd.
  assert (Hs : SLASH ∉ stem).
  { intros Hin. rewrite forallb_forall in Hd.
    apply list_elem_of_In, Hd in Hin. done. }
  change (lit ".docx") with (DOT :: lit "docx").
  rewrite splitext_last_dot; [|done|absent|absent].
  replace (existsb _ stem) with false; [done|].
  symmetry. apply not_true_is_false. intros (c & Hin & Hc)%existsb_exists.
  rewrite forallb_forall in Hd. apply Hd in Hin. by rewrite Hin in Hc.
Qed.

(** *** The last component of a path *)

Lemma basename_join dir name : SLASH ∉ name -> basename (dir ++ SLASH :: name) = name.
Proof.
  intros H. unfold basename. rewrite rfind_last by done.
  replace (Z.to_nat (Z.of_nat (length dir) + 1)) with (length (dir ++ [SLASH])).
  - change (dir ++ SLASH :: name) with (dir ++ [SLASH] ++ name).
    by rewrite (app_assoc dir), drop_app_length.
  - rewrite length_app. cbn [length]. lia.
Qed.

Lemma basename_plain name : SLASH ∉ name -> basename name = name.
Proof. intros H. unfold basename. by rewrite rfind_absent. Qed.

End PyMoreFacts.

(** ** The pages of a word document *)

Module PagesFacts.
Import Py PyMore Pages PyFacts PyMoreFacts.
Local Open Scope N_scope.

(** *** The level of a heading *)






(** *** The loop over the body *)

Lemma body_loop_paginate doc elements : forall st liness,
  Forall2 (fun e ls => element_lines doc e = inr ls) elements liness ->
  exists st',
    body_loop doc st elements = inr st'
    /\ finish st'
       = markdown_pages st
           ++ paginate (page_number st) (current_lines st)
                (zip (map has_page_break elements) liness)
    /\ (current_lines st <> [] -> current_lines st' <> []).
Proof.
  induction elements as [|e els IH]; intros st liness H.
  - apply Forall2_nil_inv_l in H as ->. by exists st.
  - apply Forall2_cons_inv_l in H as (ls & liness' & He & Hrest & ->).
    cbn [body_loop]. unfold body_step. rewrite He.
    cbn [map zip zip_with paginate].
    destruct (has_page_break e).
    + destruct (IH (mkLoop (markdown_pages st ++ [(page_number st, current_lines st)])
                      ([page_header (page_number st + 1)] ++ ls) (page_number st + 1))
                   liness' Hrest) as (st' & E & F & Hne).
      exists st'. split; [done|].
      cbn [markdown_pages current_lines page_number] in F. rewrite F, <- app_assoc.
      split; [done|]. intros _. by apply Hne.
    + destruct (IH (mkLoop (markdown_pages st) (current_lines st ++ ls) (page_number st))
                   liness' Hrest) as (st' & E & F & Hne).
      exists st'. split; [done|]. split; [done|].
      intros Hc. apply Hne. cbn. by destruct (current_lines st).
Qed.

Lemma body_loop_inr doc elements : forall st st',
  body_loop doc st elements = inr st' ->
  exists liness, Forall2 (fun e ls => element_lines doc e = inr ls) elements liness.
Proof.
  induction elements as [|e els IH]; intros st st' H.
  - exists []. constructor.
  - cbn [body_loop] in H. unfold body_step in H.
    destruct (element_lines doc e) as [x|ls] eqn:He; [done|].
    apply IH in H as (liness & H). exists (ls :: liness). by constructor.
Qed.


(** The pages of a document whose elements all give their lines. *)
Lemma pages_of_paginate doc pages :
  pages_of doc = inr pages <->
  exists liness,
    Forall2 (fun e ls => element_lines doc e = inr ls) (body doc) liness
    /\ pages = paginate 1 [page_header 1] (zip (map has_page_break (body doc)) liness).
Proof.
  unfold pages_of. split.
  - destruct (body_loop _ _ _) as [e|st'] eqn:E; [done|].
    destruct (body_loop_inr _ _ _ _ E) as (liness & H).
    destruct (body_loop_paginate doc (body doc) (mkLoop [] [page_header 1] 1) liness H)
      as (st'' & E' & F & Hne).
    rewrite E in E'. injection E' as <-.
    specialize (Hne ltac:(done)). unfold finish in F.
    cbn [markdown_pages current_lines page_number app] in F.
    destruct (current_lines st') eqn:Ec; [done|]. cbn [truthy].
    intros [= <-]. exists liness. by rewrite <- Ec in *.
  - intros (liness & H & ->).
    destruct (body_loop_paginate doc (body doc) (mkLoop [] [page_header 1] 1) liness H)
      as (st' & -> & F & Hne).
    specialize (Hne ltac:(done)). unfold finish in F.
    cbn [markdown_pages current_lines page_number app] in F.
    destruct (current_lines st') eqn:Ec; [done|]. cbn [truthy].
    by rewrite <- F.
Qed.


(** *** What [paginate] makes *)

Lemma filter_zip_fst {B} (bs : list bool) (ys : list B) :
  length bs = length ys ->
  length (List.filter fst (zip bs ys)) = length (List.filter id bs).
Proof.
  revert ys; induction bs as [|b bs IH]; intros [|y ys] H; try done.
  simpl in *. destruct b; simpl; auto.
Qed.

Lemma filter_map_id {A} (f : A -> bool) l :
  List.filter id (map f l) = map f (List.filter f l).
Proof.
  induction l as [|x l IH]; [done|]. cbn [map List.filter]. unfold id at 1.
  destruct (f x) eqn:E; cbn [map]; by rewrite ?E, IH.
Qed.

Lemma paginate_numbers items : forall n current,
  map fst (paginate n current items)
  = map (fun i => n + N.of_nat i) (seq 0 (S (length (List.filter fst items)))).
Proof.
  induction items as [|[b ls] items IH]; intros n current.
  - cbn [paginate map fst List.filter length seq]. f_equal. lia.
  - cbn [paginate List.filter fst]. destruct b.
    + cbn [map length fst]. rewrite IH.
      set (k := length (List.filter fst items)).
      rewrite <- (cons_seq (S k) 0), <- seq_shift. cbn [map].
      rewrite map_map. f_equal; [lia|]. apply map_ext. intros i. lia.
    + apply IH.
Qed.

Lemma paginate_headers items : forall n current,
  head current = Some (page_header n) ->
  Forall (fun p => head (snd p) = Some (page_header (fst p))) (paginate n current items).
Proof.
  induction items as [|[b ls] items IH]; intros n current H.
  - by constructor.
  - cbn [paginate]. destruct b.
    + constructor; [done|]. by apply IH.
    + apply IH. by destruct current.
Qed.

Lemma paginate_conservation items : forall n h current,
  concat (map (fun p => tail (snd p)) (paginate n (h :: current) items))
  = current ++ concat (map snd items).
Proof.
  induction items as [|[b ls] items IH]; intros n h current.
  - simpl. by rewrite !app_nil_r.
  - cbn [paginate]. destruct b.
    + cbn [map concat snd tail]. by rewrite IH.
    + change ((h :: current) ++ ls) with (h :: (current ++ ls)).
      rewrite IH. cbn [map concat snd]. by rewrite app_assoc.
Qed.

(** The pages up to a break, and the pages from it. *)
Lemma paginate_break pre : forall n current ls post,
  exists before,
    paginate n current (pre ++ (true, ls) :: post)
    = before
        ++ paginate (n + N.of_nat (S (length (List.filter fst pre))))
             (page_header (n + N.of_nat (S (length (List.filter fst pre)))) :: ls)
             post
    /\ length before = S (length (List.filter fst pre)).
Proof.
  induction pre as [|[b l] pre IH]; intros n current ls post.
  - exists [(n, current)]. split; [|done].
    cbn [app paginate List.filter length].
    by replace (n + N.of_nat 1) with (n + 1) by lia.
  - cbn [app paginate List.filter fst]. destruct b.
    + destruct (IH (n + 1) (page_header (n + 1) :: l) ls post) as (before & -> & Hlen).
      exists ((n, current) :: before). cbn [length]. rewrite Hlen. split; [|done].
      cbn [app].
      by replace (n + 1 + N.of_nat (S (length (List.filter fst pre))))
        with (n + N.of_nat (S (S (length (List.filter fst pre))))) by lia.
    + apply IH.
Qed.

(** The first page holds the lines up to the first break. *)
Lemma paginate_first mid : forall n current post,
  Forall (fun item => fst item = false) mid ->
  head (map fst post) <> Some false ->
  head (paginate n current (mid ++ post))
  = Some (n, current ++ concat (map snd mid)).
Proof.
  induction mid as [|[b l] mid IH]; intros n current post Hmid Hpost.
  - cbn [app map concat]. rewrite app_nil_r.
    destruct post as [|[[] l] post]; try done.
  - apply Forall_cons in Hmid as [Hb Hmid]. cbn in Hb. subst b.
    cbn [app paginate]. rewrite IH by done.
    cbn [map concat snd]. by rewrite app_assoc.
Qed.


(** *** The files of the pages *)

Lemma page_name_cut base n :
  base ++ lit "_page_" ++ str_of_int n ++ lit ".md"
  = ((base ++ lit "_page") ++ UNDERSCORE :: str_of_int n) ++ lit ".md".
Proof. rewrite <- !app_assoc. reflexivity. Qed.

Lemma page_name_inj base base' n n' :
  base ++ lit "_page_" ++ str_of_int n ++ lit ".md"
  = base' ++ lit "_page_" ++ str_of_int n' ++ lit ".md" ->
  base = base' /\ n = n'.
Proof.
  rewrite !page_name_cut. intros E%app_inv_tail.
  apply app_last_inj in E as [E1 E2]; [|apply digits_no_underscore..].
  apply app_inv_tail in E1. apply str_of_int_inj in E2. done.
Qed.

Lemma output_path_unfold base n :
  startswith [SLASH] base = false ->
  output_path base n
  = lit "markdown_split_pages/" ++ base ++ lit "_page_" ++ str_of_int n ++ lit ".md".
Proof.
  intros H. unfold output_path, Pptx.path_join.
  replace (startswith _ (base ++ _)) with false; [done|].
  destruct base as [|c base]; [done|]. symmetry. revert H. cbn [app startswith].
  by destruct (_ =? c).
Qed.

Lemma output_path_absolute base n :
  startswith [SLASH] base = true ->
  output_path base n = base ++ lit "_page_" ++ str_of_int n ++ lit ".md".
Proof.
  intros H. unfold output_path, Pptx.path_join.
  replace (startswith _ (base ++ _)) with true; [done|].
  destruct base as [|c base]; [done|]. symmetry. revert H. cbn [app startswith].
  by destruct (_ =? c).
Qed.

Lemma output_path_inj base base' n n' :
  output_path base n = output_path base' n' -> base = base' /\ n = n'.
Proof.
  destruct (startswith [SLASH] base) eqn:Hb, (startswith [SLASH] base') eqn:Hb'.
  - rewrite !output_path_absolute by done. apply page_name_inj.
  - rewrite output_path_absolute, output_path_unfold by done.
    apply startswith_true in Hb as [r ->]. discriminate.
  - rewrite (output_path_unfold base), (output_path_absolute base') by done.
    apply startswith_true in Hb' as [r ->]. discriminate.
  - rewrite !output_path_unfold by done. intros E%app_inv_head.
    by apply page_name_inj.
Qed.

Lemma fold_save_page base pages : forall w,
  NoDup (map fst pages) ->
  (forall n lines, (n, lines) ∈ pages ->
     files (fold_left (save_page base) pages w) !! output_path base n
     = Some (join [NL] lines))
  /\ (forall path, (forall n, n ∈ map fst pages -> path <> output_path base n) ->
       files (fold_left (save_page base) pages w) !! path = files w !! path)
  /\ stdout (fold_left (save_page base) pages w)
     = stdout w
         ++ map (fun page => lit "✅ Saved: " ++ output_path base (fst page)) pages.
Proof.
  induction pages as [|[k ls] pages IH] using rev_ind; intros w Hnd.
  - repeat split; [by intros ?? ?%elem_of_nil|by rewrite app_nil_r].
  - rewrite map_app in Hnd. apply NoDup_app in Hnd as (Hnd & Hk & _).
    destruct (IH w Hnd) as (Hin & Hout & Hprint).
    rewrite fold_left_app. cbn [fold_left save_page files stdout fst snd].
    split; [|split].
    + intros n lines [H|H]%elem_of_app.
      * rewrite lookup_insert_ne; [by apply Hin|].
        intros [_ ->]%output_path_inj. apply (Hk n).
        -- apply list_elem_of_fmap. by exists (n, lines).
        -- cbn. apply list_elem_of_singleton. done.
      * apply list_elem_of_singleton in H as [= -> ->]. by rewrite lookup_insert_eq.
    + intros path Hpath. rewrite lookup_insert_ne.
      * apply Hout. intros n Hn. apply Hpath. rewrite map_app.
        apply elem_of_app. by left.
      * intros <-. apply (Hpath k); [|done]. rewrite map_app.
        apply elem_of_app. right. cbn. by apply list_elem_of_singleton.
    + rewrite Hprint, map_app, <- app_assoc. done.
Qed.

(** The numbers of the pages of a document. *)
Lemma pages_of_numbers doc pages :
  pages_of doc = inr pages ->
  map fst pages
  = map N.of_nat (seq 1 (S (length (List.filter has_page_break (body doc))))).
Proof.
  intros (liness & H & ->)%pages_of_paginate.
  rewrite paginate_numbers, filter_zip_fst, filter_map_id, length_map.
  - rewrite <- seq_shift, map_map. apply map_ext. intros i. lia.
  - rewrite length_map. by eapply Forall2_length.
Qed.

Lemma pages_of_NoDup doc pages : pages_of doc = inr pages -> NoDup (map fst pages).
Proof.
  intros ->%pages_of_numbers. apply NoDup_fmap_2; [|apply NoDup_seq].
  intros ?? ?. lia.
Qed.

(** *** When a paragraph raises *)

Lemma isdigit_not_nil s : isdigit s = true -> s <> [].
Proof. by destruct s. Qed.



(** *** The loop of the script *)

Lemma fold_save_page_files base pages : forall w,
  files (fold_left (save_page base) pages w)
  = fold_left write_file
      (map (fun page => (output_path base (fst page), join [NL] (snd page))) pages)
      (files w).
Proof. induction pages as [|page pages IH]; intros w; [done|]. cbn. by rewrite IH. Qed.

(** The files after a turn of the loop. *)
Lemma main_step_files w entry :
  files (main_step w entry) = fold_left write_file (page_files entry) (files w).
Proof.
  unfold main_step, page_files, word_to_markdown_pages.
  destruct (endswith _ _); [|done]. cbn [andb].
  destruct (is_valid_docx entry); [|done]. cbn [negb].
  destruct (document entry) as [e|doc]; [done|].
  destruct (pages_of doc) as [e|pages]; [done|].
  by rewrite fold_save_page_files.
Qed.

Lemma main_files_agree listing : forall w w',
  files w = files w' -> files (main listing w) = files (main listing w').
Proof.
  induction listing as [|entry listing IH]; intros w w' H; [done|].
  apply IH. by rewrite !main_step_files, H.
Qed.

Lemma write_file_later files0 file later :
  fst file ∉ map fst later ->
  fold_left write_file later (write_file files0 file)
  = write_file (fold_left write_file later files0) file.
Proof.
  revert files0; induction later as [|f later IH]; intros files0 H; [done|].
  cbn [map] in H. apply not_elem_of_cons in H as [Hf H].
  cbn [fold_left]. rewrite <- IH by done. f_equal.
  unfold write_file. by apply insert_insert_ne.
Qed.

(** Writes to different paths can be done in either order. *)
Lemma write_files_comm first second : forall files0,
  (forall path, path ∈ map fst first -> path ∉ map fst second) ->
  fold_left write_file second (fold_left write_file first files0)
  = fold_left write_file first (fold_left write_file second files0).
Proof.
  induction first as [|f first IH]; intros files0 H; [done|].
  cbn [fold_left]. rewrite IH.
  - by rewrite write_file_later by (apply H; left).
  - intros path Hp. apply H. by right.
Qed.

Lemma write_files_outside later path : forall files0,
  path ∉ map fst later -> fold_left write_file later files0 !! path = files0 !! path.
Proof.
  induction later as [|f later IH]; intros files0 H; [done|].
  cbn [map] in H. apply not_elem_of_cons in H as [Hf H].
  cbn [fold_left]. rewrite IH by done. unfold write_file.
  by apply lookup_insert_ne.
Qed.

(** The base name of a file name without a slash has no slash. *)
Lemma splitext_no_slash p : SLASH ∉ p -> SLASH ∉ fst (splitext p).
Proof.
  intros H. unfold splitext.
  destruct (_ <? _)%Z; [|done]. destruct (existsb _ _); [|done].
  cbn [fst]. intros (i & Hi & _)%elem_of_take. apply H.
  by eapply list_elem_of_lookup_2.
Qed.

Lemma no_slash_startswith base : SLASH ∉ base -> startswith [SLASH] base = false.
Proof.
  intros H. apply not_true_is_false. intros [r ->]%startswith_true.
  apply H. by left.
Qed.

(** The paths that a turn writes to. *)
Lemma page_files_paths entry path :
  path ∈ map fst (page_files entry) ->
  endswith (lit ".docx") (filename entry) = true
  /\ exists n, path = output_path (fst (splitext (filename entry))) n.
Proof.
  unfold page_files. destruct (endswith _ _); [|by intros ?%elem_of_nil].
  cbn [andb]. destruct (is_valid_docx _); [|by intros ?%elem_of_nil].
  destruct (document entry) as [e|doc]; [by intros ?%elem_of_nil|].
  destruct (pages_of doc) as [e|pages]; [by intros ?%elem_of_nil|].
  rewrite map_map. intros ([n ls] & -> & _)%list_elem_of_fmap. eauto.
Qed.

Lemma page_files_skipped entry : converts entry = false -> page_files entry = [].
Proof.
  unfold converts, page_files.
  destruct (endswith _ _ && is_valid_docx entry); [|done]. cbn [andb].
  destruct (document entry) as [e|doc]; [done|]. by destruct (pages_of doc).
Qed.

End PagesFacts.

(** ** The lines of a word table stay on one line *)

Module DocxLineFacts.
Import Py PyMore Re Docx PyFacts ReFacts DocxFacts.
Local Open Scope N_scope.

Lemma quiet_join sep parts :
  quiet sep -> Forall (fun part => quiet part) parts -> quiet (join sep parts).
Proof.
  unfold quiet. intros Hsep. induction 1 as [|p ps Hp Hps IH]; [constructor|].
  destruct ps as [|q ps]; [done|].
  change (join sep (p :: q :: ps)) with (p ++ sep ++ join sep (q :: ps)).
  rewrite !Forall_app. auto.
Qed.

Lemma quiet_spaced s : spaced s = true -> quiet s.
Proof.
  intros H. apply Forall_forall. intros c Hc%list_elem_of_In.
  by apply (spaced_only_space s).
Qed.

Lemma quiet_solid s : forallb (fun c => negb (isspace c)) s = true -> quiet s.
Proof.
  intros H. apply Forall_forall. intros c Hc%list_elem_of_In Hs.
  rewrite forallb_forall in H. apply H in Hc. by rewrite Hs in Hc.
Qed.

Lemma quiet_cell_text cell : quiet (cell_text cell).
Proof.
  rewrite cell_text_normalize. unfold normalize, py_or.
  destruct (truthy (clean_cell_text _)) eqn:E.
  - rewrite clean_cell_text_unfold in *.
    destruct (join _ _) as [|c t]; [done|].
    destruct (contains _ _); [by apply quiet_solid|].
    apply quiet_spaced, tightened_spaced.
  - by apply quiet_solid.
Qed.

Lemma quiet_table_line row :
  Forall (fun cell => quiet cell) row -> quiet (table_line row).
Proof.
  intros H. unfold table_line, quiet. rewrite !Forall_app. split; [|split].
  - by apply quiet_spaced.
  - apply quiet_join; [by apply quiet_spaced|done].
  - by apply quiet_spaced.
Qed.

Lemma quiet_render td :
  Forall (fun row => Forall (fun cell => quiet cell) row) td ->
  Forall (fun line => quiet line) (render td).
Proof.
  destruct td as [|h body]; [constructor|]. intros [Hh Hb]%Forall_cons.
  cbn [render]. constructor; [|constructor].
  - by apply quiet_table_line.
  - apply quiet_table_line, Forall_replicate. by apply quiet_solid.
  - apply Forall_map. eapply Forall_impl; [exact Hb|].
    intros r Hr. unfold body_line. apply quiet_table_line, Forall_take.
    rewrite pad_spec. apply Forall_app. split; [done|].
    apply Forall_replicate. by apply quiet_solid.
Qed.

Lemma quiet_extract_table_data table :
  Forall (fun row => Forall (fun cell => quiet cell) row) (extract_table_data table).
Proof.
  rewrite extract_table_data_filter. apply Forall_forall.
  intros r [Hin _]%list_elem_of_In%List.filter_In.
  apply in_map_iff in Hin as (row & <- & _). rewrite row_data_map.
  apply Forall_map, Forall_forall. intros cell _. apply quiet_cell_text.
Qed.

Lemma quiet_process_regular_table table :
  Forall (fun line => quiet line) (process_regular_table table).
Proof.
  rewrite process_regular_table_render.
  apply quiet_render, quiet_extract_table_data.
Qed.

Lemma Forall_join_blocks {A} (P : list A -> Prop) (blocks : list (list (list A))) :
  P [] -> Forall (Forall P) blocks -> Forall P (join [[]] blocks).
Proof.
  intros Hnil. induction 1 as [|b bs Hb Hbs IH]; [constructor|].
  destruct bs as [|b2 bs]; [done|].
  change (join [[]] (b :: b2 :: bs)) with (b ++ [[]] ++ join [[]] (b2 :: bs)).
  rewrite !Forall_app. split; [done|]. split; [by constructor|done].
Qed.

End DocxLineFacts.

(** ** The data files of the tables of a presentation *)

Module PptxFileFacts.
Import Py PyMore Pptx PyFacts PyMoreFacts PptxFacts.
Local Open Scope N_scope.

Lemma table_filename_inj w slide_num shape_idx slide_num' shape_idx' :
  table_filename w slide_num shape_idx = table_filename w slide_num' shape_idx' ->
  slide_num = slide_num' /\ str_of_idx shape_idx = str_of_idx shape_idx'.
Proof.
  unfold table_filename. intros E. do 3 apply app_inv_head in E.
  change (lit "_" ++ ?x) with (UNDERSCORE :: x) in E.
  apply app_first_inj in E as [E1 E2]; [|apply digits_no_underscore..].
  apply str_of_int_inj in E1. done.
Qed.

Lemma path_join_relative_inj dir name name' :
  startswith [SLASH] name = false -> startswith [SLASH] name' = false ->
  path_join dir name = path_join dir name' -> name = name'.
Proof.
  unfold path_join. intros -> ->.
  destruct (_ || _); intros E; repeat apply app_inv_head in E; done.
Qed.

(** The data files of two tables of a converter are the same file only for
    the same slide and the same written index of the shape. *)
Lemma data_file_inj w slide_num shape_idx slide_num' shape_idx' :
  data_file w slide_num shape_idx = data_file w slide_num' shape_idx' ->
  slide_num = slide_num' /\ str_of_idx shape_idx = str_of_idx shape_idx'.
Proof.
  unfold data_file. intros E%path_join_relative_inj; [|done..].
  apply app_inv_tail in E. by apply (table_filename_inj w).
Qed.

(** *** The indices of the shapes in groups *)

(** A text of digits is cut off where a text starts at which a number
    ends. *)
Lemma digits_cut d : forall d' r r',
  Forall (fun c => 0x30 <= c <= 0x39) d -> Forall (fun c => 0x30 <= c <= 0x39) d' ->
  stops r -> stops r' -> d ++ r = d' ++ r' -> d = d' /\ r = r'.
Proof.
  induction d as [|x d IH]; intros [|x' d'] r r' Hd Hd' Hr Hr' E.
  - done.
  - cbn [app] in E. subst r. apply Forall_cons in Hd' as [Hx _]. by destruct Hr.
  - cbn [app] in E. subst r'. apply Forall_cons in Hd as [Hx _]. by destruct Hr'.
  - injection E as -> E. apply Forall_cons in Hd as [_ Hd].
    apply Forall_cons in Hd' as [_ Hd'].
    destruct (IH d' r r' Hd Hd' Hr Hr' E) as [-> ->]. done.
Qed.

Lemma place_idx_str i path :
  str_of_idx (place_idx i path) = str_of_int i ++ group_part path.
Proof.
  unfold place_idx, group_part.
  assert (H : forall idx,
            str_of_idx (fold_left group_idx path idx)
            = str_of_idx idx ++ concat (map (fun i => lit "_g" ++ str_of_int i) path)).
  { induction path as [|g path IH]; intros idx; cbn [fold_left map concat].
    - by rewrite app_nil_r.
    - rewrite IH. cbn [group_idx str_of_idx]. by rewrite <- !app_assoc. }
  apply H.
Qed.

Lemma group_part_stops path : stops (group_part path).
Proof.
  destruct path as [|g path]; [done|]. unfold group_part, stops.
  cbn [map concat]. change (lit "_g") with [UNDERSCORE; 0x67]. cbn [app].
  unfold UNDERSCORE. lia.
Qed.

Lemma group_part_inj path : forall path', group_part path = group_part path' -> path = path'.
Proof.
  induction path as [|g path IH]; intros [|g' path'] E; try done.
  unfold group_part in E. cbn [map concat] in E. fold (group_part path) in E.
  fold (group_part path') in E. rewrite <- !app_assoc in E.
  apply app_inv_head in E.
  apply digits_cut in E as [E1 E2];
    [|apply str_of_int_digits|apply str_of_int_digits
     |apply group_part_stops|apply group_part_stops].
  apply str_of_int_inj in E1. apply IH in E2. by subst.
Qed.

(** Shapes at different places of a slide have differently written
    indices. *)
Lemma place_idx_inj i path i' path' :
  str_of_idx (place_idx i path) = str_of_idx (place_idx i' path') ->
  i = i' /\ path = path'.
Proof.
  rewrite !place_idx_str. intros E.
  apply digits_cut in E as [E1 E2];
    [|apply str_of_int_digits|apply str_of_int_digits
     |apply group_part_stops|apply group_part_stops].
  apply str_of_int_inj in E1. by apply group_part_inj in E2.
Qed.

(** *** Line feeds *)

Lemma cell_text_no_line_feed cell : Forall (fun c => c <> NL) (cell_text cell).
Proof.
  unfold cell_text.
  apply replace_Forall; [by repeat constructor|].
  apply Forall_impl with (P := fun c => c <> NL); [|auto].
  apply replace_Forall; [by repeat constructor|].
  apply Forall_forall. auto.
Qed.

Lemma join_Forall (P : char -> Prop) sep parts :
  Forall P sep -> Forall (Forall P) parts -> Forall P (join sep parts).
Proof.
  intros Hsep. induction 1 as [|p ps Hp Hps IH]; [constructor|].
  destruct ps as [|q ps]; [done|].
  change (join sep (p :: q :: ps)) with (p ++ sep ++ join sep (q :: ps)).
  rewrite !Forall_app. auto.
Qed.

Lemma table_line_no_line_feed row :
  Forall (Forall (fun c => c <> NL)) row -> Forall (fun c => c <> NL) (table_line row).
Proof.
  intros H. unfold table_line. rewrite !Forall_app. split; [|split].
  - by repeat constructor.
  - apply join_Forall; [by repeat constructor|done].
  - by repeat constructor.
Qed.

Lemma separator_line_no_line_feed n : Forall (fun c => c <> NL) (separator_line n).
Proof.
  unfold separator_line. apply Forall_app. split; [by repeat constructor|].
  induction n as [|n IH]; [constructor|]. cbn [replicate concat].
  apply Forall_app. split; [by repeat constructor|done].
Qed.

Lemma table_rows_no_line_feed table :
  Forall (Forall (Forall (fun c => c <> NL))) (table_rows table).
Proof.
  rewrite table_rows_map. apply Forall_map, Forall_forall. intros row _.
  apply Forall_map, Forall_forall. intros cell _. apply cell_text_no_line_feed.
Qed.

End PptxFileFacts.

(** ** The slides of a presentation *)

Module SlidesFacts.
Import Py PyMore Slides PyFacts PyMoreFacts.
Local Open Scope N_scope.

(** *** Titles *)

Lemma strip_truthy_trimmed s :
  truthy (strip s) = true -> strip s <> [] /\ trimmed (strip s) = true.
Proof. intros H. split; [by destruct (strip s)|apply strip_trimmed]. Qed.

Lemma first_short_text_spec shapes t :
  first_short_text shapes = Some t ->
  t <> [] /\ trimmed t = true /\ (length t < 100)%nat.
Proof.
  induction shapes as [|shape rest IH]; [done|]. cbn [first_short_text].
  destruct (text_frame shape) as [frame|]; [|done].
  destruct (truthy (strip (frame_text frame))) eqn:Ht; [|done]. cbn [andb].
  destruct (Nat.ltb_spec (length (strip (frame_text frame))) 100); [|done].
  intros [= <-]. destruct (strip_truthy_trimmed _ Ht). done.
Qed.

Lemma last_str_of_int n : exists d, last (str_of_int n) = Some d /\ 0x30 <= d <= 0x39.
Proof.
  pose proof (str_of_int_digits n) as Hd. pose proof (str_of_int_not_nil n) as Hne.
  destruct (last (str_of_int n)) as [d|] eqn:E.
  - exists d. split; [done|]. rewrite Forall_forall in Hd.
    apply Hd. by apply last_Some_elem_of.
  - by apply last_None in E.
Qed.

Lemma default_title_trimmed n : trimmed (lit "Slide " ++ str_of_int n) = true.
Proof.
  unfold trimmed, ends. rewrite last_app.
  destruct (last_str_of_int n) as (d & -> & Hd).
  by rewrite (ascii_digit_not_space d).
Qed.

(** *** The lines of a text shape *)

Lemma process_text_lines shape frame :
  text_frame shape = Some frame ->
  _process_text shape
  = Some
      (Pptx.mkShapeContent (if is_title shape then lit "title" else lit "text")
         (let lines :=
            map (text_line (is_title shape))
              (List.filter (fun paragraph => truthy (strip (text paragraph)))
                 (paragraphs frame)) in
          if truthy lines then lines ++ [[]] else [])).
Proof.
  intros E. unfold _process_text. rewrite E. do 2 f_equal.
  assert (Hloop : forall ps acc,
            fold_left
              (fun text_content paragraph =>
                 if truthy (strip (text paragraph))
                 then text_content ++ [text_line (is_title shape) paragraph]
                 else text_content) ps acc
            = acc ++ map (text_line (is_title shape))
                       (List.filter (fun paragraph => truthy (strip (text paragraph))) ps)).
  { induction ps as [|p ps IH]; intros acc; cbn [fold_left List.filter map].
    - by rewrite app_nil_r.
    - rewrite IH. destruct (truthy (strip (text p))); [|done].
      cbn [map]. by rewrite <- app_assoc. }
  rewrite Hloop. cbn [app]. by destruct (map _ _).
Qed.

(** *** The lines of a slide *)

Section WithShapes.
Variable _process_shape :
  Pptx.World -> Shape -> N -> Pptx.ShapeIdx -> option Pptx.ShapeContent * Pptx.World.

Lemma extend_with_concat lines contents :
  extend_with lines contents = lines ++ concat (map Pptx.content contents).
Proof.
  unfold extend_with. revert lines.
  induction contents as [|c cs IH]; intros lines; cbn [fold_left map concat].
  - by rewrite app_nil_r.
  - rewrite IH. destruct (Pptx.content c) as [|l ls]; cbn [truthy app].
    + done.
    + by rewrite <- app_assoc.
Qed.

Lemma sort_shapes_spec slide_num shapes : forall shape_idx st,
  let contents :=
    omap id (shape_contents _process_shape (world st) slide_num shape_idx shapes).1 in
  fold_left (sort_shape _process_shape slide_num)
    (zip (seq shape_idx (length shapes)) shapes) st
  = mkSorted
      (shape_contents _process_shape (world st) slide_num shape_idx shapes).2
      (text_content st ++ List.filter is_text contents)
      (media_content st ++ List.filter (fun c => negb (is_text c)) contents).
Proof.
  induction shapes as [|shape rest IH]; intros shape_idx st.
  - cbn. rewrite !app_nil_r. by destruct st.
  - cbn [length seq zip zip_with fold_left shape_contents]. rewrite IH.
    unfold sort_shape.
    destruct (_process_shape (world st) shape slide_num
                (Pptx.IntIdx (N.of_nat shape_idx)))
      as [[c|] w1] eqn:E1.
    + fold (is_text c).
      destruct (is_text c) eqn:Ec;
        cbn [world text_content media_content];
        destruct (shape_contents _process_shape w1 slide_num (S shape_idx) rest)
          as [contents w2];
        cbn [fst snd omap list_omap id List.filter]; rewrite Ec; cbn [negb];
        by rewrite <- ?app_assoc.
    + cbn [world text_content media_content].
      by destruct (shape_contents _process_shape w1 slide_num (S shape_idx) rest)
        as [contents w2].
Qed.

Lemma process_slide_lines w slide slide_num :
  let contents :=
    omap id (shape_contents _process_shape w slide_num 0 (shapes slide)).1 in
  let media := List.filter (fun c => negb (is_text c)) contents in
  _process_slide _process_shape w slide slide_num
  = (slide_intro slide slide_num
       ++ concat (map Pptx.content (List.filter is_text contents))
       ++ (if truthy media
           then ([NL] ++ lit "### Charts and Media" ++ [NL])
                  :: concat (map Pptx.content media)
           else []),
     (shape_contents _process_shape w slide_num 0 (shapes slide)).2).
Proof.
  intros contents media. unfold _process_slide, slide_intro.
  rewrite (sort_shapes_spec slide_num (shapes slide) 0 (mkSorted w [] [])).
  cbn [world text_content media_content]. rewrite !app_nil_l.
  fold contents. fold media. f_equal.
  destruct (notes_slide slide) as [f|]; [destruct (truthy (_extract_notes f))|];
    destruct (truthy media);
    rewrite ?extend_with_concat, ?app_nil_r, <- ?app_assoc; reflexivity.
Qed.

(** *** The lines of the presentation *)

Lemma process_slide_heading w slide slide_num :
  exists later,
    (_process_slide _process_shape w slide slide_num).1
    = slide_heading slide_num (_extract_slide_title slide slide_num) :: later.
Proof. rewrite process_slide_lines. cbn [fst]. unfold slide_intro. eauto. Qed.

Lemma contents_loop l : forall lines,
  fold_left
    (fun markdown_lines '(i, slide) =>
       let slide_title := _extract_slide_title slide (N.of_nat i) in
       markdown_lines ++ [contents_line (N.of_nat i) slide_title])
    l lines
  = lines
      ++ map (fun '(i, slide) =>
                contents_line (N.of_nat i) (_extract_slide_title slide (N.of_nat i)))
           l.
Proof.
  induction l as [|[i slide] l IH]; intros lines; cbn [fold_left map].
  - by rewrite app_nil_r.
  - by rewrite IH, <- app_assoc.
Qed.

Lemma slides_loop l : forall lines w,
  let after :=
    fold_left
      (fun '(markdown_lines, w) '(slide_num, slide) =>
         let '(slide_markdown, w) :=
           _process_slide _process_shape w slide (N.of_nat slide_num) in
         let markdown_lines := markdown_lines ++ slide_markdown in
         (markdown_lines ++ [[NL] ++ lit "---" ++ [NL]], w))
      l (lines, w) in
  (forall line, line ∈ lines -> line ∈ after.1)
  /\ (forall slide_num slide,
        (slide_num, slide) ∈ l ->
        slide_heading (N.of_nat slide_num)
          (_extract_slide_title slide (N.of_nat slide_num)) ∈ after.1).
Proof.
  induction l as [|[k s] l IH]; intros lines w; cbn [fold_left].
  - split; [done|]. by intros ?? ?%elem_of_nil.
  - destruct (process_slide_heading w s (N.of_nat k)) as [later Hs].
    destruct (_process_slide _process_shape w s (N.of_nat k)) as [slide_markdown w'].
    cbn [fst] in Hs. subst slide_markdown.
    destruct (IH ((lines ++ slide_heading (N.of_nat k)
                              (_extract_slide_title s (N.of_nat k)) :: later)
                    ++ [[NL] ++ lit "---" ++ [NL]]) w') as [Hkeep Hin].
    split.
    + intros line Hl. apply Hkeep. rewrite !elem_of_app. auto.
    + intros slide_num slide [[= -> ->]|H]%elem_of_cons; [|by apply Hin].
      apply Hkeep. rewrite !elem_of_app, elem_of_cons. auto.
Qed.

End WithShapes.

(** A line is a part of the lines joined by line breaks. *)
Lemma join_mentions (line : str) lines :
  line ∈ lines -> mentions line (join [NL] lines).
Proof.
  induction lines as [|l ls IH]; [by intros ?%elem_of_nil|].
  intros [->|H]%elem_of_cons.
  - destruct ls as [|l2 ls].
    + exists [], []. cbn [join]. by rewrite app_nil_r.
    + exists [], ([NL] ++ join [NL] (l2 :: ls)). done.
  - destruct ls as [|l2 ls]; [by apply elem_of_nil in H|].
    destruct (IH H) as (a & b & E).
    exists (l ++ [NL] ++ a), b.
    change (join [NL] (l :: l2 :: ls)) with (l ++ [NL] ++ join [NL] (l2 :: ls)).
    rewrite E, <- !app_assoc. done.
Qed.

Lemma numbered_lookup {A} (l : list A) k i x :
  l !! i = Some x -> ((k + i)%nat, x) ∈ zip (seq k (length l)) l.
Proof.
  intros H. apply (list_elem_of_lookup_2 _ i).
  apply lookup_zip_with_Some. exists (k + i)%nat, x. repeat split; [|done].
  apply lookup_seq. split; [done|]. by eapply lookup_lt_Some.
Qed.

End SlidesFacts.

(** ** The files of the pictures *)

Module ImagesFacts.
Import Py PyMore Images PyFacts PyMoreFacts.
Local Open Scope N_scope.

Lemma image_name_inj (doc : str) s k e s' k' e' :
  lit "image_" ++ doc ++ lit "_" ++ str_of_int s ++ lit "_" ++ str_of_int k
    ++ lit "." ++ e
  = lit "image_" ++ doc ++ lit "_" ++ str_of_int s' ++ lit "_" ++ str_of_int k'
      ++ lit "." ++ e' ->
  s = s' /\ k = k' /\ e = e'.
Proof.
  intros E. do 3 apply app_inv_head in E.
  change (lit "_" ++ ?x) with (UNDERSCORE :: x) in E.
  apply app_first_inj in E as [E1 E]; [|apply digits_no_underscore..].
  change (lit "." ++ ?x) with (DOT :: x) in E.
  apply app_first_inj in E as [E2 E3]; [|apply digits_no_dot..].
  apply str_of_int_inj in E1, E2. done.
Qed.

Lemma image_path_inj c s k image s' k' image' :
  image_path c s k image = image_path c s' k' image' -> s = s' /\ k = k'.
Proof.
  unfold image_path. intros E.
  apply PptxFileFacts.path_join_relative_inj in E; [|done..].
  apply image_name_inj in E as (? & ? & _). done.
Qed.

Section WithOsPath.
Variable relpath : str -> str -> str.

(** What a call leaves as it is, and what it does to the counter. *)
Lemma process_image_self w image slide_num :
  let w' := (_process_image relpath w image slide_num).2 in
  output_dir (self w') = output_dir (self w)
  /\ images_dir (self w') = images_dir (self w)
  /\ doc_id (self w') = doc_id (self w)
  /\ image_counter (self w') = image_counter (self w) + 1.
Proof. by destruct image. Qed.

Lemma process_image_files w image slide_num :
  files (_process_image relpath w image slide_num).2
  = match image with
    | inl _ => files w
    | inr image =>
        <[image_path (self w) slide_num (image_counter (self w) + 1) image
            := blob image]> (files w)
    end.
Proof.
  destruct image as [e|image]; [done|].
  cbn [_process_image snd files self images_dir doc_id image_counter].
  unfold image_path. by rewrite <- !app_assoc.
Qed.

Lemma process_image_entries w image slide_num :
  length (chart_metadata (self (_process_image relpath w image slide_num).2))
  = (length (chart_metadata (self w))
     + match image with inl _ => 0 | inr _ => 1 end)%nat.
Proof.
  destruct image; cbn [_process_image snd self chart_metadata].
  - lia.
  - by rewrite length_app.
Qed.

Lemma image_path_self w image slide_num s k img :
  image_path (self (_process_image relpath w image slide_num).2) s k img
  = image_path (self w) s k img.
Proof. by destruct image. Qed.

(** Later calls leave the files of the earlier numbers as they are. *)
Lemma process_images_keep pictures : forall w path,
  (forall s k img, image_counter (self w) < k -> path <> image_path (self w) s k img) ->
  files (process_images relpath w pictures) !! path = files w !! path.
Proof.
  induction pictures as [|[image slide_num] pictures IH]; intros w path Hpath; [done|].
  cbn [process_images fold_left fst snd].
  fold (process_images relpath (_process_image relpath w image slide_num).2 pictures).
  rewrite IH.
  - rewrite process_image_files. destruct image as [e|image]; [done|].
    apply lookup_insert_ne. intros <-. eapply Hpath; [|done]. lia.
  - intros s k img Hk. rewrite image_path_self. apply Hpath.
    destruct (process_image_self w image slide_num) as (_ & _ & _ & Hc).
    cbv zeta in Hc. rewrite Hc in Hk. lia.
Qed.

End WithOsPath.

End ImagesFacts.

(** * Further properties of the two converters *)

Section Further.
Import Py PyMore Pages PyFacts PyMoreFacts PagesFacts.
Local Open Scope N_scope.

(** ** The pages of a word document ([word_to_markdown_pages]) *)

(** X1 (page numbers).  When [word_to_markdown_pages] gets through the body
    of a document, its pages are numbered 1, 2, ..., k+1 in this order, where
    k is the number of elements of the body that hold a page break, and the
    first line of every page is the header with the number of this page.  A
    document without elements still has its page 1. *)
Theorem pages_numbered doc pages :
  pages_of doc = inr pages ->
  map fst pages
  = map N.of_nat (seq 1 (S (length (List.filter has_page_break (body doc)))))
  /\ Forall (fun page => head (snd page) = Some (page_header (fst page))) pages.
Proof.
  intros H. split; [by apply pages_of_numbers|].
  apply pages_of_paginate in H as (liness & _ & ->).
  by apply paginate_headers.
Qed.

Lemma pages_numbered_witness :
  map fst sample_pages = [1; 2]
  /\ Forall (fun page => head (snd page) = Some (page_header (fst page))) sample_pages.
Proof.
  apply (pages_numbered sample_document sample_pages). reflexivity.
Defined.

(** X2 (no line lost).  The lines of the pages after their headers, taken
    page after page, are the lines that the elements of the body give, in
    the order of the body: the split into pages loses, repeats and reorders
    nothing. *)
Theorem pages_keep_lines doc pages :
  pages_of doc = inr pages ->
  exists liness,
    Forall2 (fun element lines => element_lines doc element = inr lines)
      (body doc) liness
    /\ concat (map (fun page => tail (snd page)) pages) = concat liness.
Proof.
  intros (liness & H & ->)%pages_of_paginate. exists liness. split; [done|].
  rewrite paginate_conservation. cbn [app]. f_equal.
  rewrite snd_zip; [done|]. rewrite length_map.
  apply Forall2_length in H. lia.
Qed.

Lemma pages_keep_lines_witness :
  exists liness,
    Forall2 (fun element lines => element_lines sample_document element = inr lines)
      (body sample_document) liness
    /\ concat (map (fun page => tail (snd page)) sample_pages) = concat liness.
Proof.
  apply (pages_keep_lines sample_document sample_pages). reflexivity.
Defined.

(** X3 (a page break starts a page).  An element that holds a page break
    opens a new page: the page after as many pages as there are breaks up to
    this element holds its header, then the lines of the element itself, then
    those of the elements that follow up to the next element with a break.
    So the whole element moves to the new page, also what comes before the
    break inside it. *)
Theorem page_after_break doc pages pre element mid post liness :
  pages_of doc = inr pages ->
  body doc = pre ++ element :: mid ++ post ->
  has_page_break element = true ->
  Forall (fun x => has_page_break x = false) mid ->
  head (map has_page_break post) <> Some false ->
  Forall2 (fun x lines => element_lines doc x = inr lines) (element :: mid) liness ->
  let k := S (length (List.filter has_page_break pre)) in
  pages !! k
  = Some (N.of_nat (S k), page_header (N.of_nat (S k)) :: concat liness).
Proof.
  intros Hp Hbody Hbreak Hmid Hpost Hl k.
  apply pages_of_paginate in Hp as (all & Hall & ->). rewrite Hbody in *.
  apply Forall2_app_inv_l in Hall as (lpre & lrest & Hpre & Hrest & ->).
  apply Forall2_cons_inv_l in Hrest as (le & lrest' & He & Hrest & ->).
  apply Forall2_app_inv_l in Hrest as (lmid & lpost & Hm & Hpo & ->).
  assert (liness = le :: lmid) as ->.
  { apply Forall2_cons_inv_l in Hl as (le' & lmid' & He' & Hm' & ->).
    f_equal; [congruence|].
    clear -Hm Hm'. revert lmid' Hm'.
    induction Hm as [|x l xs ls Hx _ IH]; intros lmid' Hm'.
    - by apply Forall2_nil_inv_l in Hm'.
    - apply Forall2_cons_inv_l in Hm' as (l' & ls' & Hx' & Hm' & ->).
      f_equal; [congruence|by apply IH]. }
  rewrite map_app. cbn [map]. rewrite Hbreak, map_app.
  rewrite zip_with_app by (rewrite length_map; by eapply Forall2_length).
  cbn [zip_with].
  rewrite zip_with_app by (rewrite length_map; by eapply Forall2_length).
  destruct (paginate_break (zip (map has_page_break pre) lpre) 1 [page_header 1] le
              (zip (map has_page_break mid) lmid ++ zip (map has_page_break post) lpost))
    as (before & -> & Hlen).
  assert (Hk : length (List.filter fst (zip (map has_page_break pre) lpre))
               = length (List.filter has_page_break pre)).
  { rewrite filter_zip_fst, filter_map_id, length_map; [done|].
    rewrite length_map. by eapply Forall2_length. }
  rewrite Hk in *. fold k in Hlen |- *.
  rewrite lookup_app_r by lia. rewrite Hlen, Nat.sub_diag.
  replace (1 + N.of_nat k) with (N.of_nat (S k)) by lia.
  rewrite <- head_lookup, paginate_first.
  - do 3 f_equal. cbn [concat app]. f_equal.
    rewrite snd_zip; [done|]. rewrite length_map.
    apply Forall2_length in Hm. lia.
  - clear -Hmid Hm. revert lmid Hm.
    induction Hmid as [|x xs Hx _ IH]; intros lmid Hm.
    + apply Forall2_nil_inv_l in Hm as ->. constructor.
    + apply Forall2_cons_inv_l in Hm as (l & ls & _ & Hm & ->).
      cbn [map zip_with]. constructor; [done|]. by apply IH.
  - destruct post as [|x post]; [by apply Forall2_nil_inv_l in Hpo as ->|].
    apply Forall2_cons_inv_l in Hpo as (l & ls & _ & _ & ->). done.
Qed.

Lemma page_after_break_witness :
  sample_pages !! 1%nat
  = Some (2, page_header 2
             :: concat [[lit "Second page"; []]; [lit "## More"; []]]).
Proof.
  apply (page_after_break sample_document sample_pages
           [mkElement 0 W_P [mkNode W_P ∅]]
           (mkElement 1 W_P [mkNode W_P ∅; break_node])
           [mkElement 2 W_P [mkNode W_P ∅]] []).
  - reflexivity.
  - reflexivity.
  - reflexivity.
  - repeat constructor.
  - discriminate.
  - repeat constructor.
Defined.

(** X4 (the files of the pages).  After a call that gets through the body,
    the file of every page holds the lines of this page joined by line
    breaks, no other file has changed, and one line [Saved] has been printed
    for every page, in the order of the pages. *)
Theorem pages_written word_file doc base w pages :
  pages_of doc = inr pages ->
  let w' := snd (word_to_markdown_pages word_file (inr doc) base w) in
  (forall n lines, (n, lines) ∈ pages ->
     files w' !! output_path base n = Some (join [NL] lines))
  /\ (forall path, (forall n, n ∈ map fst pages -> path <> output_path base n) ->
       files w' !! path = files w !! path)
  /\ stdout w'
     = stdout w
         ++ map (fun page => lit "✅ Saved: " ++ output_path base (fst page)) pages.
Proof.
  intros H. unfold word_to_markdown_pages. rewrite H. cbn [snd].
  apply fold_save_page. by eapply pages_of_NoDup.
Qed.

Lemma pages_written_witness :
  let w' :=
    snd (word_to_markdown_pages (lit "in/report.docx") (inr sample_document)
           (lit "report") empty_world) in
  (forall n lines, (n, lines) ∈ sample_pages ->
     files w' !! output_path (lit "report") n = Some (join [NL] lines))
  /\ (forall path,
        (forall n, n ∈ map fst sample_pages -> path <> output_path (lit "report") n) ->
        files w' !! path = files empty_world !! path)
  /\ stdout w'
     = stdout empty_world
         ++ map (fun page => lit "✅ Saved: " ++ output_path (lit "report") (fst page))
              sample_pages.
Proof.
  apply (pages_written (lit "in/report.docx") sample_document (lit "report")
           empty_world sample_pages).
  reflexivity.
Defined.

(** X5 (two pages, two files).  The path of a page tells the base name and
    the number of the page: the pages of one document, and the pages of
    documents with different base names, never go to the same file. *)
Theorem page_files_distinct base base' n n' :
  output_path base n = output_path base' n' -> base = base' /\ n = n'.
Proof. apply output_path_inj. Qed.

Lemma page_files_distinct_witness : lit "a" = lit "a" /\ 12 = 12.
Proof. apply (page_files_distinct (lit "a") (lit "a") 12 12). reflexivity. Defined.

(** X6 (the line of a heading).  A paragraph with text, whose style name is
    [Heading], any words, and a number [n] as the last word, gives a line of
    [n] hash signs, a space and the stripped text, and an empty line after
    it; for [n = 0] the line starts with the space, and there is no upper
    bound on the number of hash signs. *)
Theorem heading_line para words n :
  truthy (strip (p_text para)) = true ->
  p_style para = styled (lit "Heading" ++ words ++ [SP] ++ str_of_int n) ->
  paragraph_lines para
  = inr [replicate (N.to_nat n) HASH ++ [SP] ++ strip (p_text para); []].
Proof.
  intros Ht Hs. unfold paragraph_lines. rewrite Ht, Hs. cbn [styled s_name].
  replace (startswith _ _) with true by (symmetry; apply startswith_true; eauto).
  rewrite app_assoc, last_split.
  - by rewrite isdigit_str_of_int, int_of_digits_str_of_int.
  - apply forallb_forall. intros c Hc%list_elem_of_In.
    pose proof (str_of_int_digits n) as Hd. rewrite Forall_forall in Hd.
    apply Hd in Hc. by rewrite ascii_digit_not_space.
  - apply str_of_int_not_nil.
Qed.

Lemma heading_line_witness :
  paragraph_lines (mkParagraph 0 (lit " Scope ") (styled (lit "Heading 3")))
  = inr [replicate (N.to_nat 3) HASH ++ [SP] ++ strip (lit " Scope "); []].
Proof.
  apply (heading_line (mkParagraph 0 (lit " Scope ") (styled (lit "Heading 3"))) [] 3);
    reflexivity.
Defined.



(** ** The loop over the input folder (the script of [new.py]) *)

(** X8 (the names of the page files).  For a file [stem.docx] of the input
    folder that is a valid archive and that python-docx reads, where the stem
    has a character other than a dot, a turn of the loop leaves every page
    [n] of the document in [markdown_split_pages/stem_page_n.md]. *)
Theorem main_step_page_files w entry stem doc pages n lines :
  filename entry = stem ++ lit ".docx" ->
  SLASH ∉ stem ->
  existsb (fun c => negb (c =? DOT)) stem = true ->
  is_valid_docx entry = true ->
  document entry = inr doc ->
  pages_of doc = inr pages ->
  (n, lines) ∈ pages ->
  files (main_step w entry)
    !! (lit "markdown_split_pages/" ++ stem ++ lit "_page_" ++ str_of_int n
          ++ lit ".md")
  = Some (join [NL] lines).
Proof.
  intros Hname Hslash Hdot Hvalid Hdoc Hpages Hin.
  assert (Hends : endswith (lit ".docx") (filename entry) = true).
  { rewrite Hname. apply endswith_true. eauto. }
  assert (Hbase : fst (splitext (filename entry)) = stem).
  { by rewrite Hname, splitext_docx. }
  rewrite main_step_files. unfold page_files.
  rewrite Hends, Hvalid, Hbase, Hdoc, Hpages. cbn [andb].
  rewrite <- output_path_unfold by by apply no_slash_startswith.
  rewrite <- (fold_save_page_files stem pages w).
  apply fold_save_page; [by eapply pages_of_NoDup|done].
Qed.

Lemma main_step_page_files_witness :
  files (main_step empty_world sample_entry)
    !! (lit "markdown_split_pages/" ++ lit "report" ++ lit "_page_" ++ str_of_int 2
          ++ lit ".md")
  = Some (join [NL] [page_header 2; lit "Second page"; []; lit "## More"; []]).
Proof.
  apply (main_step_page_files empty_world sample_entry (lit "report")
           sample_document sample_pages).
  - reflexivity.
  - vm_compute. intros H. repeat (apply elem_of_cons in H as [H|H]; [discriminate|]).
    by apply elem_of_nil in H.
  - reflexivity.
  - reflexivity.
  - reflexivity.
  - reflexivity.
  - right. left.
Defined.

(** X9 (writes stay in the output folder).  Whatever the entries of the
    input folder are and hold, as long as their names have no slash (they are
    names of a directory listing), the loop changes no file outside
    [markdown_split_pages/]: in particular it never touches its input. *)
Theorem main_writes_in_output_folder listing w path :
  Forall (fun entry => SLASH ∉ filename entry) listing ->
  startswith (lit "markdown_split_pages/") path = false ->
  files (main listing w) !! path = files w !! path.
Proof.
  intros Hnames Hpath. revert w.
  induction Hnames as [|entry listing Hentry _ IH]; intros w; [done|].
  cbn [main fold_left]. fold (main listing (main_step w entry)).
  rewrite IH, main_step_files. apply write_files_outside.
  intros (_ & n & ->)%page_files_paths.
  rewrite output_path_unfold in Hpath
    by by apply no_slash_startswith, splitext_no_slash.
  apply not_true_iff_false in Hpath. apply Hpath, startswith_true. eauto.
Qed.

Lemma main_writes_in_output_folder_witness :
  files (main [sample_entry] empty_world) !! lit "word inmaa data/report.docx"
  = files empty_world !! lit "word inmaa data/report.docx".
Proof.
  apply (main_writes_in_output_folder [sample_entry] empty_world).
  - constructor; [|constructor].
    vm_compute. intros H. repeat (apply elem_of_cons in H as [H|H]; [discriminate|]).
    by apply elem_of_nil in H.
  - reflexivity.
Defined.

(** X10 (the order of the listing).  [os.listdir] gives the entries in any
    order.  When the names that end in [.docx] have different base names (as
    [splitext] cuts them), the files at the end of the loop are the same for
    every order of the listing; only the order of the printed lines
    changes. *)
Theorem main_order_irrelevant listing listing' w :
  listing ≡ₚ listing' ->
  NoDup (map (fun entry => fst (splitext (filename entry)))
           (filter (fun entry => endswith (lit ".docx") (filename entry) = true)
              listing)) ->
  files (main listing w) = files (main listing' w).
Proof.
  intros Hperm. revert w.
  induction Hperm as [|x l l' _ IH|x y l|l l' l'' H1 IH1 H2 IH2]; intros w Hnd.
  - done.
  - cbn [main fold_left]. apply IH.
    rewrite filter_cons in Hnd. destruct (decide _); [|done].
    cbn [map] in Hnd. by apply NoDup_cons in Hnd as [_ Hnd].
  - cbn [main fold_left]. apply main_files_agree.
    rewrite !main_step_files. apply write_files_comm.
    intros path (Hy & n & ->)%page_files_paths (Hx & n' & E)%page_files_paths.
    apply output_path_inj in E as [E _].
    rewrite !filter_cons in Hnd.
    destruct (decide _) as [_|?]; [|done]. destruct (decide _) as [_|?]; [|done].
    cbn [map] in Hnd. apply NoDup_cons in Hnd as [Hnd _].
    apply Hnd. rewrite E. by left.
  - rewrite IH1 by done. apply IH2.
    eapply NoDup_Permutation_proper; [|exact Hnd].
    symmetry. apply fmap_Permutation. by apply filter_Permutation.
Qed.

Lemma main_order_irrelevant_witness :
  files (main [sample_entry; mkDirEntry (lit "notes.txt") None (inl [])] empty_world)
  = files (main [mkDirEntry (lit "notes.txt") None (inl []); sample_entry] empty_world).
Proof.
  apply (main_order_irrelevant
           [sample_entry; mkDirEntry (lit "notes.txt") None (inl [])]
           [mkDirEntry (lit "notes.txt") None (inl []); sample_entry]).
  - apply perm_swap.
  - vm_compute. repeat constructor. by intros H%elem_of_nil.
Defined.

(** X11 (a failure stays local).  An entry of the input folder that is not
    converted, because its name does not end in [.docx], because it is no
    valid archive, because python-docx cannot read it or because its body
    raises, changes no file and does not stop the loop: the files at the end
    are those that the loop gives for the converted entries alone. *)
Theorem main_skips_failures listing w :
  files (main listing w) = files (main (List.filter converts listing) w).
Proof.
  revert w. induction listing as [|entry listing IH]; intros w; [done|].
  cbn [List.filter]. destruct (converts entry) eqn:E.
  - cbn [main fold_left]. apply IH.
  - cbn [main fold_left]. fold (main listing (main_step w entry)).
    rewrite IH. apply main_files_agree.
    by rewrite main_step_files, page_files_skipped.
Qed.

(** ** The lines of a word table *)

(** X12 (a table row is one line).  In every line that the word-document
    flattener gives for a table, the only white-space characters are
    spaces: whatever line breaks, tabs or other separators the cells hold, no
    row of the table is broken over several lines of the page file. *)
Theorem table_lines_unbroken table :
  Forall quiet (Docx.process_table_proper_format table).
Proof.
  unfold Docx.process_table_proper_format.
  destruct (negb _); [constructor|]. destruct (Docx.has_nested_tables table).
  - rewrite DocxFacts.process_nested_table_content_blocks.
    apply DocxLineFacts.Forall_join_blocks; [constructor|].
    apply Forall_forall. intros block [Hin _]%list_elem_of_In%List.filter_In.
    apply in_map_iff in Hin as (nested & <- & _).
    apply DocxLineFacts.quiet_process_regular_table.
  - apply DocxLineFacts.quiet_process_regular_table.
Qed.

(** ** The tables of a presentation ([_process_table]) *)

(** X13 (two tables, two data files).  The index of the shape goes into
    the name of the data file as it is written: the number of a shape of the
    slide, or the text [<idx>_g<i>] that [_process_group] makes for the shape
    number [i] of the group with the index [idx].  The data files of two
    tables that differ in the slide or in this written index are different
    files: after both tables have been processed, each file holds the rows
    of its own table, and [chart_metadata] has the two entries in the order
    of the calls.  The written indices of shapes at different places of a
    slide differ, through any nesting of groups. *)
Theorem table_files_kept :
  (forall relpath w table table' slide_num shape_idx slide_num' shape_idx',
     (slide_num, Pptx.str_of_idx shape_idx)
     <> (slide_num', Pptx.str_of_idx shape_idx') ->
     Pptx.rows table <> [] ->
     Pptx.rows table' <> [] ->
     let w1 := snd (Pptx._process_table relpath w table slide_num shape_idx) in
     let w2 := snd (Pptx._process_table relpath w1 table' slide_num' shape_idx') in
     Pptx.files w2 !! Pptx.data_file w slide_num shape_idx
     = Some (Pptx.JsonFile
               (Pptx.mkTableData (Pptx.doc_id (Pptx.self w)) slide_num
                  (Pptx.table_rows table)))
     /\ Pptx.files w2 !! Pptx.data_file w slide_num' shape_idx'
        = Some (Pptx.JsonFile
                  (Pptx.mkTableData (Pptx.doc_id (Pptx.self w)) slide_num'
                     (Pptx.table_rows table')))
     /\ Pptx.chart_metadata (Pptx.self w2)
        = Pptx.chart_metadata (Pptx.self w)
            ++ [Pptx.table_entry w slide_num shape_idx;
                Pptx.table_entry w slide_num' shape_idx'])
  /\ (forall i path i' path',
        Pptx.str_of_idx (Pptx.place_idx i path)
        = Pptx.str_of_idx (Pptx.place_idx i' path') ->
        i = i' /\ path = path').
Proof.
  split; [|apply PptxFileFacts.place_idx_inj].
  intros relpath w table table' slide_num shape_idx slide_num' shape_idx'
    Hne Hrows Hrows' w1 w2.
  destruct (Pptx.table_rows table) as [|first later] eqn:E.
  { rewrite PptxFacts.table_rows_map in E. by destruct (Pptx.rows table). }
  destruct (Pptx.table_rows table') as [|first' later'] eqn:E'.
  { rewrite PptxFacts.table_rows_map in E'. by destruct (Pptx.rows table'). }
  unfold w2, w1.
  rewrite (PptxFacts.process_table_rows relpath w _ _ _ _ _ E). cbn [snd].
  rewrite (PptxFacts.process_table_rows relpath _ _ _ _ _ _ E'). cbn [snd].
  cbn [Pptx.append_metadata Pptx.dump_json Pptx.files Pptx.self Pptx.chart_metadata
       Pptx.doc_id].
  change (Pptx.data_file (Pptx.append_metadata _ _) slide_num' shape_idx')
    with (Pptx.data_file w slide_num' shape_idx').
  change (Pptx.table_entry (Pptx.append_metadata _ _) slide_num' shape_idx')
    with (Pptx.table_entry w slide_num' shape_idx').
  split; [|split].
  - rewrite lookup_insert_ne, lookup_insert_eq; [done|].
    intros [E1 E2]%PptxFileFacts.data_file_inj. apply Hne. by rewrite E1, E2.
  - by rewrite lookup_insert_eq.
  - by rewrite <- app_assoc.
Qed.

Lemma table_files_kept_witness :
  let w1 :=
    snd (Pptx._process_table Pptx.sample_relpath Pptx.fresh_world
           (Pptx.of_texts [[lit "a"]]) 1 (Pptx.IntIdx 3)) in
  let w2 :=
    snd (Pptx._process_table Pptx.sample_relpath w1 (Pptx.of_texts [[lit "b"]]) 1
           (Pptx.group_idx (Pptx.IntIdx 3) 0)) in
  Pptx.files w2 !! Pptx.data_file Pptx.fresh_world 1 (Pptx.IntIdx 3)
  = Some (Pptx.JsonFile
            (Pptx.mkTableData (Pptx.doc_id (Pptx.self Pptx.fresh_world)) 1
               (Pptx.table_rows (Pptx.of_texts [[lit "a"]]))))
  /\ Pptx.files w2 !! Pptx.data_file Pptx.fresh_world 1 (Pptx.group_idx (Pptx.IntIdx 3) 0)
     = Some (Pptx.JsonFile
               (Pptx.mkTableData (Pptx.doc_id (Pptx.self Pptx.fresh_world)) 1
                  (Pptx.table_rows (Pptx.of_texts [[lit "b"]]))))
  /\ Pptx.chart_metadata (Pptx.self w2)
     = Pptx.chart_metadata (Pptx.self Pptx.fresh_world)
         ++ [Pptx.table_entry Pptx.fresh_world 1 (Pptx.IntIdx 3);
             Pptx.table_entry Pptx.fresh_world 1 (Pptx.group_idx (Pptx.IntIdx 3) 0)].
Proof.
  apply (proj1 table_files_kept Pptx.sample_relpath Pptx.fresh_world
           (Pptx.of_texts [[lit "a"]]) (Pptx.of_texts [[lit "b"]])
           1 (Pptx.IntIdx 3) 1 (Pptx.group_idx (Pptx.IntIdx 3) 0));
    discriminate.
Defined.

(** X14 (a row of a presentation table is one line).  When
    [_process_table] gives a content, the table has a first row, and the
    lines are: the line of the cell texts of the first row, the separator
    line for as many cells, the line of the cell texts of every later row in
    the order of the rows, then an empty line and the line of the link to
    the data file.  No line of a row and no separator line has a line feed in
    it, whatever the cells hold. *)
Theorem presentation_rows_unbroken relpath w table slide_num shape_idx shape_content w' :
  Pptx._process_table relpath w table slide_num shape_idx = (Some shape_content, w') ->
  exists first later,
    map (fun row => map Pptx.cell_text (Pptx.cells row)) (Pptx.rows table)
    = first :: later
    /\ Pptx.content shape_content
       = (Pptx.table_line first :: Pptx.separator_line (length first)
            :: map Pptx.table_line later)
           ++ [[];
               Pptx.link_line
                 (relpath (Pptx.data_file w slide_num shape_idx)
                    (Pptx.output_dir (Pptx.self w)))]
    /\ Forall (fun line => Forall (fun c => c <> NL) line)
         (Pptx.table_line first :: Pptx.separator_line (length first)
            :: map Pptx.table_line later).
Proof.
  intros H. destruct (Pptx.table_rows table) as [|first later] eqn:E.
  { by rewrite PptxFacts.process_table_no_rows in H. }
  rewrite (PptxFacts.process_table_rows relpath w _ _ _ _ _ E) in H.
  injection H as <- _. exists first, later.
  split; [by rewrite <- PptxFacts.table_rows_map|]. split; [reflexivity|].
  pose proof (PptxFileFacts.table_rows_no_line_feed table) as Hrows.
  rewrite E in Hrows. apply Forall_cons in Hrows as [Hfirst Hlater].
  constructor; [by apply PptxFileFacts.table_line_no_line_feed|].
  constructor; [apply PptxFileFacts.separator_line_no_line_feed|].
  apply Forall_map. eapply Forall_impl; [exact Hlater|].
  intros row Hrow. by apply PptxFileFacts.table_line_no_line_feed.
Qed.

Lemma presentation_rows_unbroken_witness :
  exists first later,
    map (fun row => map Pptx.cell_text (Pptx.cells row))
      (Pptx.rows (Pptx.of_texts [[[0x61; 0x0A; 0x62]; lit "c"]; [lit "d|e"]]))
    = first :: later
    /\ Pptx.content
         (Pptx.mkShapeContent (lit "table")
            [lit "| a b | c |"; lit "|---|---|"; lit "| d\|e |"; [];
             Pptx.link_line (lit "data/table.json")])
       = (Pptx.table_line first :: Pptx.separator_line (length first)
            :: map Pptx.table_line later)
           ++ [[];
               Pptx.link_line
                 (Pptx.sample_relpath
                    (Pptx.data_file Pptx.fresh_world 1 (Pptx.IntIdx 0))
                    (Pptx.output_dir (Pptx.self Pptx.fresh_world)))]
    /\ Forall (fun line => Forall (fun c => c <> NL) line)
         (Pptx.table_line first :: Pptx.separator_line (length first)
            :: map Pptx.table_line later).
Proof.
  apply (presentation_rows_unbroken Pptx.sample_relpath Pptx.fresh_world
           (Pptx.of_texts [[[0x61; 0x0A; 0x62]; lit "c"]; [lit "d|e"]]) 1
           (Pptx.IntIdx 0) _
           (Pptx._process_table Pptx.sample_relpath Pptx.fresh_world
              (Pptx.of_texts [[[0x61; 0x0A; 0x62]; lit "c"]; [lit "d|e"]]) 1
              (Pptx.IntIdx 0)).2).
  reflexivity.
Defined.

(** ** The text of the slides ([test.py]) *)

(** X15 (the title of a slide).  [_extract_slide_title] never gives an
    empty title, and the title has no white space at its ends: it is the
    stripped text of the title placeholder or of a shape, and these are only
    taken when not empty, or else [Slide n]. *)
Theorem slide_title_not_blank slide slide_num :
  Slides._extract_slide_title slide slide_num <> []
  /\ trimmed (Slides._extract_slide_title slide slide_num) = true.
Proof.
  assert (Hshapes :
    forall from_shapes,
      from_shapes
      = match Slides.first_short_text (Slides.shapes slide) with
        | Some text => text
        | None => lit "Slide " ++ str_of_int slide_num
        end ->
      from_shapes <> [] /\ trimmed from_shapes = true).
  { intros from_shapes ->.
    destruct (Slides.first_short_text (Slides.shapes slide)) as [t|] eqn:E.
    - by apply SlidesFacts.first_short_text_spec in E as (? & ? & _).
    - split; [done|apply SlidesFacts.default_title_trimmed]. }
  unfold Slides._extract_slide_title.
  destruct (Slides.title_text slide) as [t|]; [|by apply Hshapes].
  destruct (truthy (strip t)) eqn:Ht; [|by apply Hshapes].
  by apply SlidesFacts.strip_truthy_trimmed.
Qed.

(** X16 (the lines of a text shape).  For a shape with a text frame,
    [_process_text] gives one line for every paragraph that has more than
    white space, in the order of the paragraphs, and one empty line after
    them; paragraphs without text leave no trace, and a frame without any
    text gives no line at all, not even the empty one.  The kind is [title]
    when the placeholder type has [title] in its name, whatever the case of
    the letters, and [text] otherwise. *)
Theorem text_shape_lines shape frame :
  Slides.text_frame shape = Some frame ->
  let with_text :=
    List.filter (fun paragraph => truthy (strip (Slides.text paragraph)))
      (Slides.paragraphs frame) in
  Slides._process_text shape
  = Some
      (Pptx.mkShapeContent
         (if Slides.is_title shape then lit "title" else lit "text")
         (if truthy with_text
          then map (Slides.text_line (Slides.is_title shape)) with_text ++ [[]]
          else [])).
Proof.
  intros H with_text. rewrite (SlidesFacts.process_text_lines shape frame H).
  do 2 f_equal. cbv zeta. fold with_text. by destruct with_text.
Qed.

Lemma text_shape_lines_witness :
  Slides._process_text
    (Slides.mkShape
       (Some (Slides.mkTextFrame (lit "Sales")
                [Slides.mkParagraph (lit "Sales") 0; Slides.mkParagraph (lit "  ") 0;
                 Slides.mkParagraph (lit "up") 1]))
       None)
  = Some
      (Pptx.mkShapeContent (lit "text")
         [lit "Sales" ++ [NL]; lit "  - up" ++ [NL]; []]).
Proof.
  apply (eq_trans
           (text_shape_lines
              (Slides.mkShape
                 (Some (Slides.mkTextFrame (lit "Sales")
                          [Slides.mkParagraph (lit "Sales") 0;
                           Slides.mkParagraph (lit "  ") 0;
                           Slides.mkParagraph (lit "up") 1]))
                 None)
              _ eq_refl)).
  reflexivity.
Defined.

(** X17 (text before media).  Whatever [_process_shape] gives for the
    shapes, the lines of a slide are: the heading, the layout and the notes;
    then the lines of all contents of kind [text] or [title], in the order
    of the shapes; then, if some shape gave a content of another kind, the
    line [Charts and Media] and the lines of these contents, in the order of
    the shapes.  So a text box placed after a chart on the slide comes
    before it in the Markdown.  The shapes are processed once each, from
    first to last. *)
Theorem slide_text_before_media _process_shape w slide slide_num :
  let contents :=
    omap id (Slides.shape_contents _process_shape w slide_num 0 (Slides.shapes slide)).1 in
  let media := List.filter (fun c => negb (Slides.is_text c)) contents in
  Slides._process_slide _process_shape w slide slide_num
  = (Slides.slide_intro slide slide_num
       ++ concat (map Pptx.content (List.filter Slides.is_text contents))
       ++ (if truthy media
           then ([NL] ++ lit "### Charts and Media" ++ [NL])
                  :: concat (map Pptx.content media)
           else []),
     (Slides.shape_contents _process_shape w slide_num 0 (Slides.shapes slide)).2).
Proof. apply SlidesFacts.process_slide_lines. Qed.

(** X18 (the table of contents matches the slides).  In the Markdown of a
    presentation, every slide has its entry in the table of contents and its
    heading, with the same number, the same title and the same anchor
    [slide-n], so that the link of the entry leads to the heading. *)
Theorem contents_match_slides _process_shape w slides pptx_file_path now i slide :
  slides !! i = Some slide ->
  let n := N.of_nat (S i) in
  let slide_title := Slides._extract_slide_title slide n in
  let markdown :=
    (Slides._generate_markdown _process_shape w slides pptx_file_path now).1 in
  mentions (Slides.contents_line n slide_title) markdown
  /\ mentions (Slides.slide_heading n slide_title) markdown.
Proof.
  intros Hi n slide_title markdown.
  pose proof (SlidesFacts.numbered_lookup slides 1 i slide Hi) as Hin.
  unfold markdown, Slides._generate_markdown.
  rewrite SlidesFacts.contents_loop.
  match goal with
  | |- context [fold_left ?f ?l (?lines, w)] =>
      pose proof (SlidesFacts.slides_loop _process_shape l lines w) as [Hkeep Hhead];
      destruct (fold_left f l (lines, w)) as [markdown_lines w'] eqn:E
  end.
  cbn [fst] in *. split; apply SlidesFacts.join_mentions.
  - apply Hkeep. rewrite !elem_of_app. left. right.
    apply list_elem_of_fmap. exists (S i, slide). split; [done|exact Hin].
  - exact (Hhead (S i) slide Hin).
Qed.

Lemma contents_match_slides_witness :
  let markdown :=
    (Slides._generate_markdown Slides.text_only Pptx.fresh_world
       [Slides.sample_slide] (lit "deck.pptx") (lit "2024-01-01 10:00:00")).1 in
  mentions (Slides.contents_line 1 (lit "Results")) markdown
  /\ mentions (Slides.slide_heading 1 (lit "Results")) markdown.
Proof.
  apply (contents_match_slides Slides.text_only Pptx.fresh_world [Slides.sample_slide]
           (lit "deck.pptx") (lit "2024-01-01 10:00:00") 0 Slides.sample_slide).
  reflexivity.
Defined.

(** X19 (the title of the presentation).  When the presentation has no
    slide, or its first slide has no title text and no shape with a text of
    1 to 99 characters, the title of the presentation is
    [os.path.splitext(os.path.basename(pptx_file_path))[0]], with the [os.path]
    of POSIX: for a path made of a directory part, which is empty or ends
    with a slash, and of a name [stem.pptx] whose stem has no slash and is
    not made of dots only, it is the stem.  So it is [test] for the path
    [test.pptx] of the script as well as for [decks/test.pptx]. *)
Theorem presentation_title_from_file slides pptx_file_path :
  match slides with
  | [] => True
  | first_slide :: _ =>
      match Slides.title_text first_slide with
      | Some title => truthy (strip title) = false
      | None => True
      end
      /\ Slides.first_short_text (Slides.shapes first_slide) = None
  end ->
  Slides._extract_presentation_title slides pptx_file_path
  = fst (splitext (basename pptx_file_path))
  /\ forall dir stem,
       pptx_file_path = dir ++ stem ++ lit ".pptx" ->
       dir = [] \/ last dir = Some SLASH ->
       SLASH ∉ stem ->
       existsb (fun c => negb (c =? DOT)) stem = true ->
       Slides._extract_presentation_title slides pptx_file_path = stem.
Proof.
  intros Hslides.
  assert (Htitle : Slides._extract_presentation_title slides pptx_file_path
                   = fst (splitext (basename pptx_file_path))).
  { unfold Slides._extract_presentation_title.
    destruct slides as [|first_slide rest]; [done|].
    destruct Hslides as [Htitle Hshapes].
    unfold Slides._extract_slide_title. rewrite Hshapes.
    destruct (Slides.title_text first_slide) as [title|]; [rewrite Htitle|]; done. }
  split; [done|].
  intros dir stem -> Hdir Hslash Hdot. rewrite Htitle.
  assert (Hname : SLASH ∉ stem ++ lit ".pptx").
  { intros [H|H]%elem_of_app; [done|]. revert H. absent. }
  assert (Hbase : basename (dir ++ stem ++ lit ".pptx") = stem ++ lit ".pptx").
  { destruct Hdir as [->|[dir' ->]%last_Some].
    - by apply basename_plain.
    - rewrite <- app_assoc. cbn [app]. by apply basename_join. }
  rewrite Hbase. change (lit ".pptx") with (DOT :: lit "pptx").
  rewrite splitext_last_dot, Hdot; [done|done|absent|absent].
Qed.

Lemma presentation_title_from_file_witness :
  Slides._extract_presentation_title [Slides.untitled_slide] (lit "test.pptx")
  = lit "test".
Proof.
  apply (proj2 (presentation_title_from_file [Slides.untitled_slide] (lit "test.pptx")
                  (conj eq_refl eq_refl))
           [] (lit "test")).
  - reflexivity.
  - by left.
  - absent.
  - reflexivity.
Defined.

(** ** The pictures of a presentation ([_process_image]) *)

(** X20 (the counter counts the calls).  [_process_image] adds one to
    [image_counter] before it reads the picture, so after the pictures of a
    list the counter has grown by the number of all pictures, while
    [chart_metadata] has grown by one entry for every picture that could be
    read: the number that the summary reports as extracted images counts
    the pictures that raised as well. *)
Theorem image_counter_counts_calls relpath w pictures :
  let w' := Images.process_images relpath w pictures in
  Images.image_counter (Images.self w')
  = Images.image_counter (Images.self w) + N.of_nat (length pictures)
  /\ length (Images.chart_metadata (Images.self w'))
     = (length (Images.chart_metadata (Images.self w))
        + length (List.filter
                    (fun picture : (str + Images.Image) * N =>
                       match fst picture with inl _ => false | inr _ => true end)
                    pictures))%nat.
Proof.
  revert w. induction pictures as [|[image slide_num] pictures IH]; intros w.
  - cbn. split; lia.
  - cbn [Images.process_images fold_left fst snd].
    fold (Images.process_images relpath
            (Images._process_image relpath w image slide_num).2 pictures).
    destruct (IH (Images._process_image relpath w image slide_num).2) as [-> ->].
    destruct (ImagesFacts.process_image_self relpath w image slide_num)
      as (_ & _ & _ & Hc).
    cbv zeta in Hc. rewrite Hc, ImagesFacts.process_image_entries.
    cbn [length List.filter fst]. destruct image; cbn [length]; split; lia.
Qed.

(** X21 (no picture overwrites another).  The file of a picture is named
    after the slide and the value of the counter, so the pictures of a list
    go to different files: after all of them have been processed, the file of
    every picture that could be read still holds the bytes of this picture,
    whatever the extensions and the slide numbers are. *)
Theorem images_kept relpath w pictures i image slide_num :
  pictures !! i = Some (inr image, slide_num) ->
  Images.files (Images.process_images relpath w pictures)
    !! Images.image_path (Images.self w) slide_num
         (Images.image_counter (Images.self w) + N.of_nat (S i)) image
  = Some (Images.blob image).
Proof.
  revert w i.
  induction pictures as [|[image0 slide0] pictures IH]; intros w i Hi; [done|].
  cbn [Images.process_images fold_left fst snd].
  fold (Images.process_images relpath
          (Images._process_image relpath w image0 slide0).2 pictures).
  destruct (ImagesFacts.process_image_self relpath w image0 slide0)
    as (_ & _ & _ & Hc).
  cbv zeta in Hc. destruct i as [|i].
  - injection Hi as -> ->.
    rewrite ImagesFacts.process_images_keep.
    + rewrite ImagesFacts.process_image_files.
      replace (Images.image_counter (Images.self w) + N.of_nat 1)
        with (Images.image_counter (Images.self w) + 1) by lia.
      apply lookup_insert_eq.
    + intros s k img Hk. rewrite ImagesFacts.image_path_self.
      intros [_ E]%ImagesFacts.image_path_inj. rewrite Hc in Hk. lia.
  - cbn [lookup list_lookup] in Hi.
    specialize (IH (Images._process_image relpath w image0 slide0).2 i Hi).
    rewrite ImagesFacts.image_path_self, Hc in IH.
    by replace (Images.image_counter (Images.self w) + N.of_nat (S (S i)))
      with (Images.image_counter (Images.self w) + 1 + N.of_nat (S i)) by lia.
Qed.

Lemma images_kept_witness :
  Images.files
    (Images.process_images Pptx.sample_relpath Images.fresh_world
       [(inr (Images.mkImage (Some (lit ".png")) (lit "first")), 1);
        (inl (lit "no embedded image"), 1);
        (inr (Images.mkImage None (lit "third")), 2)])
    !! Images.image_path (Images.self Images.fresh_world) 1
         (Images.image_counter (Images.self Images.fresh_world) + N.of_nat 1)
         (Images.mkImage (Some (lit ".png")) (lit "first"))
  = Some (lit "first").
Proof.
  apply (images_kept Pptx.sample_relpath Images.fresh_world
           [(inr (Images.mkImage (Some (lit ".png")) (lit "first")), 1);
            (inl (lit "no embedded image"), 1);
            (inr (Images.mkImage None (lit "third")), 2)]
           0 (Images.mkImage (Some (lit ".png")) (lit "first")) 1).
  reflexivity.
Defined.

End Further.
